(** * The answer-processing route of the interview coach

    A shallow embedding of [backend/routes/transcribe.js]: the emotion label
    table [emotionMap], the sentence-level classifier aggregation
    [classifyParagraph] and the handler of [POST /transcribe]; and of what
    the two page scripts that come with it compute: the start and the stop
    of the detection loops ([detectionManager.js]), and the stars and the
    chart data of the report ([reportGenerator.js]).

    Conventions of the embedding.
    - A JavaScript string is a [string]; the functions that look at single
      characters (the sentence pattern, [trim], the file-extension pattern,
      the code-fence pattern) are written over its characters.
    - The scores are modelled twice.  [Scores] reads a classifier score as
      an exact rational ([Q]): sums and quotients are exact, and
      [toFixed(4)] rounds the exact value; the statements on the handler,
      which do not depend on the rounding of the arithmetic, are made over
      it.  [Binary64] is the normalization on the numbers the engine
      computes with, binary64 with rounding to nearest; the statement on the
      sum of the normalized values is made over it, with the error of every
      rounding accounted for.
    - An object literal used as a table is an association list of its own
      properties, looked up through [Labels.get], which answers for the
      names every object inherits ([constructor], [toString], ...) as the
      engine does.  The score object built by [classifyParagraph] is an
      association list in insertion order; this is what the engine does for
      plain labels ([Labels.plainLabel]: no array index, no inherited
      name), and the statements on its order and its values assume them.
    - Everything outside the process (file system, sub-processes, the remote
      classifier and generative model, the clock) is an abstract [World]
      threaded through the calls, each call answered by a field of [Env].
      Every effect the handler performs is appended to a trace. *)

From Stdlib Require Import String Ascii List Bool Arith ZArith NArith Lia.
From Stdlib Require Import QArith Qpower Qround Qabs Lqa.
From Stdlib Require Import DecimalString DecimalPos DecimalZ.
From Stdlib Require Import Floats Uint63.
Import ListNotations.

Local Close Scope Q_scope.
Local Open Scope list_scope.
Local Open Scope string_scope.

(* ================================================================== *)
(** * Part I: definitions *)
(* ================================================================== *)

(** ** Strings *)

Module JsString.

(** The characters [String.prototype.trim] removes (white space and line
    terminators), among the characters a [string] can hold. *)
Definition isWhiteSpace (c : ascii) : bool :=
  match nat_of_ascii c with
  | 9 | 10 | 11 | 12 | 13 | 32 | 160 => true
  | _ => false
  end.

Fixpoint trimStart (s : string) : string :=
  match s with
  | String c r => if isWhiteSpace c then trimStart r else s
  | EmptyString => EmptyString
  end.

Fixpoint trimEnd (s : string) : string :=
  match s with
  | EmptyString => EmptyString
  | String c r =>
      match trimEnd r with
      | EmptyString => if isWhiteSpace c then EmptyString else String c EmptyString
      | r' => String c r'
      end
  end.

(** [s.trim()] *)
Definition trim (s : string) : string := trimEnd (trimStart s).

(** [xs.join("")] *)
Definition join (xs : list string) : string := String.concat "" xs.

(** [s] without its white space: two strings that agree up to white space
    have the same image. *)
Fixpoint withoutWhiteSpace (s : string) : string :=
  match s with
  | EmptyString => EmptyString
  | String c r =>
      if isWhiteSpace c then withoutWhiteSpace r else String c (withoutWhiteSpace r)
  end.

End JsString.

(** ** Sentence splitting: [text.match(/[^.!?]+[.!?]?/g) || [text]] *)

Module Sentences.

(** The class [[.!?]]. *)
Definition isTerminal (c : ascii) : bool :=
  ((c =? ".") || (c =? "!") || (c =? "?"))%char.

(** [[^.!?]+], greedy: the longest run of non-terminal characters at the
    head of [s], and the input after it. *)
Fixpoint spanText (s : string) : string * string :=
  match s with
  | EmptyString => (EmptyString, EmptyString)
  | String c r =>
      if isTerminal c then (EmptyString, s)
      else let (run, rest) := spanText r in (String c run, rest)
  end.

(** One attempt of the pattern at the head of [s]: the matched text and the
    input after it.  The run must not be empty; the terminal character after
    it is optional and taken when present. *)
Definition matchHere (s : string) : option (string * string) :=
  match spanText s with
  | (EmptyString, _) => None
  | (run, String c r) =>
      if isTerminal c then Some (run ++ String c EmptyString, r)
      else Some (run, String c r)
  | (run, EmptyString) => Some (run, EmptyString)
  end.

(** The [g] flag: the pattern is tried at each index in turn; after a match
    the search resumes behind it, after a failure one character further.
    A match is never empty, so [fuel = length text] attempts suffice. *)
Fixpoint matchAll (fuel : nat) (s : string) : list string :=
  match fuel with
  | O => []
  | S fuel' =>
      match s with
      | EmptyString => []
      | String _ r =>
          match matchHere s with
          | Some (m, rest) => m :: matchAll fuel' rest
          | None => matchAll fuel' r
          end
      end
  end.

(** [text.match(re)]: [null] when nothing matches. *)
Definition String_match (text : string) : option (list string) :=
  match matchAll (String.length text) text with
  | [] => None
  | ms => Some ms
  end.

(** [const sentences = text.match(/[^.!?]+[.!?]?/g) || [text]] *)
Definition splitSentences (text : string) : list string :=
  match String_match text with
  | Some ms => ms
  | None => [text]
  end.

(** A text without its stray punctuation: every character is kept except a
    terminal character that does not directly follow a non-terminal one.
    [afterText] tells whether the previous character was non-terminal. *)
Fixpoint dropStray (afterText : bool) (s : string) : string :=
  match s with
  | EmptyString => EmptyString
  | String c r =>
      if isTerminal c
      then (if afterText then String c (dropStray false r) else dropStray false r)
      else String c (dropStray true r)
  end.

(** The text has a character that is not terminal punctuation. *)
Fixpoint hasText (s : string) : bool :=
  match s with
  | EmptyString => false
  | String c r => negb (isTerminal c) || hasText r
  end.

(** The text has no stray terminal character. *)
Fixpoint noStray (afterText : bool) (s : string) : bool :=
  match s with
  | EmptyString => true
  | String c r =>
      if isTerminal c then afterText && noStray false r else noStray true r
  end.

End Sentences.

(** ** The emotion label table *)

Module Labels.

(** [const emotionMap = { joy: "Confident", ... }] *)
Definition emotionMap : list (string * string) :=
  [ ("joy", "Confident");
    ("love", "Confident");
    ("surprise", "Engaged");
    ("sadness", "Hesitant");
    ("fear", "Cautious");
    ("anger", "Assertive") ].

(** The own entry of [table] under [key]: the value of the first entry with
    that key, [None] when the table has none. *)
Fixpoint lookup {A : Type} (table : list (string * A)) (key : string) : option A :=
  match table with
  | [] => None
  | (k, v) :: rest => if (k =? key)%string then Some v else lookup rest key
  end.

(** The names every object inherits from [Object.prototype]. *)
Definition inheritedNames : list string :=
  [ "constructor"; "hasOwnProperty"; "isPrototypeOf"; "propertyIsEnumerable";
    "toLocaleString"; "toString"; "valueOf"; "__proto__";
    "__defineGetter__"; "__defineSetter__"; "__lookupGetter__"; "__lookupSetter__" ].

(** What an expression over a table of strings evaluates to: a string, or
    the member of [Object.prototype] of that name (a function; for
    [__proto__] the prototype itself). *)
Inductive Value : Type :=
| Str (s : string)
| Proto (name : string).

(** [table[key]] on an object literal: its own entry, or else the member it
    inherits under that name; [None] for [undefined]. *)
Definition get (table : list (string * string)) (key : string) : option Value :=
  match lookup table key with
  | Some v => Some (Str v)
  | None => if existsb (String.eqb key) inheritedNames then Some (Proto key) else None
  end.

(** [emotionMap[d] || d]: the empty string and [undefined] are falsy, a
    function or an object is not. *)
Definition mapEmotion (d : string) : Value :=
  match get emotionMap d with
  | Some (Str v) => if (v =? "")%string then Str d else Str v
  | Some (Proto name) => Proto name
  | None => Str d
  end.

(** A digit. *)
Definition isDigit (c : ascii) : bool :=
  (48 <=? nat_of_ascii c)%nat && (nat_of_ascii c <=? 57)%nat.

(** A label that a score object keeps like any other: it does not start
    with a digit, so it is no array index (which an object enumerates
    first, in numeric order), and it is no inherited name (which an object
    finds although it was never stored). *)
Definition plainLabel (label : string) : bool :=
  match label with
  | String c _ => negb (isDigit c)
  | EmptyString => true
  end
  && negb (existsb (String.eqb label) inheritedNames).

End Labels.

(** ** Score accumulation, normalization and the dominant label *)

Module Scores.
Import Labels.

Local Open Scope Q_scope.

(** The object [scoreMap]: its properties in insertion order, which is the
    order an object enumerates them in when the labels are plain
    ([Labels.plainLabel]).  What an object does with an array index or an
    inherited name as a label is not modelled; the statements on the order
    and on the values of the entries assume plain labels. *)
Definition ScoreMap : Type := list (string * Q).

(** [scoreMap[label] = v]: an existing property keeps its place, a new one
    goes last. *)
Fixpoint set (m : ScoreMap) (label : string) (v : Q) : ScoreMap :=
  match m with
  | [] => [(label, v)]
  | (k, x) :: rest =>
      if (k =? label)%string then (k, v) :: rest else (k, x) :: set rest label v
  end.

(** [!scoreMap[label]]: true for [undefined] and for [0]. *)
Definition falsy (v : option Q) : bool :=
  match v with
  | None => true
  | Some x => Qeq_bool x 0
  end.

(** The body of [res.forEach]:
    [if (!scoreMap[r.label]) scoreMap[r.label] = 0; scoreMap[r.label] += r.score]. *)
Definition accumulate (scoreMap : ScoreMap) (r : string * Q) : ScoreMap :=
  let (label, score) := r in
  let m := if falsy (lookup scoreMap label) then set scoreMap label 0 else scoreMap in
  match lookup m label with
  | Some v => set m label (v + score)
  | None => m (* not reached: the line before defines the property *)
  end.

(** [Object.values(scoreMap).reduce((sum, score) => sum + score, 0)] *)
Definition totalScore (scoreMap : ScoreMap) : Q :=
  fold_left (fun sum score => sum + score) (map snd scoreMap) 0.

(** [parseFloat(x.toFixed(4))].  [toFixed] takes the integer [n] for which
    [n / 10^4] is closest to the magnitude of [x], the larger one of two
    equally close, and keeps the sign; from [10^21] on it prints [x] itself. *)
Definition toFixed4 (x : Q) : Q :=
  if Qle_bool (inject_Z (10 ^ 21)) (Qabs x) then x
  else
    let n := Qfloor (Qabs x * 10000 + (1 # 2)) in
    if Qle_bool 0 x then inject_Z n / 10000 else - (inject_Z n / 10000).

(** [if (totalScore > 0) for (const label in scoreMap)
       scoreMap[label] = parseFloat((scoreMap[label] / totalScore).toFixed(4))] *)
Definition normalizeScores (scoreMap : ScoreMap) : ScoreMap :=
  let totalScore := totalScore scoreMap in
  if negb (Qle_bool totalScore 0)
  then map (fun e => (fst e, toFixed4 (snd e / totalScore))) scoreMap
  else scoreMap.

(** [Array.prototype.sort] with a comparator: a stable sort; [a] stays
    before [b] unless [compare a b > 0]. *)
Fixpoint insertSorted {A : Type} (compare : A -> A -> Q) (a : A) (l : list A) : list A :=
  match l with
  | [] => [a]
  | b :: rest =>
      if Qle_bool (compare a b) 0 then a :: l
      else b :: insertSorted compare a rest
  end.

Definition sortWith {A : Type} (compare : A -> A -> Q) (l : list A) : list A :=
  fold_right (insertSorted compare) [] l.

(** [Object.entries(scoreMap).sort((a, b) => b[1] - a[1])] *)
Definition sorted (scoreMap : ScoreMap) : list (string * Q) :=
  sortWith (fun a b => snd b - snd a) scoreMap.

(** What [classifyParagraph] returns. *)
Record Classification : Type := {
  dominantEmotion : string;
  detailedScores : ScoreMap
}.

(** The end of [classifyParagraph], from [// Normalize scores] on. *)
Definition summarize (scoreMap : ScoreMap) : Classification :=
  let scoreMap := normalizeScores scoreMap in
  {| dominantEmotion :=
       match sorted scoreMap with
       | (label, _) :: _ => label
       | [] => "neutral"
       end;
     detailedScores := scoreMap |}.

(** The sum of the values of a score map. *)
Definition sumOfValues (scoreMap : ScoreMap) : Q :=
  fold_right (fun e acc => snd e + acc) 0 scoreMap.

End Scores.

(** ** The normalization on binary64 numbers

    The same steps on the numbers the engine computes with: [+] and [/] are
    the operations of binary64, rounding to nearest, ties to even. *)

Module Binary64.
Local Open Scope float_scope.

(** [parseFloat(x.toFixed(4))].  The integer [n] is computed from the exact
    value [m * 2^e] of [x]; [n / 10000], both exact, is rounded once, as
    [parseFloat] rounds the decimal.  From [2^39] on, neighbouring numbers
    are more than 0.0001 apart and the result is [x] itself. *)
Definition toFixed4 (x : float) : float :=
  match Prim2SF x with
  | S754_zero _ => 0
  | S754_finite negative m e =>
      if 0x1p+39 <=? abs x then x
      else
        let n := match e with
                 | Zneg p => ((2 * Zpos m * 10000 + Zpos (2 ^ p)) / (2 * Zpos (2 ^ p)))%Z
                 | _ => (Zpos m * 2 ^ e * 10000)%Z
                 end in
        let magnitude := of_uint63 (Uint63.of_Z n) / 10000 in
        if negative then - magnitude else magnitude
  | _ => x
  end.

Definition totalScore (scoreMap : list (string * float)) : float :=
  fold_left (fun sum score => sum + score) (map snd scoreMap) 0.

Definition normalizeScores (scoreMap : list (string * float)) : list (string * float) :=
  let totalScore := totalScore scoreMap in
  if 0 <? totalScore
  then map (fun e => (fst e, toFixed4 (snd e / totalScore))) scoreMap
  else scoreMap.

(** Six labels of equal score, the nearest number to one sixth each. *)
Definition evenScores : list (string * float) :=
  map (fun label => (label, 1 / 6))
      ["sadness"; "joy"; "love"; "anger"; "fear"; "surprise"].

(** The exact value of a finite number, [m * 2^e] with its sign; 0 stands
    in for the infinities and NaN. *)
Definition SFvalue (x : spec_float) : Q :=
  match x with
  | S754_finite s m e =>
      ((if s then - inject_Z (Zpos m) else inject_Z (Zpos m)) * 2 ^ e)%Q
  | _ => 0%Q
  end.

Definition value (x : float) : Q := SFvalue (Prim2SF x).

(** A finite number that is not negative; both zeros count. *)
Definition SFnonneg (x : spec_float) : bool :=
  match x with
  | S754_zero _ => true
  | S754_finite s _ _ => negb s
  | _ => false
  end.

Definition nonNegative (x : float) : bool := SFnonneg (Prim2SF x).

Definition finite (x : float) : bool :=
  match Prim2SF x with
  | S754_zero _ | S754_finite _ _ _ => true
  | _ => false
  end.

(** [2^-52], the most one rounding moves a number of the normal range,
    relative to the result; and [2^-1074], the least positive number. *)
Definition epsilon : Q := (1 # 4503599627370496)%Q.
Definition eta : Q := (2 ^ (-1074))%Q.

(** [values.reduce((sum, score) => sum + score, start)] *)
Definition sumFrom (start : float) (values : list float) : float :=
  fold_left (fun sum score => sum + score) values start.

(** The exact sum of the values of a list of numbers. *)
Definition exactSum (values : list float) : Q :=
  fold_right (fun v acc => (value v + acc)%Q) 0%Q values.

(** Scores that cancel: the total, 4 on binary64 numbers, is positive. *)
Definition cancellingScores : list (string * float) :=
  [("joy", 1e16); ("fear", 3); ("anger", -1e16)].

End Binary64.

(** ** Values, requests and responses *)

Module Http.
Import Scores.

#[local] Set Warnings "-register-all".

(** A JavaScript value as [JSON.parse] builds it, and [undefined].  An
    object lists each of its keys once. *)
Inductive JsValue : Type :=
| JUndefined
| JNull
| JBool (b : bool)
| JNumber (q : Q)
| JString (s : string)
| JArray (items : list JsValue)
| JObject (fields : list (string * JsValue)).

(** A thrown [Error], by its message, or a value. *)
Inductive Result (A : Type) : Type :=
| Ok (a : A)
| Err (message : string).
Arguments Ok {A} a.
Arguments Err {A} message.

(** [v[name]] on a parsed value, for the names the route and the report
    read ([evaluation], [holisticFeedback], [ratings], [score], ...), none of
    which is inherited: reading a property of [null] or [undefined] throws a
    [TypeError]; a value that is no object has none of these names. *)
Definition getProp (v : JsValue) (name : string) : Result JsValue :=
  match v with
  | JUndefined => Err ("Cannot read properties of undefined (reading '" ++ name ++ "')")
  | JNull => Err ("Cannot read properties of null (reading '" ++ name ++ "')")
  | JObject fields =>
      match Labels.lookup fields name with
      | Some x => Ok x
      | None => Ok JUndefined
      end
  | _ => Ok JUndefined
  end.

(** The form fields the handler reads from [req.body]; [None] is
    [undefined]. *)
Record Body : Type := {
  questionText : option string;
  domain : option string;
  experience : option string;
  postureData : option string;
  emotionData : option string
}.

(** [{}] *)
Definition emptyBody : Body :=
  {| questionText := None; domain := None; experience := None;
     postureData := None; emotionData := None |}.

(** An uploaded file: the handle its [mv] method works on. *)
Definition UploadedFile : Type := nat.

Record Files : Type := { audio : option UploadedFile }.

Record Request : Type := {
  files : option Files;
  body : option Body
}.

(** [req.files && req.files.audio] *)
Definition uploaded (req : Request) : option UploadedFile :=
  match files req with
  | Some fs => audio fs
  | None => None
  end.

Inductive Payload : Type :=
| Text (s : string)          (* res.send(string) *)
| JsonBody (v : JsValue).    (* res.json(object) *)

Record Response : Type := {
  status : nat;
  payload : Payload
}.

(** The values the template [masterPrompt] interpolates; the fixed text
    around them is the same for every request. *)
Record Prompt : Type := {
  promptDomain : option string;
  promptExperience : option string;
  promptQuestion : option string;
  promptTranscript : string;
  promptPosture : JsValue;
  promptFacial : JsValue;
  promptTone : Labels.Value
}.

(** A form field as a value. *)
Definition ofOption (s : option string) : JsValue :=
  match s with
  | Some x => JString x
  | None => JUndefined
  end.

(** The score object as a value. *)
Definition ofScores (m : ScoreMap) : JsValue :=
  JObject (map (fun e => (fst e, JNumber (snd e))) m).

(** [{ skipEvaluation: true, message: "No speech detected." }] *)
Definition noSpeech : Response :=
  {| status := 200;
     payload := JsonBody (JObject [ ("skipEvaluation", JBool true);
                                    ("message", JString "No speech detected.") ]) |}.

(** [res.status(400).send("No audio uploaded")] *)
Definition noAudio : Response :=
  {| status := 400; payload := Text "No audio uploaded" |}.

(** [res.status(500).send(`Processing failed: ${err.message}`)] *)
Definition processingFailed (message : string) : Response :=
  {| status := 500; payload := Text ("Processing failed: " ++ message) |}.

(** The object of the final [res.json].  A member that is [undefined] is
    left out when the object is written to the wire. *)
Definition report (cleanedText : string) (parsedPostureData parsedEmotionData : JsValue)
    (textualEmotionResult : Classification) (evaluation holisticFeedback : JsValue)
    (questionText : option string) : Response :=
  {| status := 200;
     payload := JsonBody (JObject
       [ ("transcription", JString cleanedText);
         ("postureAnalysis", JObject [("data", parsedPostureData)]);
         ("emotionAnalysis", JObject [("data", parsedEmotionData)]);
         ("dominantEmotion", JString (dominantEmotion textualEmotionResult));
         ("textualEmotionAnalysis",
            JObject [("data", ofScores (detailedScores textualEmotionResult))]);
         ("evaluation", evaluation);
         ("holisticFeedback", holisticFeedback);
         ("question", ofOption questionText) ]) |}.

(** A member of the object a response carries, if it carries one. *)
Definition responseField (resp : Response) (name : string) : option JsValue :=
  match payload resp with
  | JsonBody (JObject fields) => Labels.lookup fields name
  | _ => None
  end.

(** The invariant of the EvaluationReport: a rating whose score is an
    integer from 1 to 5. *)
Definition isRating (rating : JsValue) : bool :=
  match getProp rating "score" with
  | Ok (JNumber q) =>
      Qeq_bool q (inject_Z (Qfloor q)) && Qle_bool 1 q && Qle_bool q 5
  | _ => false
  end.

Definition hasRating (ratings : JsValue) (name : string) : bool :=
  match getProp ratings name with
  | Ok rating => isRating rating
  | Err _ => false
  end.

(** The three ratings are in range and there are at most five tips. *)
Definition validEvaluation (evaluation : JsValue) : bool :=
  match getProp evaluation "ratings", getProp evaluation "howToMakeItBetter" with
  | Ok ratings, Ok (JArray tips) =>
      hasRating ratings "clarity" && hasRating ratings "relevance"
      && hasRating ratings "completeness" && (length tips <=? 5)%nat
  | _, _ => false
  end.

(** What the handler does to the outside, in order. *)
Inductive Event : Type :=
| EMove (file : UploadedFile) (path : string)       (* audioFile.mv(path) *)
| ERun (executable : string) (args : list string)   (* runCommand(executable, args) *)
| EClassify (inputs : string)                       (* hf.textClassification({ model, inputs }) *)
| ESleep (ms : nat)                                 (* setTimeout(resolve, ms) *)
| EWarn (sentence message : string)                 (* console.warn *)
| EGenerate (prompt : Prompt)                       (* model.generateContent(prompt) *)
| ELogError (message : string)                      (* console.error *)
| ESend (response : Response)                       (* res.send, res.json *)
| EUnlink (path : string).                          (* fs.unlink(path, () => {}) *)

End Http.

(** ** File names and the model's answer *)

Module Paths.

(** A character of the class [[^/.]]. *)
Definition isNameChar (c : ascii) : bool :=
  negb ((c =? "/") || (c =? "."))%char.

Fixpoint allNameChars (s : string) : bool :=
  match s with
  | EmptyString => true
  | String c r => isNameChar c && allNameChars r
  end.

(** The pattern [/\.[^/.]+$/] matches all of [s]. *)
Definition isExtension (s : string) : bool :=
  match s with
  | String c (String _ _ as name) => (c =? ".")%char && allNameChars name
  | _ => false
  end.

(** [s.replace(/\.[^/.]+$/, ext)]: the leftmost place from which the
    pattern reaches the end of [s] is where [ext] is put. *)
Fixpoint replaceExtension (s ext : string) : string :=
  match s with
  | EmptyString => EmptyString
  | String c r => if isExtension s then ext else String c (replaceExtension r ext)
  end.

(** [s.replace(/```json|```/g, "")]: at each place the longer alternative is
    tried first; [skip] counts the characters of a match still to drop. *)
Fixpoint stripFences (skip : nat) (s : string) : string :=
  match s with
  | EmptyString => EmptyString
  | String c r =>
      match skip with
      | S k => stripFences k r
      | O =>
          if String.prefix "```json" s then stripFences 6 r
          else if String.prefix "```" s then stripFences 2 r
          else String c (stripFences 0 r)
      end
  end.

(** The decimal numeral of a non-negative integer. *)
Definition decimal (n : Z) : string :=
  NilZero.string_of_int (Z.to_int n).

(** [Math.round(x)] for [x >= 0]. *)
Definition Math_round (x : Q) : Z := Qfloor (x + (1 # 2))%Q.

End Paths.

(** ** The handler and its effects *)

Module Pipeline.
Import JsString Sentences Labels Scores Http Paths.

Section WithWorld.

(** The state of everything outside the process. *)
Context {World : Type}.

(** The collaborators of the route.  The constants and the two helpers of
    [utils/paths.js] and [utils/fileHelpers.js], [path.join] and
    [JSON.parse] are taken as given; each call to the outside answers from
    the current world and moves it on. *)
Record Env : Type := {
  ffmpegPath : string;
  whisperExe : string;
  modelBin : string;
  uploadsDir : string;
  path_join : string -> string -> string;
  cleanTranscription : string -> string;
  JSON_parse : string -> Result JsValue;
  Date_now : World -> Z * World;
  Math_random : World -> Q * World;
  mv : UploadedFile -> string -> World -> Result unit * World;
  runCommand : string -> list string -> World -> Result string * World;
  textClassification : string -> World -> Result (list (string * Q)) * World;
  setTimeout : nat -> World -> World;
  generateContent : Prompt -> World -> Result string * World;
  (* the error, if any, goes to the callback *)
  unlink : string -> World -> option string * World
}.

Variable env : Env.

(** The outside world and the effects performed so far. *)
Record State : Type := {
  world : World;
  trace : list Event
}.

(** A computation that may throw. *)
Definition M (A : Type) : Type := State -> Result A * State.

Definition ret {A : Type} (a : A) : M A := fun st => (Ok a, st).

Definition bind {A B : Type} (m : M A) (k : A -> M B) : M B :=
  fun st =>
    match m st with
    | (Ok a, st') => k a st'
    | (Err e, st') => (Err e, st')
    end.

(** [try { body } catch (err) { handler }] *)
Definition tryCatch {A : Type} (body : M A) (handler : string -> M A) : M A :=
  fun st =>
    match body st with
    | (Ok a, st') => (Ok a, st')
    | (Err e, st') => handler e st'
    end.

(** [try { body } finally { cleanup }] *)
Definition tryFinally {A : Type} (body : M A) (cleanup : M unit) : M A :=
  fun st =>
    let (r, st') := body st in
    match cleanup st' with
    | (Ok _, st'') => (r, st'')
    | (Err e, st'') => (Err e, st'')
    end.

(** A pure step that may throw. *)
Definition lift {A : Type} (r : Result A) : M A := fun st => (r, st).

(** An effect with no answer. *)
Definition emit (e : Event) : M unit :=
  fun st => (Ok tt, {| world := world st; trace := trace st ++ [e] |}).

(** A call to the outside: recorded, then answered. *)
Definition call {A : Type} (e : Event) (answer : World -> Result A * World) : M A :=
  fun st =>
    let (r, w) := answer (world st) in
    (r, {| world := w; trace := trace st ++ [e] |}).

(** A read of the outside that cannot fail. *)
Definition ask {A : Type} (answer : World -> A * World) : M A :=
  fun st =>
    let (a, w) := answer (world st) in
    (Ok a, {| world := w; trace := trace st |}).

Local Notation "x <- m ;; k" := (bind m (fun x => k))
  (at level 61, m at next level, right associativity).
Local Notation "m ;; k" := (bind m (fun _ => k))
  (at level 61, right associativity).

(** [await new Promise((resolve) => setTimeout(resolve, ms))] *)
Definition sleep (ms : nat) : M unit :=
  fun st =>
    (Ok tt, {| world := setTimeout env ms (world st); trace := trace st ++ [ESleep ms] |}).

(** [fs.unlink(path, () => {})]: the callback drops the error. *)
Definition unlinkQuietly (path : string) : M unit :=
  fun st =>
    let (_, w) := unlink env path (world st) in
    (Ok tt, {| world := w; trace := trace st ++ [EUnlink path] |}).

(** *** [classifyParagraph] *)

Definition maxRetries : nat := 3.

(** One turn of the retry loop, [try { ... break; } catch (err) { ... }]:
    [Some] of the new score map stands for [break]. *)
Definition attemptOnce (attempt : nat) (trimmed : string) (scoreMap : ScoreMap)
    : M (option ScoreMap) :=
  tryCatch
    (res <- call (EClassify trimmed) (textClassification env trimmed) ;;
     ret (Some (fold_left accumulate res scoreMap)))
    (fun err =>
       (if (attempt =? maxRetries)%nat
        then emit (EWarn trimmed err)
        else sleep 500) ;;
       ret None).

(** [for (let attempt = 1; attempt <= maxRetries; attempt++)], run with
    [turns = maxRetries] and [attempt = 1]. *)
Fixpoint retryLoop (turns attempt : nat) (trimmed : string) (scoreMap : ScoreMap)
    : M ScoreMap :=
  match turns with
  | O => ret scoreMap
  | S turns' =>
      if (attempt <=? maxRetries)%nat
      then
        r <- attemptOnce attempt trimmed scoreMap ;;
        match r with
        | Some scoreMap' => ret scoreMap'
        | None => retryLoop turns' (S attempt) trimmed scoreMap
        end
      else ret scoreMap
  end.

(** The body of [for (const s of sentences)]. *)
Definition classifySentence (s : string) (scoreMap : ScoreMap) : M ScoreMap :=
  let trimmed := trim s in
  if (String.length trimmed =? 0)%nat then ret scoreMap
  else retryLoop maxRetries 1 trimmed scoreMap.

Fixpoint forSentences (sentences : list string) (scoreMap : ScoreMap) : M ScoreMap :=
  match sentences with
  | [] => ret scoreMap
  | s :: rest =>
      scoreMap' <- classifySentence s scoreMap ;;
      forSentences rest scoreMap'
  end.

Definition classifyParagraph (text : string) : M Classification :=
  scoreMap <- forSentences (splitSentences text) [] ;;
  ret (summarize scoreMap).

(** *** [router.post("/", ...)] *)

(** [data ? JSON.parse(data) : null]: [undefined] and the empty string are
    falsy. *)
Definition parseOptional (data : option string) : Result JsValue :=
  match data with
  | Some text => if (text =? "")%string then Ok JNull else JSON_parse env text
  | None => Ok JNull
  end.

(** [Date.now() + "-" + Math.round(Math.random() * 1e9)] *)
Definition uniqueId (now : Z) (random : Q) : string :=
  decimal now ++ "-" ++ decimal (Math_round (random * inject_Z (10 ^ 9))%Q).

Definition webmPath (now : Z) (random : Q) : string :=
  path_join env (uploadsDir env) (uniqueId now random ++ "-answer.webm").

Definition wavPath (now : Z) (random : Q) : string :=
  replaceExtension (webmPath now random) ".wav".

Definition ffmpegArgs (webmPath wavPath : string) : list string :=
  ["-y"; "-i"; webmPath; "-ar"; "16000"; "-ac"; "1"; "-acodec"; "pcm_s16le"; wavPath].

Definition whisperArgs (wavPath : string) : list string :=
  ["-f"; wavPath; "-m"; modelBin env].

(** The [try] block up to [const cleanedText = ...]: the upload is moved to
    storage, converted, and transcribed. *)
Definition transcribe (audioFile : UploadedFile) (webmPath wavPath : string) : M string :=
  call (EMove audioFile webmPath) (mv env audioFile webmPath) ;;
  call (ERun (ffmpegPath env) (ffmpegArgs webmPath wavPath))
       (runCommand env (ffmpegPath env) (ffmpegArgs webmPath wavPath)) ;;
  whisperOutput <- call (ERun (whisperExe env) (whisperArgs wavPath))
                        (runCommand env (whisperExe env) (whisperArgs wavPath)) ;;
  ret (cleanTranscription env whisperOutput).

(** The [masterPrompt] of a request. *)
Definition masterPrompt (fields : Body) (cleanedText : string)
    (parsedPostureData parsedEmotionData : JsValue) (mappedDominantEmotion : Value)
    : Prompt :=
  {| promptDomain := domain fields;
     promptExperience := experience fields;
     promptQuestion := questionText fields;
     promptTranscript := cleanedText;
     promptPosture := parsedPostureData;
     promptFacial := parsedEmotionData;
     promptTone := mappedDominantEmotion |}.

(** The [try] block from [// Perform textual emotion classification] to the
    final [res.json]. *)
Definition evaluate (fields : Body) (cleanedText : string) : M unit :=
  textualEmotionResult <- classifyParagraph cleanedText ;;
  parsedPostureData <- lift (parseOptional (postureData fields)) ;;
  parsedEmotionData <- lift (parseOptional (emotionData fields)) ;;
  let mappedDominantEmotion := mapEmotion (dominantEmotion textualEmotionResult) in
  let masterPrompt :=
    masterPrompt fields cleanedText parsedPostureData parsedEmotionData
                 mappedDominantEmotion in
  text <- call (EGenerate masterPrompt) (generateContent env masterPrompt) ;;
  let rawResponseText := stripFences 0 (trim text) in
  aiFeedback <- lift (JSON_parse env rawResponseText) ;;
  evaluation <- lift (getProp aiFeedback "evaluation") ;;
  holisticFeedback <- lift (getProp aiFeedback "holisticFeedback") ;;
  emit (ESend (report cleanedText parsedPostureData parsedEmotionData
                      textualEmotionResult evaluation holisticFeedback
                      (questionText fields))).

(** The [try] block. *)
Definition tryBlock (audioFile : UploadedFile) (fields : Body) (webmPath wavPath : string)
    : M unit :=
  cleanedText <- transcribe audioFile webmPath wavPath ;;
  if (cleanedText =? "")%string
  then emit (ESend noSpeech)
  else evaluate fields cleanedText.

(** The [catch] block. *)
Definition catchBlock (message : string) : M unit :=
  emit (ELogError message) ;;
  emit (ESend (processingFailed message)).

(** The [finally] block. *)
Definition finallyBlock (webmPath wavPath : string) : M unit :=
  unlinkQuietly webmPath ;;
  unlinkQuietly wavPath.

(** [const { questionText, ... } = req.body || {}] *)
Definition fieldsOf (req : Request) : Body :=
  match body req with
  | Some b => b
  | None => emptyBody
  end.

Definition handler (req : Request) : M unit :=
  match uploaded req with
  | None => emit (ESend noAudio)
  | Some audioFile =>
      let fields := fieldsOf req in
      now <- ask (Date_now env) ;;
      random <- ask (Math_random env) ;;
      let webmPath := webmPath now random in
      let wavPath := wavPath now random in
      tryFinally
        (tryCatch (tryBlock audioFile fields webmPath wavPath) catchBlock)
        (finallyBlock webmPath wavPath)
  end.

(** The two file names of a request and the world once they are chosen. *)
Definition artifacts (w : World) : string * string * World :=
  let (now, w1) := Date_now env w in
  let (random, w2) := Math_random env w1 in
  (webmPath now random, wavPath now random, w2).

(** The state after the [catch] block has run on [message]. *)
Definition failed (message : string) (st : State) : State :=
  {| world := world st;
     trace := trace st ++ [ELogError message; ESend (processingFailed message)] |}.


(** The state after the two removals of the [finally] block. *)
Definition cleanedUp (webmPath wavPath : string) (st : State) : State :=
  {| world := snd (unlink env wavPath (snd (unlink env webmPath (world st))));
     trace := trace st ++ [EUnlink webmPath; EUnlink wavPath] |}.

End WithWorld.

Arguments Env World : clear implicits.
Arguments State World : clear implicits.
Arguments M World A : clear implicits.

(** The answers of the classifier, in the order of the calls. *)
Definition Answers : Type := list (Result (list (string * Q))).

(** The collaborators [env] with a log kept beside the world: each answer
    of the classifier is appended to the log as it is given; nothing else
    changes. *)
Definition recording {World : Type} (env : Env World) : Env (World * Answers) :=
  {| ffmpegPath := ffmpegPath env;
     whisperExe := whisperExe env;
     modelBin := modelBin env;
     uploadsDir := uploadsDir env;
     path_join := path_join env;
     cleanTranscription := cleanTranscription env;
     JSON_parse := JSON_parse env;
     Date_now := fun wl => let (a, w) := Date_now env (fst wl) in (a, (w, snd wl));
     Math_random := fun wl => let (a, w) := Math_random env (fst wl) in (a, (w, snd wl));
     mv := fun file path wl => let (r, w) := mv env file path (fst wl) in (r, (w, snd wl));
     runCommand := fun executable args wl =>
       let (r, w) := runCommand env executable args (fst wl) in (r, (w, snd wl));
     textClassification := fun inputs wl =>
       let (answer, w) := textClassification env inputs (fst wl) in
       (answer, (w, (snd wl ++ [answer])%list));
     setTimeout := fun ms wl => (setTimeout env ms (fst wl), snd wl);
     generateContent := fun prompt wl =>
       let (r, w) := generateContent env prompt (fst wl) in (r, (w, snd wl));
     unlink := fun path wl => let (r, w) := unlink env path (fst wl) in (r, (w, snd wl)) |}.

(** A state with a log beside its world, and the state without it. *)
Definition logged {World : Type} (st : State World) (log : Answers) : State (World * Answers) :=
  {| world := (world st, log); trace := trace st |}.

Definition unlogged {World : Type} (st : State (World * Answers)) : State World :=
  {| world := fst (world st); trace := trace st |}.

(** The answers the classifier gives to the calls that [classifyParagraph]
    makes on [text] from the state [st], in order. *)
Definition classifierAnswers {World : Type} (env : Env World) (text : string)
    (st : State World) : Answers :=
  snd (world (snd (classifyParagraph (recording env) text (logged st [])))).

(** The effects of [classifyParagraph]. *)
Definition classifierEvent (e : Event) : Prop :=
  match e with
  | EClassify _ | ESleep _ | EWarn _ _ => True
  | _ => False
  end.

(** A classifier answer that brings no (label, score) pair: a failure, or
    an empty list. *)
Definition bringsNoLabel (answer : Result (list (string * Q))) : Prop :=
  match answer with
  | Ok res => res = []
  | Err _ => True
  end.

(** The prompt of a request with the form fields [fields]: its tone is the
    mapped dominant emotion of a classification of its transcript. *)
Definition promptOf {World : Type} (env : Env World) (fields : Body) (p : Prompt) : Prop :=
  exists cleanedText parsedPostureData parsedEmotionData result st1 st2,
    classifyParagraph env cleanedText st1 = (Ok result, st2)
    /\ p = masterPrompt fields cleanedText parsedPostureData parsedEmotionData
                        (mapEmotion (dominantEmotion result)).

(** An effect of the [try] block after the upload was moved and before the
    response: a sub-process, a classifier effect, or the request's prompt. *)
Definition preparation {World : Type} (env : Env World) (fields : Body) (e : Event) : Prop :=
  match e with
  | ERun _ _ | EClassify _ | ESleep _ | EWarn _ _ => True
  | EGenerate p => promptOf env fields p
  | _ => False
  end.

End Pipeline.

(** ** A scripted outside world, for concrete runs *)

Module Scenario.
Import JsString Scores Http Paths Pipeline.

(** Modelled from the spec: the white-space step of [cleanTranscription],
    which is not among the sources: a run of white space becomes one
    space. *)
Fixpoint collapseWhiteSpace (afterSpace : bool) (s : string) : string :=
  match s with
  | EmptyString => EmptyString
  | String c r =>
      if isWhiteSpace c
      then (if afterSpace then collapseWhiteSpace true r
            else String " " (collapseWhiteSpace true r))
      else String c (collapseWhiteSpace false r)
  end.

(** Modelled from the spec: [cleanTranscription] of [utils/fileHelpers.js],
    which is not among the sources.  The spec has it strip the engine's
    time-stamp and progress decoration, collapse internal white space and
    trim; the decoration, whose form the spec leaves open, is removed by the
    parameter [undecorate]. *)
Definition cleanTranscriptionSpec (undecorate : string -> string) (output : string) : string :=
  trim (collapseWhiteSpace false (undecorate output)).

(** The double quote. *)
Definition dq : string := String (ascii_of_nat 34) EmptyString.

(** The JSON text of a value whose strings need no escape and whose numbers
    are integers. *)
Fixpoint jsonText (v : JsValue) : string :=
  match v with
  | JUndefined => "undefined"
  | JNull => "null"
  | JBool b => if b then "true" else "false"
  | JNumber q => decimal (Qfloor q)
  | JString s => dq ++ s ++ dq
  | JArray items =>
      "[" ++ (fix go (l : list JsValue) : string :=
                match l with
                | [] => ""
                | [x] => jsonText x
                | x :: r => jsonText x ++ "," ++ go r
                end) items ++ "]"
  | JObject fields =>
      "{" ++ (fix go (l : list (string * JsValue)) : string :=
                match l with
                | [] => ""
                | [(k, x)] => dq ++ k ++ dq ++ ":" ++ jsonText x
                | (k, x) :: r => dq ++ k ++ dq ++ ":" ++ jsonText x ++ "," ++ go r
                end) fields ++ "}"
  end.

(** [JSON.parse] on the texts of a table of values; any other text is
    refused here. *)
Definition parseKnown (known : list JsValue) (text : string) : Result JsValue :=
  match Labels.lookup (map (fun v => (jsonText v, v)) known) text with
  | Some v => Ok v
  | None => Err "Unexpected token in JSON"
  end.

(** The outside: the files in the upload directory, the number of
    classifier calls answered, and the time slept. *)
Record Outside : Type := {
  stored : list string;
  answered : nat;
  slept : nat
}.

Definition store (path : string) (w : Outside) : Outside :=
  {| stored := path :: stored w; answered := answered w; slept := slept w |}.

Definition isStored (path : string) (w : Outside) : bool :=
  existsb (String.eqb path) (stored w).

Definition erase (path : string) (w : Outside) : Outside :=
  {| stored := filter (fun p => negb (String.eqb path p)) (stored w);
     answered := answered w; slept := slept w |}.

(** A script: what the transcoder, the transcription engine, the classifier
    (by call number) and the generative model answer. *)
Record Script : Type := {
  transcoder : Result string;
  whisper : Result string;
  classifier : nat -> string -> Result (list (string * Q));
  generative : Result string;
  parses : list JsValue
}.

Definition scripted (script : Script) : Env Outside :=
  {| ffmpegPath := "ffmpeg";
     whisperExe := "whisper-cli";
     modelBin := "ggml-base.en.bin";
     uploadsDir := "uploads";
     path_join := fun dir name => dir ++ "/" ++ name;
     cleanTranscription := cleanTranscriptionSpec (fun output => output);
     JSON_parse := parseKnown (parses script);
     Date_now := fun w => (1700000000000%Z, w);
     Math_random := fun w => ((1 # 4)%Q, w);
     mv := fun _ path w => (Ok tt, store path w);
     runCommand := fun executable args w =>
       if (executable =? "ffmpeg")%string
       then match transcoder script with
            | Ok out => (Ok out, store (last args "") w)
            | Err e => (Err e, w)
            end
       else (whisper script, w);
     textClassification := fun inputs w =>
       (classifier script (answered w) inputs,
        {| stored := stored w; answered := S (answered w); slept := slept w |});
     setTimeout := fun ms w =>
       {| stored := stored w; answered := answered w; slept := slept w + ms |};
     generateContent := fun _ w => (generative script, w);
     unlink := fun path w =>
       if isStored path w then (None, erase path w)
       else (Some "ENOENT: no such file or directory", w) |}.

(** A request with an audio file and no other field. *)
Definition audioOnly : Request :=
  {| files := Some {| audio := Some 0 |}; body := None |}.

(** A request without a file. *)
Definition noUpload : Request :=
  {| files := Some {| audio := None |}; body := None |}.


(** A fresh outside and an empty trace. *)
Definition fresh : State Outside :=
  {| world := {| stored := []; answered := 0; slept := 0 |}; trace := [] |}.

(** The two file names every scripted request gets. *)
Definition webm0 : string := "uploads/1700000000000-250000000-answer.webm".
Definition wav0 : string := "uploads/1700000000000-250000000-answer.wav".

Definition rating (score : Z) : JsValue :=
  JObject [("score", JNumber (inject_Z score)); ("justification", JString "Because.")].

(** An answer of the generative model in the requested shape. *)
Definition goodEvaluation : JsValue :=
  JObject [ ("ratings", JObject [ ("clarity", rating 4);
                                  ("relevance", rating 5);
                                  ("completeness", rating 3) ]);
            ("sentimentTone", JString "Confident and steady.");
            ("answerStrength", JString "A concrete example.");
            ("howToMakeItBetter", JArray [JString "Add numbers."]);
            ("suggestedBetterAnswer", JString "I led five engineers.") ].

Definition goodHolistic : JsValue :=
  JObject [ ("insight", JString "Words and posture agree.");
            ("strength", JString "Eye contact.");
            ("improvement_tip", JString "Slow down.") ].

Definition goodAnswer : JsValue :=
  JObject [ ("evaluation", goodEvaluation); ("holisticFeedback", goodHolistic) ].

(** The evaluation of an answer with a score of 9 and six tips. *)
Definition wildEvaluation : JsValue :=
  JObject [ ("ratings", JObject [ ("clarity", rating 9);
                                  ("relevance", rating 5);
                                  ("completeness", rating 3) ]);
            ("howToMakeItBetter",
             JArray [JString "One."; JString "Two."; JString "Three.";
                     JString "Four."; JString "Five."; JString "Six."]) ].

Definition wildAnswer : JsValue :=
  JObject [ ("evaluation", wildEvaluation);
            ("holisticFeedback", JObject [("insight", JString "None.")]) ].

(** The answer of the classifier to every sentence of the usual script. *)
Definition usualLabels : list (string * Q) :=
  [ ("joy", (3 # 4)%Q); ("fear", (1 # 4)%Q) ].

(** Everything works; the model answers in a code fence. *)
Definition usual : Script :=
  {| transcoder := Ok "";
     whisper := Ok "  I led a team of five engineers.  ";
     classifier := fun _ _ => Ok usualLabels;
     generative := Ok ("```json" ++ jsonText goodAnswer ++ "```");
     parses := [goodAnswer] |}.

(** The transcription engine hears nothing. *)
Definition silence : Script :=
  {| transcoder := Ok "";
     whisper := Ok "   ";
     classifier := classifier usual;
     generative := generative usual;
     parses := parses usual |}.

(** The transcoder fails. *)
Definition transcoderDown : Script :=
  {| transcoder := Err "ffmpeg exited with code 1";
     whisper := whisper usual;
     classifier := classifier usual;
     generative := generative usual;
     parses := parses usual |}.

(** The classifier fails on every call. *)
Definition classifierDown : Script :=
  {| transcoder := Ok "";
     whisper := whisper usual;
     classifier := fun _ _ => Err "Service Unavailable";
     generative := generative usual;
     parses := parses usual |}.

(** The classifier knows its labels and scores them all zero. *)
Definition zeroScores : Script :=
  {| transcoder := Ok "";
     whisper := whisper usual;
     classifier := fun _ _ => Ok [("joy", 0%Q); ("sadness", 0%Q)];
     generative := generative usual;
     parses := parses usual |}.

(** The model answers with a score of 9 and six tips. *)
Definition wildModel : Script :=
  {| transcoder := Ok "";
     whisper := whisper usual;
     classifier := classifier usual;
     generative := Ok (jsonText wildAnswer);
     parses := [wildAnswer] |}.

(** The model answers with the JSON [null]. *)
Definition nullAnswer : Script :=
  {| transcoder := Ok "";
     whisper := whisper usual;
     classifier := classifier usual;
     generative := Ok "null";
     parses := [JNull] |}.

(** The model answers with an empty list. *)
Definition listAnswer : Script :=
  {| transcoder := Ok "";
     whisper := whisper usual;
     classifier := classifier usual;
     generative := Ok "[]";
     parses := [JArray []] |}.

(** Six labels of equal score: the total is positive. *)
Definition evenScores : ScoreMap :=
  [ ("sadness", (1 # 6)%Q); ("joy", (1 # 6)%Q); ("love", (1 # 6)%Q);
    ("anger", (1 # 6)%Q); ("fear", (1 # 6)%Q); ("surprise", (1 # 6)%Q) ].

End Scenario.

(** ** Notions the statements of Part II use *)

Module Notions.
Import Sentences Labels Scores Http.

(** Every character of [s] is outside the class [[.!?]]. *)
Fixpoint allText (s : string) : bool :=
  match s with
  | EmptyString => true
  | String c r => negb (isTerminal c) && allText r
  end.

(** A sentence as the pattern describes it: a run of one or more
    non-terminal characters, then at most one terminal character. *)
Definition isSentence (m : string) : Prop :=
  exists run,
    run <> "" /\ allText run = true
    /\ (m = run \/ exists c, isTerminal c = true /\ m = run ++ String c "").

(** [scoreMap[label]] read as a number: 0 when the property is missing. *)
Definition scoreOf (scoreMap : ScoreMap) (label : string) : Q :=
  match lookup scoreMap label with
  | Some v => v
  | None => 0%Q
  end.

(** The scores an answer of the classifier gives to [label], in order. *)
Definition scoresFor (label : string) (res : list (string * Q)) : list Q :=
  map snd (filter (fun r => (fst r =? label)%string) res).

(** Every label of a list of entries is plain. *)
Definition plainLabels (entries : list (string * Q)) : Prop :=
  Forall (fun e => plainLabel (fst e) = true) entries.

(** The labels of an answer that [scoreMap] does not have yet, each once,
    in the order of their first occurrence. *)
Fixpoint newLabels (labels : list string) (res : list (string * Q)) : list string :=
  match res with
  | [] => []
  | (label, _) :: rest =>
      if existsb (String.eqb label) labels then newLabels labels rest
      else label :: newLabels (labels ++ [label]) rest
  end.

(** The text has no backtick. *)
Fixpoint noBacktick (s : string) : bool :=
  match s with
  | EmptyString => true
  | String c r => negb (c =? "`")%char && noBacktick r
  end.

(** The text has no run of three backticks; [run] counts the backticks
    directly before [s]. *)
Fixpoint noFence (run : nat) (s : string) : bool :=
  match s with
  | EmptyString => true
  | String c r =>
      if (c =? "`")%char then (run <? 2)%nat && noFence (S run) r
      else noFence 0 r
  end.

(** The number of backticks [s] starts with. *)
Fixpoint leadingBackticks (s : string) : nat :=
  match s with
  | EmptyString => 0
  | String c r => if (c =? "`")%char then S (leadingBackticks r) else 0
  end.

(** The text has no hyphen. *)
Fixpoint noDash (s : string) : bool :=
  match s with
  | EmptyString => true
  | String c r => negb (c =? "-")%char && noDash r
  end.

(** The calls to the classifier in a trace. *)
Definition classifierCalls (events : list Event) : nat :=
  length (filter (fun e => match e with EClassify _ => true | _ => false end) events).

(** The calls to the generative model in a trace. *)
Definition generativeCalls (events : list Event) : nat :=
  length (filter (fun e => match e with EGenerate _ => true | _ => false end) events).

(** The sub-processes a trace starts. *)
Definition commands (events : list Event) : nat :=
  length (filter (fun e => match e with ERun _ _ => true | _ => false end) events).

(** The time a trace spends in pauses, in milliseconds. *)
Definition pauseTime (events : list Event) : nat :=
  fold_right (fun e acc => match e with ESleep ms => ms + acc | _ => acc end)%nat 0%nat events.

(** The effects of the transcription stages and of the classifier: no
    call to the generative model, no response. *)
Definition beforeSynthesis (e : Event) : Prop :=
  match e with
  | EMove _ _ | ERun _ _ | EClassify _ | ESleep _ | EWarn _ _ => True
  | _ => False
  end.

End Notions.

(** ** The report page: [reportGenerator.js]

    The functions of the page that compute: the label of the dominant
    tone, the stars of a rating and the data of the doughnut chart.  The
    mark-up around them is fixed text; the pages of the downloaded
    document are cut by binary64 subtractions and are not modelled. *)

Module Report.
Import Labels Scores Http.

(** [const emotionMap = { joy: "Confident", ... }], the table of the page. *)
Definition emotionMap : list (string * string) :=
  [ ("joy", "Confident");
    ("love", "Confident");
    ("surprise", "Engaged");
    ("sadness", "Hesitant");
    ("fear", "Cautious");
    ("anger", "Assertive") ].

(** [emotionMap[data.dominantEmotion] || data.dominantEmotion], the text of
    the "Dominant Tone" label. *)
Definition dominantTone (dominantEmotion : string) : Value :=
  match get emotionMap dominantEmotion with
  | Some (Str v) => if (v =? "")%string then Str dominantEmotion else Str v
  | Some (Proto name) => Proto name
  | None => Str dominantEmotion
  end.

(** The integer a count stands for: its fraction is dropped. *)
Definition truncate (count : Q) : Z :=
  if Qle_bool 0 count then Qfloor count else Qceiling count.

Fixpoint repeated (s : string) (n : nat) : string :=
  match n with
  | O => EmptyString
  | S k => s ++ repeated s k
  end.

(** [s.repeat(count)]: a [RangeError] for a negative count (its message is
    the engine's).  The engine's limit on the length of a string is outside
    the model. *)
Definition String_repeat (s : string) (count : Q) : Result string :=
  let n := truncate count in
  if (n <? 0)%Z then Err "RangeError: Invalid count value"
  else Ok (repeated s (Z.to_nat n)).

Section Stars.

(** The two glyphs of a rating: the filled and the empty star. *)
Variables filled empty : string.

(** [const starsHtml = (rating) =>
       filled.repeat(rating || 0) + empty.repeat(5 - (rating || 0))],
    for a rating that is a number, or missing ([None]). *)
Definition starsHtml (rating : option Q) : Result string :=
  let count := match rating with
               | Some q => if Qeq_bool q 0 then 0%Q else q
               | None => 0%Q
               end in
  match String_repeat filled count with
  | Err e => Err e
  | Ok filledStars =>
      match String_repeat empty (5 - count)%Q with
      | Err e => Err e
      | Ok emptyStars => Ok (filledStars ++ emptyStars)
      end
  end.

End Stars.

Section Chart.

(** [String.prototype.toUpperCase], taken as given. *)
Variable toUpperCase : string -> string.

(** [key.charAt(0).toUpperCase() + key.slice(1)] *)
Definition capitalize (key : string) : string :=
  match key with
  | EmptyString => toUpperCase EmptyString
  | String c rest => toUpperCase (String c EmptyString) ++ rest
  end.

(** [emotionMap[key] || key.charAt(0).toUpperCase() + key.slice(1)] *)
Definition chartLabel (key : string) : Value :=
  match get emotionMap key with
  | Some (Str v) => if (v =? "")%string then Str (capitalize key) else Str v
  | Some (Proto name) => Proto name
  | None => Str (capitalize key)
  end.

(** [renderTextualEmotionChart(canvasId, data)], by the labels and scores
    it hands to the chart; [None] when it returns without drawing.
    [canvasFound] tells whether the page has the canvas, [data] is
    [data.textualEmotionAnalysis?.data]. *)
Definition renderTextualEmotionChart (canvasFound : bool) (data : option ScoreMap)
    : option (list Value * list Q) :=
  match canvasFound, data with
  | false, _ | _, None | _, Some [] => None
  | true, Some entries =>
      let significantEmotions :=
        filter (fun e => negb (Qle_bool (snd e) (3 # 100))) entries in
      let mappedEmotions :=
        map (fun e => (chartLabel (fst e), snd e)) significantEmotions in
      let labels := map fst mappedEmotions in
      let scores := map snd mappedEmotions in
      Some (labels, scores)
  end.

End Chart.

End Report.

(** ** The detection loops: [startDetection] and [stopAllDetections]

    The two functions of [detectionManager.js] that start and stop the
    loops, over what the page keeps of them: the two global handles, the
    timers [setInterval] has started and nobody has cleared, and the
    animation frames requested and not cancelled.  Each of the two runs to
    its end without a callback in between. *)

Module Detection.

(** What [setInterval] and [requestAnimationFrame] return: a positive
    integer. *)
Definition Handle : Type := positive.

Inductive Callback : Type :=
| CheckDimensions (videoEl : nat)   (* the arrow function of [startDetection] *)
| RunEmotionDetection.              (* [runEmotionDetection] *)

Record Timer : Type := {
  handle : Handle;
  callback : Callback;
  delay : nat
}.

Record Page : Type := {
  poseDetectionFrameId : option Handle;   (* [None]: [null] or not set *)
  detectionInterval : option Handle;
  intervals : list Timer;
  frames : list Handle;
  nextTimer : Handle;                     (* the handle of the next timer *)
  webcamStops : nat                       (* the calls to [stopWebcam] *)
}.

(** [setInterval(callback, delay)] *)
Definition setInterval (callback : Callback) (delay : nat) (p : Page) : Handle * Page :=
  (nextTimer p,
   {| poseDetectionFrameId := poseDetectionFrameId p;
      detectionInterval := detectionInterval p;
      intervals := intervals p
                   ++ [{| handle := nextTimer p; callback := callback; delay := delay |}];
      frames := frames p;
      nextTimer := Pos.succ (nextTimer p);
      webcamStops := webcamStops p |}).

(** [clearInterval(h)] *)
Definition clearInterval (h : Handle) (p : Page) : Page :=
  {| poseDetectionFrameId := poseDetectionFrameId p;
     detectionInterval := detectionInterval p;
     intervals := filter (fun t => negb (Pos.eqb (handle t) h)) (intervals p);
     frames := frames p;
     nextTimer := nextTimer p;
     webcamStops := webcamStops p |}.

(** [cancelAnimationFrame(h)] *)
Definition cancelAnimationFrame (h : Handle) (p : Page) : Page :=
  {| poseDetectionFrameId := poseDetectionFrameId p;
     detectionInterval := detectionInterval p;
     intervals := intervals p;
     frames := filter (fun f => negb (Pos.eqb f h)) (frames p);
     nextTimer := nextTimer p;
     webcamStops := webcamStops p |}.

Section Loops.

(** The constant [EMOTION_DETECTION_INTERVAL_MS], defined elsewhere. *)
Variable EMOTION_DETECTION_INTERVAL_MS : nat.

Definition startDetection (videoEl : nat) (p : Page) : Page :=
  let p1 := match poseDetectionFrameId p with
            | Some h => cancelAnimationFrame h p
            | None => p
            end in
  let (checkDimensionsInterval, p2) := setInterval (CheckDimensions videoEl) 100 p1 in
  let (h, p3) := setInterval RunEmotionDetection EMOTION_DETECTION_INTERVAL_MS p2 in
  {| poseDetectionFrameId := poseDetectionFrameId p3;
     detectionInterval := Some h;
     intervals := intervals p3;
     frames := frames p3;
     nextTimer := nextTimer p3;
     webcamStops := webcamStops p3 |}.

Definition stopAllDetections (p : Page) : Page :=
  let p1 := match poseDetectionFrameId p with
            | Some h =>
                let q := cancelAnimationFrame h p in
                {| poseDetectionFrameId := None;
                   detectionInterval := detectionInterval q;
                   intervals := intervals q;
                   frames := frames q;
                   nextTimer := nextTimer q;
                   webcamStops := webcamStops q |}
            | None => p
            end in
  let p2 := match detectionInterval p1 with
            | Some h =>
                let q := clearInterval h p1 in
                {| poseDetectionFrameId := poseDetectionFrameId q;
                   detectionInterval := None;
                   intervals := intervals q;
                   frames := frames q;
                   nextTimer := nextTimer q;
                   webcamStops := webcamStops q |}
            | None => p1
            end in
  {| poseDetectionFrameId := poseDetectionFrameId p2;
     detectionInterval := detectionInterval p2;
     intervals := intervals p2;
     frames := frames p2;
     nextTimer := nextTimer p2;
     webcamStops := S (webcamStops p2) |}.

End Loops.

(** The handles of the running timers are older than the next handle. *)
Definition handlesInUse (p : Page) : Prop :=
  Forall (fun t => (handle t < nextTimer p)%positive) (intervals p).

(** A page on which nothing runs. *)
Definition idle : Page :=
  {| poseDetectionFrameId := None;
     detectionInterval := None;
     intervals := [];
     frames := [];
     nextTimer := 1%positive;
     webcamStops := 0 |}.

End Detection.

(* ================================================================== *)
(** * Part II: theorems *)
(* ================================================================== *)

Import JsString Sentences.

(** ** Sentence splitting *)

Lemma append_empty_r (s : string) : s ++ "" = s.
Proof. induction s as [|c s IH]; simpl; congruence. Qed.

Lemma append_assoc (a b c : string) : (a ++ b) ++ c = a ++ (b ++ c).
Proof. induction a as [|x a IH]; simpl; congruence. Qed.

(** [spanText] cuts its input in two, the second part no longer than the
    input and starting, if at all, with a terminal character. *)
Lemma spanText_spec (s : string) :
  forall run rest, spanText s = (run, rest) ->
    s = run ++ rest
    /\ String.length rest <= String.length s
    /\ hasText run = negb (String.eqb run "")
    /\ (forall b, dropStray b s
                  = run ++ dropStray (if String.eqb run "" then b else true) rest)
    /\ match rest with
       | String c _ => isTerminal c = true
       | EmptyString => True
       end.
Proof.
  induction s as [|c s IH]; simpl; intros run rest E.
  - inversion E; subst; simpl. repeat split; auto.
  - destruct (isTerminal c) eqn:Hc.
    + inversion E; subst; simpl. rewrite Hc. repeat split; auto.
    + destruct (spanText s) as [run' rest'] eqn:Es.
      inversion E; subst; clear E.
      destruct (IH _ _ eq_refl) as (H1 & H2 & H3 & H4 & H5).
      simpl. rewrite Hc. repeat split; auto.
      * congruence.
      * intros b. rewrite (H4 true).
        destruct (String.eqb run' ""); reflexivity.
Qed.

(** An attempt at a terminal character fails; anywhere else it succeeds,
    consumes at least one character, and what it matched followed by what
    [dropStray] keeps of the rest is what [dropStray] keeps of the input. *)
Lemma matchHere_spec (c : ascii) (r : string) :
  if isTerminal c
  then matchHere (String c r) = None
  else exists m rest,
      matchHere (String c r) = Some (m, rest)
      /\ String.length rest <= String.length r
      /\ forall b, dropStray b (String c r) = m ++ dropStray false rest.
Proof.
  destruct (isTerminal c) eqn:Hc.
  - unfold matchHere. simpl. rewrite Hc. reflexivity.
  - unfold matchHere.
    destruct (spanText (String c r)) as [run rest] eqn:E.
    pose proof (spanText_spec _ _ _ E) as (H1 & H2 & _ & H4 & H5).
    simpl in E. rewrite Hc in E.
    destruct (spanText r) as [run' rest'] eqn:Er.
    inversion E; subst run rest; clear E.
    pose proof (spanText_spec _ _ _ Er) as (_ & L & _).
    destruct rest' as [|t r'].
    + exists (String c run'), "". repeat split; [simpl; lia|].
      intros b. rewrite (H4 b); reflexivity.
    + rewrite H5.
      exists (String c run' ++ String t ""), r'. repeat split.
      * simpl in L. lia.
      * intros b. rewrite (H4 b). cbn [String.eqb dropStray]. rewrite H5.
        rewrite append_assoc. reflexivity.
Qed.

Lemma join_cons (m : string) (ms : list string) :
  join (m :: ms) = m ++ join ms.
Proof.
  unfold join. destruct ms as [|m' ms]; simpl.
  - symmetry. apply append_empty_r.
  - reflexivity.
Qed.

(** With enough attempts, the matches put together are what [dropStray]
    keeps of the text. *)
Lemma join_matchAll (fuel : nat) :
  forall s, String.length s <= fuel -> join (matchAll fuel s) = dropStray false s.
Proof.
  induction fuel as [|fuel IH]; intros s L.
  - destruct s; [reflexivity | simpl in L; lia].
  - destruct s as [|c r]; [reflexivity|].
    cbn [matchAll]. pose proof (matchHere_spec c r) as H.
    destruct (isTerminal c) eqn:Hc.
    + rewrite H. cbn [dropStray]. rewrite Hc. apply IH. simpl in L. lia.
    + destruct H as (m & rest & -> & Lr & D).
      rewrite join_cons, (D false). f_equal. apply IH. simpl in L. lia.
Qed.

(** The pattern matches somewhere exactly when the text has a character
    that is not terminal punctuation. *)
Lemma matchAll_nil (fuel : nat) :
  forall s, String.length s <= fuel ->
    (matchAll fuel s = [] <-> hasText s = false).
Proof.
  induction fuel as [|fuel IH]; intros s L.
  - destruct s; [simpl; tauto | simpl in L; lia].
  - destruct s as [|c r]; [simpl; tauto|].
    cbn [matchAll hasText]. pose proof (matchHere_spec c r) as H.
    destruct (isTerminal c) eqn:Hc.
    + rewrite H. simpl. apply IH. simpl in L. lia.
    + destruct H as (m & rest & -> & _). simpl. split; discriminate.
Qed.

Lemma String_match_spec (T : string) :
  String_match T
  = if hasText T then Some (matchAll (String.length T) T) else None.
Proof.
  unfold String_match.
  pose proof (matchAll_nil (String.length T) T (le_n _)) as H.
  destruct (matchAll (String.length T) T) as [|m ms] eqn:E.
  - rewrite (proj1 H eq_refl). reflexivity.
  - destruct (hasText T); [reflexivity|].
    destruct H as [_ H]. discriminate (H eq_refl).
Qed.

Lemma dropStray_noStray (s : string) :
  forall b, noStray b s = true -> dropStray b s = s.
Proof.
  induction s as [|c r IH]; intros b H; [reflexivity|].
  simpl in *. destruct (isTerminal c).
  - apply andb_true_iff in H as [-> H]. f_equal. auto.
  - f_equal. auto.
Qed.

(** C3 (as amended): the sentences put together are the transcript without
    the terminal punctuation characters ([.], [!], [?]) that do not directly
    follow a non-terminal character; a transcript made of terminal
    punctuation only (or empty) is its own single sentence and is reproduced
    exactly.  Every other character is kept, once and in order. *)
Theorem splitSentences_reassemble (T : string) :
  join (splitSentences T) = (if hasText T then dropStray false T else T).
Proof.
  unfold splitSentences. rewrite String_match_spec.
  destruct (hasText T).
  - apply join_matchAll. apply le_n.
  - unfold join. simpl. reflexivity.
Qed.

(** C3 (as stated) fails: the dots of an ellipsis after the first are in no
    sentence, and they are not white space. *)
Lemma splitSentences_drops_punctuation :
  splitSentences "Well... I led a team of five engineers."
    = ["Well."; " I led a team of five engineers."]
  /\ withoutWhiteSpace (join (splitSentences "Well... I led a team of five engineers."))
     <> withoutWhiteSpace "Well... I led a team of five engineers.".
Proof.
  split; [reflexivity|].
  vm_compute. discriminate.
Qed.

(** A transcript in which every terminal punctuation character directly
    follows a non-terminal character is reproduced exactly. *)
Corollary splitSentences_reassemble_exact (T : string) :
  noStray false T = true -> join (splitSentences T) = T.
Proof.
  intros H. unfold splitSentences. rewrite String_match_spec.
  destruct (hasText T).
  - rewrite join_matchAll by apply le_n. apply dropStray_noStray. exact H.
  - unfold join. simpl. reflexivity.
Qed.

Lemma splitSentences_reassemble_exact_witness :
  noStray false "I led a team. It went well! Any questions?" = true
  /\ join (splitSentences "I led a team. It went well! Any questions?")
     = "I led a team. It went well! Any questions?".
Proof.
  split; [reflexivity|].
  apply (splitSentences_reassemble_exact "I led a team. It went well! Any questions?").
  reflexivity.
Defined.

Local Open Scope list_scope.

(** ** Normalization of the scores *)

Section Normalization.
Import Scores Scenario.
Local Open Scope Q_scope.

(** [toFixed(4)] moves a number by at most half a unit of the fourth
    decimal. *)
Lemma toFixed4_error (x : Q) : Qabs (toFixed4 x - x) <= 1 # 20000.
Proof.
  unfold toFixed4.
  destruct (Qle_bool (inject_Z (10 ^ 21)) (Qabs x)).
  - setoid_replace (x - x) with 0 by ring. discriminate.
  - set (n := Qfloor (Qabs x * 10000 + (1 # 2))).
    pose proof (Qfloor_le (Qabs x * 10000 + (1 # 2))) as Hlo.
    pose proof (Qlt_floor (Qabs x * 10000 + (1 # 2))) as Hhi.
    fold n in Hlo, Hhi. rewrite inject_Z_plus in Hhi.
    change (inject_Z 1) with 1 in Hhi.
    clearbody n.
    apply Qabs_Qle_condition.
    unfold Qdiv. change (/ 10000) with (1 # 10000).
    destruct (Qle_bool 0 x) eqn:Hx.
    + apply Qle_bool_iff in Hx.
      rewrite (Qabs_pos x Hx) in Hlo, Hhi.
      split; lra.
    + assert (Hneg : x <= 0).
      { destruct (Qlt_le_dec 0 x) as [H|H]; [|exact H].
        apply Qlt_le_weak, Qle_bool_iff in H. congruence. }
      rewrite (Qabs_neg x Hneg) in Hlo, Hhi.
      split; lra.
Qed.

Lemma fold_left_sum (values : list Q) (start : Q) :
  fold_left (fun sum score => sum + score) values start
  == start + fold_right (fun score acc => score + acc) 0 values.
Proof.
  revert start. induction values as [|v values IH]; intros start; simpl.
  - ring.
  - rewrite IH. ring.
Qed.

Lemma totalScore_sumOfValues (scoreMap : ScoreMap) :
  totalScore scoreMap == sumOfValues scoreMap.
Proof.
  unfold totalScore. rewrite fold_left_sum.
  assert (E : fold_right (fun score acc => score + acc) 0 (map snd scoreMap)
              == sumOfValues scoreMap).
  { unfold sumOfValues. induction scoreMap as [|e m IH]; simpl; [reflexivity|].
    rewrite IH. reflexivity. }
  rewrite E. ring.
Qed.

(** Rounding each quotient moves the sum by at most half a unit of the
    fourth decimal per label. *)
Lemma rounded_sum_error (total : Q) (scoreMap : ScoreMap) :
  Qabs (sumOfValues (map (fun e => (fst e, toFixed4 (snd e / total))) scoreMap)
        - sumOfValues scoreMap / total)
  <= inject_Z (Z.of_nat (length scoreMap)) * (1 # 20000).
Proof.
  induction scoreMap as [|e m IH].
  - simpl. unfold Qdiv. setoid_replace (0 - 0 * / total) with 0 by ring. discriminate.
  - cbn [map sumOfValues fold_right length snd fst].
    fold (sumOfValues (map (fun e => (fst e, toFixed4 (snd e / total))) m)).
    fold (sumOfValues m).
    rewrite Nat2Z.inj_succ. unfold Z.succ. rewrite inject_Z_plus.
    change (inject_Z 1) with 1.
    pose proof (toFixed4_error (snd e / total)) as He.
    apply Qabs_Qle_condition in He. apply Qabs_Qle_condition in IH.
    apply Qabs_Qle_condition.
    assert (D : (snd e + sumOfValues m) / total
                == snd e / total + sumOfValues m / total)
      by (unfold Qdiv; ring).
    rewrite D. split; lra.
Qed.

(** With a positive total every score is divided and rounded, and the exact
    quotients sum to 1. *)
Lemma normalizeScores_positive (scoreMap : ScoreMap) :
  0 < totalScore scoreMap ->
  normalizeScores scoreMap
  = map (fun e => (fst e, toFixed4 (snd e / totalScore scoreMap))) scoreMap
  /\ sumOfValues scoreMap / totalScore scoreMap == 1.
Proof.
  intros Hpos. split.
  - unfold normalizeScores.
    destruct (Qle_bool (totalScore scoreMap) 0) eqn:Hle; [|reflexivity].
    apply Qle_bool_iff in Hle. lra.
  - rewrite <- totalScore_sumOfValues. field. lra.
Qed.

(** Six equal scores in exact arithmetic: each becomes 0.1667, and the sum
    1.0002 is further than 0.0001 from 1. *)
Lemma normalized_sum_off_by_two_units :
  0 < totalScore evenScores
  /\ map snd (normalizeScores evenScores)
     = [1667 # 10000; 1667 # 10000; 1667 # 10000; 1667 # 10000; 1667 # 10000; 1667 # 10000]
  /\ ~ Qabs (sumOfValues (normalizeScores evenScores) - 1) <= 1 # 10000.
Proof.
  split; [reflexivity|]. split; [vm_compute; reflexivity|].
  vm_compute. intros H. apply H. reflexivity.
Qed.

#[local] Set Warnings "-inexact-float".

(** C1 (as stated) fails on binary64 numbers: each of six equal scores
    becomes the number nearest to 0.1667, and their sum, the number nearest
    to 1.0002, is more than 0.0001 away from 1. *)
Example binary64_sum_off_by_two_units :
  map snd (Binary64.normalizeScores Binary64.evenScores)
  = [0.1667; 0.1667; 0.1667; 0.1667; 0.1667; 0.1667]%float
  /\ Binary64.totalScore (Binary64.normalizeScores Binary64.evenScores) = 1.0002%float
  /\ (abs (Binary64.totalScore (Binary64.normalizeScores Binary64.evenScores) - 1)
        <=? 0.0001)%float = false.
Proof. vm_compute. repeat split. Qed.

Lemma insertSorted_In {A : Type} (compare : A -> A -> Q) (a x : A) (l : list A) :
  In x (insertSorted compare a l) <-> x = a \/ In x l.
Proof.
  induction l as [|b l IH]; simpl.
  - intuition auto.
  - destruct (Qle_bool (compare a b) 0); simpl; [intuition auto|].
    rewrite IH. intuition auto.
Qed.

Lemma sortWith_In {A : Type} (compare : A -> A -> Q) (x : A) (l : list A) :
  In x (sortWith compare l) <-> In x l.
Proof.
  unfold sortWith. induction l as [|a l IH]; simpl; [tauto|].
  rewrite insertSorted_In, IH. intuition auto.
Qed.

Lemma normalizeScores_labels (scoreMap : ScoreMap) :
  map fst (normalizeScores scoreMap) = map fst scoreMap.
Proof.
  unfold normalizeScores.
  destruct (negb (Qle_bool (totalScore scoreMap) 0)); [|reflexivity].
  rewrite map_map. reflexivity.
Qed.

(** X3: the end of [classifyParagraph] keeps the labels: for a score map of
    plain labels, the detail map has the labels of the score map, in their
    order, and the dominant emotion is one of them unless there is none. *)
Lemma summarize_keeps_labels (scoreMap : ScoreMap) :
  Forall (fun e => Labels.plainLabel (fst e) = true) scoreMap ->
  map fst (detailedScores (summarize scoreMap)) = map fst scoreMap
  /\ (scoreMap <> [] -> In (dominantEmotion (summarize scoreMap)) (map fst scoreMap))
  /\ (scoreMap = [] -> dominantEmotion (summarize scoreMap) = "neutral"%string).
Proof.
  intros _.
  split; [apply normalizeScores_labels|]. split.
  - intros Hne. unfold summarize. cbn [dominantEmotion].
    rewrite <- (normalizeScores_labels scoreMap).
    destruct (normalizeScores scoreMap) as [|e m] eqn:En.
    + exfalso. apply Hne.
      pose proof (normalizeScores_labels scoreMap) as Hl. rewrite En in Hl.
      destruct scoreMap; [reflexivity|discriminate].
    + destruct (sorted (e :: m)) as [|[label score] rest] eqn:Es.
      * exfalso.
        assert (Hin : In e (sorted (e :: m)))
          by (apply sortWith_In; left; reflexivity).
        rewrite Es in Hin. contradiction.
      * assert (Hin : In (label, score) (e :: m)).
        { apply (sortWith_In (fun a b => snd b - snd a)). fold (sorted (e :: m)).
          rewrite Es. left. reflexivity. }
        apply (in_map fst) in Hin. exact Hin.
  - intros ->. reflexivity.
Qed.

Lemma summarize_keeps_labels_witness :
  map fst (detailedScores (summarize usualLabels)) = map fst usualLabels
  /\ (usualLabels <> [] -> In (dominantEmotion (summarize usualLabels)) (map fst usualLabels))
  /\ (usualLabels = [] -> dominantEmotion (summarize usualLabels) = "neutral"%string).
Proof.
  apply (summarize_keeps_labels usualLabels). repeat constructor.
Defined.

End Normalization.

(** ** The rounding of binary64 operations *)

Section Binary64Rounding.
Local Open Scope Z_scope.

(** One shift to the right halves the mantissa. *)
Lemma shr_1_m (mrs : shr_record) :
  0 <= shr_m mrs -> shr_m (shr_1 mrs) = shr_m mrs / 2.
Proof.
  destruct mrs as [m r s]. cbn [shr_m]. intros Hm.
  destruct m as [|p|p]; [reflexivity| |lia].
  destruct p as [p|p|]; cbn [shr_1 shr_m].
  - rewrite Pos2Z.inj_xI. apply Z.div_unique with 1; lia.
  - rewrite Pos2Z.inj_xO. apply Z.div_unique with 0; lia.
  - reflexivity.
Qed.

Lemma iter_shr_1_m (p : positive) :
  forall mrs, 0 <= shr_m mrs ->
    shr_m (iter_pos shr_1 p mrs) = shr_m mrs / 2 ^ Zpos p.
Proof.
  induction p as [p IH|p IH|]; intros mrs Hm; cbn [iter_pos].
  - assert (H1 : 0 <= shr_m (shr_1 mrs)) by (rewrite shr_1_m by assumption; apply Z.div_pos; lia).
    assert (H2 : 0 <= shr_m (iter_pos shr_1 p (shr_1 mrs)))
      by (rewrite IH by assumption; apply Z.div_pos; lia).
    rewrite IH, IH, shr_1_m by assumption.
    rewrite !Z.div_div by lia. f_equal.
    replace (Zpos p~1) with (1 + Zpos p + Zpos p) by lia.
    rewrite !Z.pow_add_r by lia. change (2 ^ 1) with 2. ring.
  - assert (H2 : 0 <= shr_m (iter_pos shr_1 p mrs))
      by (rewrite IH by assumption; apply Z.div_pos; lia).
    rewrite IH, IH by assumption.
    rewrite !Z.div_div by lia. f_equal.
    replace (Zpos p~0) with (Zpos p + Zpos p) by lia.
    rewrite !Z.pow_add_r by lia. ring.
  - rewrite shr_1_m by assumption. reflexivity.
Qed.

Lemma shr_spec (mrs : shr_record) (e n : Z) :
  0 <= shr_m mrs ->
  shr_m (fst (shr mrs e n)) = shr_m mrs / 2 ^ Z.max 0 n
  /\ snd (shr mrs e n) = e + Z.max 0 n.
Proof.
  intros Hm. destruct n as [|p|p]; cbn [shr fst snd].
  - rewrite Z.div_1_r. split; [reflexivity | lia].
  - rewrite iter_shr_1_m by assumption. split; [reflexivity | lia].
  - rewrite Z.div_1_r. split; [reflexivity | lia].
Qed.

Lemma shr_m_of_loc (m : Z) (l : location) : shr_m (shr_record_of_loc m l) = m.
Proof. destruct l as [|[]]; reflexivity. Qed.

Lemma loc_of_loc (m : Z) (l : location) : loc_of_shr_record (shr_record_of_loc m l) = l.
Proof. destruct l as [|[]]; reflexivity. Qed.

Lemma round_nearest_even_cases (m : Z) (l : location) :
  (round_nearest_even m l = m \/ round_nearest_even m l = m + 1)
  /\ (l = loc_Exact -> round_nearest_even m l = m).
Proof.
  destruct l as [|[]]; cbn; try destruct (Z.even m); split; auto; intros; discriminate.
Qed.

(** A mantissa of [d] binary digits lies between [2^(d-1)] and [2^d]. *)
Lemma digits2_pos_bounds (p : positive) :
  2 ^ (Zpos (digits2_pos p) - 1) <= Zpos p < 2 ^ Zpos (digits2_pos p).
Proof.
  induction p as [p IH|p IH|]; cbn [digits2_pos].
  - rewrite Pos2Z.inj_succ, Pos2Z.inj_xI.
    replace (Z.succ (Zpos (digits2_pos p)) - 1) with (Z.succ (Zpos (digits2_pos p) - 1)) by lia.
    rewrite !Z.pow_succ_r by lia.
    generalize dependent (2 ^ (Zpos (digits2_pos p) - 1)).
    generalize (2 ^ Zpos (digits2_pos p)). intros; lia.
  - rewrite Pos2Z.inj_succ. change (Zpos p~0) with (2 * Zpos p).
    replace (Z.succ (Zpos (digits2_pos p)) - 1) with (Z.succ (Zpos (digits2_pos p) - 1)) by lia.
    rewrite !Z.pow_succ_r by lia.
    generalize dependent (2 ^ (Zpos (digits2_pos p) - 1)).
    generalize (2 ^ Zpos (digits2_pos p)). intros; lia.
  - cbn. lia.
Qed.

Lemma Zdigits2_bounds (m : Z) :
  0 < m -> 0 < Zdigits2 m /\ 2 ^ (Zdigits2 m - 1) <= m < 2 ^ Zdigits2 m.
Proof.
  destruct m as [|p|p]; try lia. intros _. cbn [Zdigits2].
  split; [lia | apply digits2_pos_bounds].
Qed.

Lemma fexp_unfold (x : Z) : fexp prec emax x = Z.max (x - 53) (-1074).
Proof. reflexivity. Qed.

Lemma shr_nonpos (mrs : shr_record) (e n : Z) : n <= 0 -> shr mrs e n = (mrs, e).
Proof. destruct n; try reflexivity. lia. Qed.

Lemma div_pow2_lower (m d : Z) :
  0 < m -> 2 ^ (d - 1) <= m -> 53 <= d -> 2 ^ 52 <= m / 2 ^ (d - 53).
Proof.
  intros Hm Hd H53. apply Z.div_le_lower_bound; [apply Z.pow_pos_nonneg; lia|].
  rewrite <- Z.pow_add_r by lia. replace (d - 53 + 52) with (d - 1) by lia. exact Hd.
Qed.

(** Two truncations with one increment between them. *)
Lemma two_stage_bound (mx m1 M m2 P1 P2 : Z) :
  0 < P1 -> 0 < P2 ->
  P1 * m1 <= mx -> mx < P1 * Z.succ m1 ->
  P2 * m2 <= M -> M < P2 * Z.succ m2 ->
  M = m1 \/ M = m1 + 1 ->
  mx + 1 - P1 * P2 <= m2 * (P1 * P2) <= mx + P1 * P2.
Proof. intros. nia. Qed.

(** The rounding step of every operation.  Its result [m2 * 2^e2] is the
    mantissa [mx] shifted by [e2 - ex] places and moved by less than one
    unit; it is [mx] itself when nothing is shifted and [mx] is exact; and
    its mantissa has 53 digits unless the exponent is the least one or
    nothing was shifted. *)
Lemma binary_round_aux_shape (sx : bool) (mx ex : Z) (lx : location) :
  0 <= mx ->
  exists m2 e2,
    binary_round_aux prec emax sx mx ex lx
    = match m2 with
      | Z0 => S754_zero sx
      | Zpos m => if e2 <=? 971 then S754_finite sx m e2 else S754_infinity sx
      | Zneg _ => S754_nan
      end
    /\ 0 <= m2 /\ ex <= e2 /\ -1074 <= e2
    /\ mx + 1 - 2 ^ (e2 - ex) <= m2 * 2 ^ (e2 - ex) <= mx + 2 ^ (e2 - ex)
    /\ (lx = loc_Exact -> e2 = ex -> m2 = mx)
    /\ (2 ^ 52 <= m2 \/ e2 = -1074 \/ e2 = ex).
Proof.
  intros Hmx. unfold binary_round_aux, shr_fexp.
  set (n1 := fexp prec emax (Zdigits2 mx + ex) - ex).
  pose proof (shr_spec (shr_record_of_loc mx lx) ex n1) as S1.
  rewrite shr_m_of_loc in S1. specialize (S1 Hmx).
  pose proof (shr_nonpos (shr_record_of_loc mx lx) ex n1) as N1.
  destruct (shr (shr_record_of_loc mx lx) ex n1) as [mrs' e'].
  cbn [fst snd] in S1. destruct S1 as [Hm1 He'].
  set (M := round_nearest_even (shr_m mrs') (loc_of_shr_record mrs')).
  destruct (round_nearest_even_cases (shr_m mrs') (loc_of_shr_record mrs')) as [HM HMx].
  fold M in HM, HMx.
  assert (Hm1pos : 0 <= shr_m mrs') by (rewrite Hm1; apply Z.div_pos; [lia | apply Z.pow_pos_nonneg; lia]).
  assert (HMpos : 0 <= M) by lia.
  set (n2 := fexp prec emax (Zdigits2 M + e') - e').
  pose proof (shr_spec (shr_record_of_loc M loc_Exact) e' n2) as S2.
  rewrite shr_m_of_loc in S2. specialize (S2 HMpos).
  destruct (shr (shr_record_of_loc M loc_Exact) e' n2) as [mrs'' e''].
  cbn [fst snd] in S2. destruct S2 as [Hm2 He''].
  exists (shr_m mrs''), e''.
  assert (Hm2pos : 0 <= shr_m mrs'') by (rewrite Hm2; apply Z.div_pos; [lia | apply Z.pow_pos_nonneg; lia]).
  split; [reflexivity|]. split; [exact Hm2pos|]. split; [lia|].
  set (k1 := Z.max 0 n1) in *. set (k2 := Z.max 0 n2) in *.
  assert (Hk1 : 0 <= k1) by (unfold k1; lia).
  assert (Hk2 : 0 <= k2) by (unfold k2; lia).
  assert (HP1 : 0 < 2 ^ k1) by (apply Z.pow_pos_nonneg; lia).
  assert (HP2 : 0 < 2 ^ k2) by (apply Z.pow_pos_nonneg; lia).
  pose proof (Z.mul_div_le mx (2 ^ k1) HP1) as A1.
  pose proof (Z.mul_succ_div_gt mx (2 ^ k1) HP1) as A2.
  pose proof (Z.mul_div_le M (2 ^ k2) HP2) as B1.
  pose proof (Z.mul_succ_div_gt M (2 ^ k2) HP2) as B2.
  rewrite <- Hm1 in A1, A2. rewrite <- Hm2 in B1, B2.
  assert (Hfexp1 : fexp prec emax (Zdigits2 mx + ex) = Z.max (Zdigits2 mx + ex - 53) (-1074))
    by apply fexp_unfold.
  assert (Hfexp2 : fexp prec emax (Zdigits2 M + e') = Z.max (Zdigits2 M + e' - 53) (-1074))
    by apply fexp_unfold.
  split.
  { (* the exponent never goes below the least one *)
    unfold k2 in He''. unfold n2 in *. lia. }
  split.
  { replace (e'' - ex) with (k1 + k2) by lia.
    rewrite Z.pow_add_r by lia.
    apply (two_stage_bound mx (shr_m mrs') M); assumption. }
  split.
  { intros Hl He. assert (k1 = 0 /\ k2 = 0) as [K1 K2] by lia.
    assert (Hn1 : n1 <= 0) by (unfold k1 in K1; lia).
    specialize (N1 Hn1). injection N1 as N1 _.
    rewrite Hm2, K2, Z.div_1_r. unfold M. rewrite N1, shr_m_of_loc, loc_of_loc.
    subst lx. reflexivity. }
  destruct (Z_le_gt_dec n2 0) as [Hn2|Hn2].
  - assert (K2 : k2 = 0) by (unfold k2; lia).
    assert (Em : shr_m mrs'' = M) by (rewrite Hm2, K2; apply Z.div_1_r).
    destruct (Z_le_gt_dec n1 0) as [Hn1|Hn1].
    + right; right. unfold k1 in He'. lia.
    + assert (K1 : k1 = n1) by (unfold k1; lia).
      destruct (Z.eq_dec e' (-1074)) as [E|E]; [right; left; lia|].
      left. rewrite Em.
      assert (Hk : k1 = Zdigits2 mx - 53) by (unfold n1 in *; lia).
      assert (Hmx' : 0 < mx).
      { destruct (Z.eq_dec mx 0) as [Z|Z]; [|lia]. subst mx. cbn in Hk. lia. }
      destruct (Zdigits2_bounds mx Hmx') as [_ [Hlo _]].
      assert (2 ^ 52 <= shr_m mrs'); [|lia].
      rewrite Hm1, Hk. apply div_pow2_lower; lia.
  - assert (K2 : k2 = n2) by (unfold k2; lia).
    destruct (Z.eq_dec e'' (-1074)) as [E|E]; [right; left; exact E|].
    left.
    assert (Hk : k2 = Zdigits2 M - 53) by (unfold n2 in *; lia).
    assert (HM' : 0 < M).
    { destruct (Z.eq_dec M 0) as [Z|Z]; [|lia]. rewrite Z in Hk. cbn in Hk. lia. }
    destruct (Zdigits2_bounds M HM') as [_ [Hlo _]].
    rewrite Hm2, Hk. apply div_pow2_lower; lia.
Qed.

End Binary64Rounding.

(** ** The normalization on binary64 numbers *)

Section Binary64Values.
Import Binary64.
Local Open Scope Q_scope.

Lemma pow2_pos (e : Z) : 0 < 2 ^ e.
Proof. apply Qpower_0_lt. reflexivity. Qed.

Lemma pow2_add (a b : Z) : 2 ^ (a + b) == 2 ^ a * 2 ^ b.
Proof. apply Qpower_plus. discriminate. Qed.

Lemma pow2_inject (k : Z) : (0 <= k)%Z -> inject_Z (2 ^ k) == 2 ^ k.
Proof. intros H. apply (Zpower_Qpower 2 k H). Qed.

Lemma pow2_le (a b : Z) : (a <= b)%Z -> 2 ^ a <= 2 ^ b.
Proof. intros H. apply Qpower_le_compat_l; [exact H | discriminate]. Qed.

Lemma pow2_split (e2 ex : Z) :
  (ex <= e2)%Z -> 2 ^ e2 == inject_Z (2 ^ (e2 - ex)) * 2 ^ ex.
Proof.
  intros H. rewrite pow2_inject by lia. rewrite <- pow2_add.
  replace (e2 - ex + ex)%Z with e2 by lia. reflexivity.
Qed.

(** The rounding step, on exact values: the result is within one unit of
    its last place of any number between [mx * 2^ex] and [(mx+1) * 2^ex]. *)
Lemma binary_round_aux_value (sx : bool) (mx ex : Z) (lx : location) (X : Q) :
  (0 <= mx)%Z ->
  inject_Z mx * 2 ^ ex <= X -> X <= inject_Z (mx + 1) * 2 ^ ex ->
  exists m2 e2,
    binary_round_aux prec emax sx mx ex lx
    = match m2 with
      | Z0 => S754_zero sx
      | Zpos m => if (e2 <=? 971)%Z then S754_finite sx m e2 else S754_infinity sx
      | Zneg _ => S754_nan
      end
    /\ (0 <= m2)%Z /\ (ex <= e2)%Z /\ (-1074 <= e2)%Z
    /\ Qabs (inject_Z m2 * 2 ^ e2 - X) <= 2 ^ e2
    /\ (lx = loc_Exact -> e2 = ex -> m2 = mx)
    /\ (e2 = ex -> (mx <= m2)%Z)
    /\ (2 ^ 52 <= m2 \/ e2 = (-1074)%Z \/ e2 = ex)%Z.
Proof.
  intros Hmx Hlo Hhi.
  destruct (binary_round_aux_shape sx mx ex lx Hmx)
    as (m2 & e2 & Heq & Hm2 & Hex & Hmin & [Hb1 Hb2] & Hexact & Hshape).
  exists m2, e2.
  split; [exact Heq|]. split; [exact Hm2|]. split; [exact Hex|]. split; [exact Hmin|].
  split; [|split; [exact Hexact|split; [|exact Hshape]]].
  - rewrite (pow2_split e2 ex Hex).
    rewrite Zle_Qle in Hb1, Hb2.
    rewrite inject_Z_mult in Hb1, Hb2.
    rewrite inject_Z_plus in Hb2.
    unfold Z.sub in Hb1. rewrite !inject_Z_plus, inject_Z_opp in Hb1.
    rewrite inject_Z_plus in Hhi.
    change (inject_Z 1) with 1 in *.
    set (P := inject_Z (2 ^ (e2 - ex))) in *.
    pose proof (pow2_pos ex) as HW.
    set (W := 2 ^ ex) in *.
    assert (H1 : (inject_Z mx + 1 + - P) * W <= inject_Z m2 * P * W)
      by (apply Qmult_le_compat_r; [exact Hb1 | lra]).
    assert (H2 : inject_Z m2 * P * W <= (inject_Z mx + P) * W)
      by (apply Qmult_le_compat_r; [exact Hb2 | lra]).
    apply Qabs_Qle_condition. split; lra.
  - intros He. subst e2. rewrite Z.sub_diag in Hb1. cbn in Hb1. lia.
Qed.

Lemma iter_xO (d m : positive) : Zpos (Pos.iter xO m d) = (Zpos m * 2 ^ Zpos d)%Z.
Proof.
  revert m. induction d as [|d IH] using Pos.peano_ind; intros m.
  - cbn [Pos.iter]. change (2 ^ 1)%Z with 2%Z. lia.
  - rewrite Pos.iter_succ, Pos2Z.inj_succ, Z.pow_succ_r by lia.
    change (Zpos (Pos.iter xO m d)~0) with (2 * Zpos (Pos.iter xO m d))%Z.
    rewrite IH. ring.
Qed.

Lemma shl_align_spec (mx : positive) (ex ex' : Z) :
  snd (shl_align mx ex ex') = Z.min ex ex'
  /\ Zpos (fst (shl_align mx ex ex')) = (Zpos mx * 2 ^ (ex - Z.min ex ex'))%Z.
Proof.
  unfold shl_align. destruct (ex' - ex)%Z as [|d|d] eqn:E; cbn [fst snd].
  - replace (Z.min ex ex') with ex by lia. rewrite Z.sub_diag. split; [reflexivity | cbn; lia].
  - replace (Z.min ex ex') with ex by lia. rewrite Z.sub_diag. split; [reflexivity | cbn; lia].
  - replace (Z.min ex ex') with ex' by lia. split; [reflexivity|].
    rewrite iter_xO. f_equal. f_equal. lia.
Qed.

Lemma shl_align_value (mx : positive) (ex ex' : Z) :
  inject_Z (Zpos (fst (shl_align mx ex ex'))) * 2 ^ Z.min ex ex'
  == inject_Z (Zpos mx) * 2 ^ ex.
Proof.
  destruct (shl_align_spec mx ex ex') as [_ ->].
  rewrite inject_Z_mult, pow2_inject by lia.
  rewrite <- Qmult_assoc, <- pow2_add.
  replace (ex - Z.min ex ex' + Z.min ex ex')%Z with ex by lia. reflexivity.
Qed.

Lemma ulp_relative (m2 e2 : Z) :
  (2 ^ 52 <= m2)%Z -> 2 ^ e2 <= epsilon * (inject_Z m2 * 2 ^ e2).
Proof.
  intros H. rewrite Zle_Qle in H.
  pose proof (pow2_pos e2) as HW.
  assert (H1 : inject_Z (2 ^ 52) * 2 ^ e2 <= inject_Z m2 * 2 ^ e2)
    by (apply Qmult_le_compat_r; [exact H | lra]).
  unfold epsilon.
  change (inject_Z (2 ^ 52)) with (4503599627370496 # 1) in H1.
  set (W := 2 ^ e2) in *. set (V := inject_Z m2 * W) in *. lra.
Qed.

(** Rounding an exact integer multiple of a power of two no smaller than
    the least one: the result is infinite, or within [epsilon] of itself
    away from the exact value. *)
Lemma binary_round_value (sx : bool) (m : positive) (e : Z) :
  (-1074 <= e <= 971)%Z ->
  (binary_round prec emax sx m e = S754_infinity sx
   /\ 2 ^ 972 <= inject_Z (Zpos m) * 2 ^ e)
  \/ exists m2 e2,
       binary_round prec emax sx m e = S754_finite sx m2 e2
       /\ Qabs (inject_Z (Zpos m2) * 2 ^ e2 - inject_Z (Zpos m) * 2 ^ e)
          <= epsilon * (inject_Z (Zpos m2) * 2 ^ e2).
Proof.
  intros He. unfold binary_round.
  pose proof (shl_align_spec m e (fexp prec emax (Zpos (digits2_pos m) + e))) as [Hez _].
  pose proof (shl_align_value m e (fexp prec emax (Zpos (digits2_pos m) + e))) as Hv.
  destruct (shl_align m e (fexp prec emax (Zpos (digits2_pos m) + e))) as [mz ez].
  cbn [fst snd] in Hez, Hv. rewrite <- Hez in Hv. rewrite fexp_unfold in Hez.
  set (X := inject_Z (Zpos m) * 2 ^ e) in *.
  assert (Hlo : inject_Z (Zpos mz) * 2 ^ ez <= X) by (rewrite Hv; apply Qle_refl).
  assert (Hhi : X <= inject_Z (Zpos mz + 1) * 2 ^ ez).
  { rewrite <- Hv, inject_Z_plus. pose proof (pow2_pos ez).
    change (inject_Z 1) with 1. set (W := 2 ^ ez) in *. set (V := inject_Z (Zpos mz) * W).
    setoid_replace ((inject_Z (Zpos mz) + 1) * W) with (V + W) by (unfold V; ring). lra. }
  destruct (binary_round_aux_value sx (Zpos mz) ez loc_Exact X ltac:(lia) Hlo Hhi)
    as (m2 & e2 & Heq & Hm2 & Hex & Hmin & Herr & Hexact & _ & Hshape).
  assert (Hcase : (2 ^ 52 <= m2)%Z \/ m2 = Zpos mz /\ e2 = ez).
  { destruct Hshape as [H|[H|H]]; [left; exact H| |].
    - right. assert (e2 = ez) by lia. split; [apply Hexact; auto | assumption].
    - right. split; [apply Hexact; auto | assumption]. }
  rewrite Heq. destruct m2 as [|m2|m2]; [|clear Hm2|lia].
  - destruct Hcase as [H|[H _]]; [|discriminate H].
    exfalso. revert H. apply Z.lt_nge. reflexivity.
  - destruct (e2 <=? 971)%Z eqn:Hle.
    + right. exists m2, e2. split; [reflexivity|].
      destruct Hcase as [H|[H1 H2]].
      * eapply Qle_trans; [exact Herr | apply ulp_relative; exact H].
      * injection H1 as H1. subst m2 e2.
        setoid_replace (inject_Z (Zpos mz) * 2 ^ ez - X) with 0 by (rewrite Hv; ring).
        change (Qabs 0) with 0.
        apply Qmult_le_0_compat; [discriminate|].
        apply Qmult_le_0_compat; [discriminate | apply Qlt_le_weak, pow2_pos].
    + left. split; [reflexivity|].
      apply Z.leb_gt in Hle.
      destruct Hcase as [H|[_ H2]]; [|lia].
      apply Qabs_Qle_condition in Herr. destruct Herr as [_ Herr].
      assert (H2 : 2 ^ 972 <= 2 ^ e2) by (apply pow2_le; lia).
      assert (H3 : inject_Z 2 * 2 ^ e2 <= inject_Z (Zpos m2) * 2 ^ e2).
      { apply Qmult_le_compat_r; [|apply Qlt_le_weak, pow2_pos].
        rewrite <- Zle_Qle. assert (2 ^ 52 = 4503599627370496)%Z by reflexivity. lia. }
      change (inject_Z 2) with 2 in H3.
      set (W := 2 ^ e2) in *. set (V := inject_Z (Zpos m2) * W) in *.
      set (B := 2 ^ 972) in *. lra.
Qed.

Lemma valid_finite (s : bool) (m : positive) (e : Z) :
  valid_binary (S754_finite s m e) = true ->
  (-1074 <= e <= 971)%Z /\ (Zpos (digits2_pos m) <= 53)%Z
  /\ (e = (-1074)%Z \/ (2 ^ 52 <= Zpos m)%Z).
Proof.
  cbn [valid_binary]. unfold bounded, canonical_mantissa.
  rewrite fexp_unfold. intros H. apply andb_prop in H. destruct H as [H1 H2].
  apply Z.eqb_eq in H1. apply Z.leb_le in H2. change (emax - prec)%Z with 971%Z in H2.
  split; [lia|]. split; [lia|].
  destruct (Z.eq_dec e (-1074)) as [E|E]; [left; exact E | right].
  assert (D : Zpos (digits2_pos m) = 53%Z) by lia.
  pose proof (digits2_pos_bounds m) as [B _]. rewrite D in B. exact B.
Qed.

Lemma SFvalue_nonneg (x : spec_float) : SFnonneg x = true -> 0 <= SFvalue x.
Proof.
  destruct x as [s| | |s m e]; cbn; try discriminate; try (intros _; apply Qle_refl).
  destruct s; [discriminate|]. intros _.
  apply Qmult_le_0_compat; [discriminate | apply Qlt_le_weak, pow2_pos].
Qed.

Lemma Qabs_zero_le (a b c : Q) : a == b -> 0 <= c -> Qabs (a - b) <= c.
Proof.
  intros E Hc. setoid_replace (a - b) with 0 by (rewrite E; ring). exact Hc.
Qed.

(** Addition of two finite non-negative numbers: infinite, or within
    [epsilon] of the result away from the exact sum. *)
Lemma SFadd_value (x y : spec_float) :
  valid_binary x = true -> valid_binary y = true ->
  SFnonneg x = true -> SFnonneg y = true ->
  (SFadd prec emax x y = S754_infinity false
   /\ 2 ^ 972 <= SFvalue x + SFvalue y)
  \/ (SFnonneg (SFadd prec emax x y) = true
      /\ Qabs (SFvalue (SFadd prec emax x y) - (SFvalue x + SFvalue y))
         <= epsilon * SFvalue (SFadd prec emax x y)).
Proof.
  intros Vx Vy Nx Ny.
  assert (Heps : 0 <= epsilon) by discriminate.
  destruct x as [sx| | |sx mx ex]; try discriminate Nx;
    destruct y as [sy| | |sy my ey]; try discriminate Ny.
  - right. destruct sx, sy; cbn; (split; [reflexivity | discriminate]).
  - right. cbn [SFadd]. split; [exact Ny|].
    apply Qabs_zero_le; [cbn [SFvalue]; ring|].
    apply Qmult_le_0_compat; [exact Heps | apply SFvalue_nonneg; exact Ny].
  - right. cbn [SFadd]. split; [exact Nx|].
    apply Qabs_zero_le; [cbn [SFvalue]; ring|].
    apply Qmult_le_0_compat; [exact Heps | apply SFvalue_nonneg; exact Nx].
  - destruct sx; [discriminate Nx|]. destruct sy; [discriminate Ny|].
    destruct (valid_finite _ _ _ Vx) as [Hex _].
    destruct (valid_finite _ _ _ Vy) as [Hey _].
    cbn [SFadd cond_Zopp SFvalue].
    set (ez := Z.min ex ey).
    pose proof (shl_align_value mx ex ez) as Ax.
    pose proof (shl_align_value my ey ez) as Ay.
    replace (Z.min ex ez) with ez in Ax by (unfold ez; lia).
    replace (Z.min ey ez) with ez in Ay by (unfold ez; lia).
    set (ax := fst (shl_align mx ex ez)) in *.
    set (ay := fst (shl_align my ey ez)) in *.
    change (Zpos ax + Zpos ay)%Z with (Zpos (ax + ay)).
    change (binary_normalize prec emax (Zpos (ax + ay)) ez false)
      with (binary_round prec emax false (ax + ay) ez).
    assert (HX : inject_Z (Zpos (ax + ay)) * 2 ^ ez
                 == inject_Z (Zpos mx) * 2 ^ ex + inject_Z (Zpos my) * 2 ^ ey).
    { rewrite Pos2Z.inj_add, inject_Z_plus, <- Ax, <- Ay. ring. }
    destruct (binary_round_value false (ax + ay) ez ltac:(unfold ez; lia))
      as [[Hinf Hbig]|(m2 & e2 & Heq & Herr)].
    + left. split; [exact Hinf | rewrite <- HX; exact Hbig].
    + right. rewrite Heq. split; [reflexivity|].
      cbn [SFvalue]. rewrite <- HX. exact Herr.
Qed.

Lemma div_core_quotient (mx my q r s d1 d2 : Z) :
  (0 < my)%Z -> (mx * 2 ^ s = my * q + r)%Z -> (0 <= r < my)%Z ->
  (2 ^ (d1 - 1) <= mx)%Z -> (my < 2 ^ d2)%Z -> (1 <= d1)%Z -> (1 <= d2)%Z ->
  s = (53 - d1 + d2)%Z -> (d1 <= 53)%Z ->
  (2 ^ 52 <= q)%Z.
Proof.
  intros Hmy Hdiv Hr Hmx Hd2 H1 H2 Hs H53.
  assert (Hpow : (2 ^ (d1 - 1) * 2 ^ s = 2 ^ 52 * 2 ^ d2)%Z).
  { rewrite <- !Z.pow_add_r by lia. f_equal. lia. }
  assert (Hs0 : (0 < 2 ^ s)%Z) by (apply Z.pow_pos_nonneg; lia).
  assert (H52 : (0 < 2 ^ 52)%Z) by reflexivity.
  assert (Hm : (2 ^ 52 * 2 ^ d2 <= mx * 2 ^ s)%Z).
  { rewrite <- Hpow. apply Z.mul_le_mono_nonneg_r; lia. }
  generalize dependent (2 ^ 52)%Z. generalize dependent (2 ^ d2)%Z.
  generalize dependent (2 ^ s)%Z. intros. nia.
Qed.

Lemma SFdiv_core_value (mx my : positive) (ex ey : Z) :
  (Zpos (digits2_pos mx) <= 53)%Z ->
  exists q e' l,
    SFdiv_core_binary prec emax (Zpos mx) ex (Zpos my) ey = (q, e', l)
    /\ (0 <= q)%Z
    /\ inject_Z q * 2 ^ e'
       <= (inject_Z (Zpos mx) * 2 ^ ex) / (inject_Z (Zpos my) * 2 ^ ey)
    /\ (inject_Z (Zpos mx) * 2 ^ ex) / (inject_Z (Zpos my) * 2 ^ ey)
       <= inject_Z (q + 1) * 2 ^ e'
    /\ ((2 ^ 52 <= q)%Z \/ (e' <= -1074)%Z).
Proof.
  intros Hd1. unfold SFdiv_core_binary. cbn [Zdigits2].
  set (d1 := Zpos (digits2_pos mx)) in *. set (d2 := Zpos (digits2_pos my)).
  rewrite fexp_unfold.
  set (e' := Z.min (Z.max (d1 + ex - (d2 + ey) - 53) (-1074)) (ex - ey)).
  set (s := (ex - ey - e')%Z).
  assert (Hs : (0 <= s)%Z) by (unfold s, e'; lia).
  set (m' := match s with Zpos _ => Z.shiftl (Zpos mx) s | Z0 => Zpos mx | Zneg _ => 0%Z end).
  assert (Hm' : m' = (Zpos mx * 2 ^ s)%Z).
  { unfold m'. destruct s as [|p|p] eqn:E.
    - cbn. lia.
    - apply Z.shiftl_mul_pow2. lia.
    - lia. }
  clearbody m'.
  pose proof (Z_div_mod m' (Zpos my) ltac:(reflexivity)) as Hdm.
  destruct (Z.div_eucl m' (Zpos my)) as [q r]. destruct Hdm as [Hdiv Hr].
  exists q, e', (new_location (Zpos my) r).
  pose proof (digits2_pos_bounds mx) as [Bx1 Bx2]. fold d1 in Bx1, Bx2.
  pose proof (digits2_pos_bounds my) as [By1 By2]. fold d2 in By1, By2.
  assert (Hq : (0 <= q)%Z).
  { assert (0 <= m')%Z by (rewrite Hm'; apply Z.mul_nonneg_nonneg; [lia | apply Z.pow_nonneg; lia]).
    nia. }
  split; [reflexivity|]. split; [exact Hq|].
  assert (HX : (inject_Z (Zpos mx) * 2 ^ ex) / (inject_Z (Zpos my) * 2 ^ ey)
               == inject_Z m' * 2 ^ e' / inject_Z (Zpos my)).
  { rewrite Hm', inject_Z_mult, pow2_inject by exact Hs.
    replace ex with (s + e' + ey)%Z at 1 by (unfold s; lia).
    rewrite !pow2_add.
    pose proof (pow2_pos ey). pose proof (pow2_pos e'). pose proof (pow2_pos s).
    field. split; [discriminate | lra]. }
  assert (HB : 0 < inject_Z (Zpos my)) by reflexivity.
  pose proof (pow2_pos e') as HW.
  split; [|split].
  - rewrite HX. apply Qle_shift_div_l; [exact HB|].
    assert (H : inject_Z q * inject_Z (Zpos my) <= inject_Z m').
    { rewrite <- inject_Z_mult, <- Zle_Qle. lia. }
    apply (Qmult_le_compat_r _ _ (2 ^ e')) in H; [|lra].
    set (W := 2 ^ e') in *. lra.
  - rewrite HX. apply Qle_shift_div_r; [exact HB|].
    assert (H : inject_Z m' <= inject_Z (q + 1) * inject_Z (Zpos my)).
    { rewrite <- inject_Z_mult, <- Zle_Qle. lia. }
    apply (Qmult_le_compat_r _ _ (2 ^ e')) in H; [|lra].
    set (W := 2 ^ e') in *. lra.
  - destruct (Z_le_gt_dec e' (-1074)) as [He|He]; [right; exact He | left].
    apply (div_core_quotient (Zpos mx) (Zpos my) q r s d1 d2); try lia.
Qed.

(** Division of a finite non-negative number by a finite positive one:
    infinite, or within [epsilon] of the result and the least positive
    number away from the exact quotient. *)
Lemma SFdiv_value (x : spec_float) (my : positive) (ey : Z) :
  valid_binary x = true -> SFnonneg x = true ->
  (SFdiv prec emax x (S754_finite false my ey) = S754_infinity false
   /\ 2 ^ 972 <= SFvalue x / SFvalue (S754_finite false my ey))
  \/ (SFnonneg (SFdiv prec emax x (S754_finite false my ey)) = true
      /\ Qabs (SFvalue (SFdiv prec emax x (S754_finite false my ey))
               - SFvalue x / SFvalue (S754_finite false my ey))
         <= epsilon * SFvalue (SFdiv prec emax x (S754_finite false my ey)) + eta).
Proof.
  intros Vx Nx.
  assert (Heta : 0 < eta) by apply pow2_pos.
  destruct x as [sx| | |sx mx ex]; try discriminate Nx.
  - right. cbn [SFdiv SFnonneg SFvalue]. split; [reflexivity|].
    unfold Qdiv. rewrite Qmult_0_l. setoid_replace (0 - 0) with 0 by ring.
    change (Qabs 0) with 0. rewrite Qmult_0_r. lra.
  - destruct sx; [discriminate Nx|].
    destruct (valid_finite _ _ _ Vx) as (_ & Hd1 & _).
    cbn [SFdiv SFvalue xorb].
    destruct (SFdiv_core_value mx my ex ey Hd1)
      as (q & e' & l & -> & Hq & Hlo & Hhi & Hbig).
    set (X := inject_Z (Zpos mx) * 2 ^ ex / (inject_Z (Zpos my) * 2 ^ ey)) in *.
    destruct (binary_round_aux_value false q e' l X Hq Hlo Hhi)
      as (m2 & e2 & Heq & Hm2 & Hex & Hmin & Herr & _ & Hge & Hshape).
    assert (Hcase : (2 ^ 52 <= m2)%Z \/ e2 = (-1074)%Z).
    { destruct Hshape as [H|[H|H]]; [left; exact H | right; exact H|].
      destruct Hbig as [B|B]; [left; specialize (Hge H); lia | right; lia]. }
    rewrite Heq. destruct m2 as [|m2|m2]; [|clear Hm2|lia].
    + right. cbn [SFnonneg SFvalue]. split; [reflexivity|].
      destruct Hcase as [H|H]; [exfalso; revert H; apply Z.lt_nge; reflexivity|].
      subst e2. fold eta in Herr. rewrite Qmult_0_r, Qplus_0_l.
      cbn [inject_Z] in Herr. rewrite Qmult_0_l in Herr. exact Herr.
    + destruct (e2 <=? 971)%Z eqn:Hle.
      * right. cbn [SFnonneg SFvalue negb]. split; [reflexivity|].
        destruct Hcase as [H|H].
        -- pose proof (ulp_relative (Zpos m2) e2 H). lra.
        -- subst e2. fold eta in Herr |- *.
           assert (0 <= epsilon * (inject_Z (Zpos m2) * eta)).
           { apply Qmult_le_0_compat; [discriminate|].
             apply Qmult_le_0_compat; [discriminate | lra]. }
           lra.
      * left. split; [reflexivity|].
        apply Z.leb_gt in Hle.
        destruct Hcase as [H|H]; [|lia].
        apply Qabs_Qle_condition in Herr. destruct Herr as [_ Herr].
        assert (H2 : 2 ^ 972 <= 2 ^ e2) by (apply pow2_le; lia).
        assert (H3 : inject_Z 2 * 2 ^ e2 <= inject_Z (Zpos m2) * 2 ^ e2).
        { apply Qmult_le_compat_r; [|apply Qlt_le_weak, pow2_pos].
          rewrite <- Zle_Qle. assert (2 ^ 52 = 4503599627370496)%Z by reflexivity. lia. }
        change (inject_Z 2) with 2 in H3.
        set (W := 2 ^ e2) in *. set (V := inject_Z (Zpos m2) * W) in *.
        set (B := 2 ^ 972) in *. lra.
Qed.

Lemma value_nonneg (x : float) : nonNegative x = true -> 0 <= value x.
Proof. apply SFvalue_nonneg. Qed.

Lemma add_value (x y : float) :
  nonNegative x = true -> nonNegative y = true ->
  (Prim2SF (x + y) = S754_infinity false /\ 2 ^ 972 <= value x + value y)
  \/ (nonNegative (x + y) = true
      /\ Qabs (value (x + y) - (value x + value y)) <= epsilon * value (x + y)).
Proof.
  intros Hx Hy. unfold nonNegative, value. rewrite FloatAxioms.add_spec.
  apply SFadd_value; try assumption; apply Prim2SF_valid.
Qed.

Lemma add_infinity (x y : float) :
  Prim2SF x = S754_infinity false -> nonNegative y = true ->
  Prim2SF (x + y) = S754_infinity false.
Proof.
  intros Hx Hy. rewrite FloatAxioms.add_spec, Hx. unfold nonNegative in Hy.
  destruct (Prim2SF y) as [s| | |s m e]; try discriminate Hy; reflexivity.
Qed.

Lemma exactSum_nonneg (values : list float) :
  Forall (fun v => nonNegative v = true) values -> 0 <= exactSum values.
Proof.
  induction 1 as [|v values Hv _ IH]; cbn [exactSum fold_right].
  - apply Qle_refl.
  - pose proof (value_nonneg v Hv). fold (exactSum values). lra.
Qed.

Lemma sumFrom_infinity (values : list float) :
  forall start, Prim2SF start = S754_infinity false ->
  Forall (fun v => nonNegative v = true) values ->
  Prim2SF (sumFrom start values) = S754_infinity false.
Proof.
  induction values as [|v values IH]; intros start Hs Hall; cbn [sumFrom fold_left].
  - exact Hs.
  - apply IH; [|exact (Forall_inv_tail Hall)].
    apply add_infinity; [exact Hs | exact (Forall_inv Hall)].
Qed.

(** Summation from the left: the error grows by [4 * epsilon * S] a step,
    [S] a bound of the exact sum. *)
Lemma sumFrom_error (S : Q) (values : list float) :
  forall (start : float) (exact : Q) (k : nat),
  nonNegative start = true ->
  Forall (fun v => nonNegative v = true) values ->
  nonNegative (sumFrom start values) = true \/ 2 * S < 2 ^ 972 ->
  0 <= exact -> exact + exactSum values <= S ->
  inject_Z (Z.of_nat (k + length values)) * (4 * epsilon * S) <= S ->
  Qabs (value start - exact) <= inject_Z (Z.of_nat k) * (4 * epsilon * S) ->
  nonNegative (sumFrom start values) = true
  /\ Qabs (value (sumFrom start values) - (exact + exactSum values))
     <= inject_Z (Z.of_nat (k + length values)) * (4 * epsilon * S).
Proof.
  induction values as [|v values IH]; intros start exact k Hs Hall Hfin Hex HS Hk Herr;
    cbn [sumFrom fold_left exactSum fold_right length] in *.
  - split; [exact Hs|]. rewrite Nat.add_0_r in *.
    setoid_replace (exact + 0) with exact by ring. exact Herr.
  - fold (sumFrom (start + v) values) in *. fold (exactSum values) in *.
    pose proof (Forall_inv Hall) as Hv. pose proof (Forall_inv_tail Hall) as Hrest.
    pose proof (value_nonneg v Hv) as Hv0.
    pose proof (exactSum_nonneg values Hrest) as Hrest0.
    assert (Hmono : inject_Z (Z.of_nat k) * (4 * epsilon * S)
                    <= inject_Z (Z.of_nat (k + Datatypes.S (length values))) * (4 * epsilon * S)).
    { apply Qmult_le_compat_r.
      - rewrite <- Zle_Qle. lia.
      - unfold epsilon. lra. }
    destruct (add_value start v Hs Hv) as [[Hinf Hbig]|[Hn Hadd]].
    { exfalso. destruct Hfin as [Hfin|Hfin].
      - pose proof (sumFrom_infinity values (start + v) Hinf Hrest) as C.
        unfold nonNegative in Hfin. rewrite C in Hfin. discriminate Hfin.
      - apply Qabs_Qle_condition in Herr. set (B := 2 ^ 972) in *. lra. }
    replace (k + Datatypes.S (length values))%nat with (Datatypes.S k + length values)%nat in * by lia.
    setoid_replace (exact + (value v + exactSum values))
      with ((exact + value v) + exactSum values) by ring.
    assert (HS' : exact + value v + exactSum values <= S) by lra.
    apply IH; try assumption; [lra|].
    pose proof (value_nonneg (start + v) Hn) as Ht0.
    rewrite Nat2Z.inj_succ, <- Z.add_1_r, inject_Z_plus.
    change (inject_Z 1) with 1.
    apply Qabs_Qle_condition in Herr. apply Qabs_Qle_condition in Hadd.
    apply Qabs_Qle_condition.
    unfold epsilon in *.
    split; lra.
Qed.

Lemma eta_le_epsilon : eta <= epsilon.
Proof.
  unfold eta. eapply Qle_trans; [apply (pow2_le (-1074) (-52)); lia|].
  unfold epsilon. apply Qle_lteq. right. reflexivity.
Qed.

Lemma ltb_positive (T : float) :
  (0 <? T)%float = true -> finite T = true ->
  exists m e, Prim2SF T = S754_finite false m e.
Proof.
  rewrite FloatAxioms.ltb_spec. unfold finite.
  change (Prim2SF 0) with (S754_zero false).
  destruct (Prim2SF T) as [s| | |s m e]; cbn; try discriminate.
  destruct s; [discriminate|]. intros _ _. exists m, e. reflexivity.
Qed.

Lemma div_value (s T : float) (m : positive) (e : Z) :
  nonNegative s = true -> Prim2SF T = S754_finite false m e ->
  (Prim2SF (s / T) = S754_infinity false /\ 2 ^ 972 <= value s / value T)
  \/ (nonNegative (s / T) = true
      /\ Qabs (value (s / T) - value s / value T) <= epsilon * value (s / T) + eta).
Proof.
  intros Hs HT. unfold nonNegative, value. rewrite FloatAxioms.div_spec, HT.
  apply SFdiv_value; [apply Prim2SF_valid | exact Hs].
Qed.

(** Below [2^39] the test of [toFixed4] fails. *)
Lemma below_2p39 (q : float) (m : positive) (e : Z) :
  Prim2SF q = S754_finite false m e -> value q < 2 ^ 39 ->
  (0x1p+39 <=? abs q)%float = false.
Proof.
  intros Hq Hv. rewrite FloatAxioms.leb_spec, abs_spec, Hq.
  change (Prim2SF 0x1p+39) with (S754_finite false 4503599627370496 (-13)).
  pose proof (Prim2SF_valid q) as V. rewrite Hq in V.
  destruct (valid_finite _ _ _ V) as (He & _ & Hbig).
  unfold value in Hv. rewrite Hq in Hv. cbn [SFvalue] in Hv.
  assert (Hno : (2 ^ 52 <= Zpos m)%Z -> (-13 <= e)%Z -> False).
  { intros Hm He13.
    pose proof (pow2_le (-13) e He13) as P.
    pose proof (pow2_pos (-13)) as P0.
    rewrite Zle_Qle in Hm.
    assert (H1 : inject_Z (2 ^ 52) * 2 ^ e <= inject_Z (Zpos m) * 2 ^ e)
      by (apply Qmult_le_compat_r; [exact Hm | pose proof (pow2_pos e); lra]).
    assert (H2 : inject_Z (2 ^ 52) * 2 ^ (-13) == 2 ^ 39) by reflexivity.
    change (inject_Z (2 ^ 52)) with (4503599627370496 # 1) in *.
    set (A := 2 ^ e) in *. set (B := 2 ^ (-13)) in *. set (C := 2 ^ 39) in *.
    set (U := inject_Z (Zpos m) * A) in *. lra. }
  unfold SFleb, SFcompare. cbn [SFabs].
  destruct (Z.compare_spec (-13) e) as [E|E|E]; [| |reflexivity].
  - subst e. change (Pos.compare_cont Eq 4503599627370496 m) with (Pos.compare 4503599627370496 m).
    destruct (Pos.compare_spec 4503599627370496 m) as [C|C|C]; [| |reflexivity];
      exfalso; apply Hno; lia.
  - exfalso. apply Hno; [|lia]. destruct Hbig as [B|B]; [lia | exact B].
Qed.

Lemma Qmult_pos_le_0 (P x : Q) : 0 < P -> P * x <= 0 -> x <= 0.
Proof.
  intros HP H. apply (Qmult_le_l x 0 P HP). rewrite Qmult_0_r. exact H.
Qed.

(** The integer [n] of [toFixed4]: within one half of [10^4] times the
    number. *)
Lemma fixed_integer (m : positive) (e : Z) :
  let n := match e with
           | Zneg p => ((2 * Zpos m * 10000 + Zpos (2 ^ p)) / (2 * Zpos (2 ^ p)))%Z
           | _ => (Zpos m * 2 ^ e * 10000)%Z
           end in
  (0 <= n)%Z
  /\ inject_Z n - (1 # 2) <= inject_Z (Zpos m) * 2 ^ e * 10000
  /\ inject_Z (Zpos m) * 2 ^ e * 10000 <= inject_Z n + (1 # 2).
Proof.
  destruct e as [|p|p]; cbn zeta.
  - split; [lia|]. rewrite !inject_Z_mult. change (inject_Z (2 ^ 0)) with 1.
    change (2 ^ 0) with 1. change (inject_Z 10000) with 10000.
    set (V := inject_Z (Zpos m)). split; lra.
  - split; [apply Z.mul_nonneg_nonneg; [apply Z.mul_nonneg_nonneg|]; try lia;
            apply Z.pow_nonneg; lia|].
    rewrite !inject_Z_mult, pow2_inject by lia. change (inject_Z 10000) with 10000.
    set (V := inject_Z (Zpos m) * 2 ^ Zpos p). split; lra.
  - set (P := Zpos (2 ^ p)).
    assert (HP : (0 < 2 * P)%Z) by (unfold P; lia).
    pose proof (Z.mul_div_le (2 * Zpos m * 10000 + P) (2 * P) HP) as A1.
    pose proof (Z.mul_succ_div_gt (2 * Zpos m * 10000 + P) (2 * P) HP) as A2.
    set (n := ((2 * Zpos m * 10000 + P) / (2 * P))%Z) in *.
    split; [apply Z.div_pos; lia|].
    assert (Hpow : 2 ^ Zneg p == / inject_Z P).
    { change (2 ^ Zneg p) with (/ (2 ^ Zpos p)).
      unfold P. rewrite Pos2Z.inj_pow, pow2_inject by lia. reflexivity. }
    assert (HPq : 0 < inject_Z P) by reflexivity.
    assert (Hv : inject_Z (Zpos m) * 2 ^ Zneg p * inject_Z P == inject_Z (Zpos m)).
    { rewrite Hpow. field. lra. }
    set (v := inject_Z (Zpos m) * 2 ^ Zneg p) in *.
    apply Z.lt_le_incl in A2. unfold Z.succ in A2.
    rewrite Zle_Qle in A1, A2.
    rewrite !inject_Z_mult, !inject_Z_plus, !inject_Z_mult in A1, A2.
    rewrite ?inject_Z_plus in A2.
    change (inject_Z 2) with 2 in *. change (inject_Z 10000) with 10000 in *.
    change (inject_Z 1) with 1 in *.
    rewrite <- Hv in A1, A2.
    split.
    + apply (Qplus_le_l _ _ (- (v * 10000))).
      setoid_replace (v * 10000 + - (v * 10000)) with 0 by ring.
      apply (Qmult_pos_le_0 (2 * inject_Z P)); [lra|].
      set (Pq := inject_Z P) in *. lra.
    + apply (Qplus_le_l _ _ (- (inject_Z n + (1 # 2)))).
      setoid_replace (inject_Z n + (1 # 2) + - (inject_Z n + (1 # 2))) with 0 by ring.
      apply (Qmult_pos_le_0 (2 * inject_Z P)); [lra|].
      set (Pq := inject_Z P) in *. lra.
Qed.

(** A small integer converts to a number within [epsilon] of it. *)
Lemma of_uint63_value (n : Z) :
  (0 <= n <= 1000000)%Z ->
  nonNegative (of_uint63 (Uint63.of_Z n)) = true
  /\ Qabs (value (of_uint63 (Uint63.of_Z n)) - inject_Z n)
     <= epsilon * value (of_uint63 (Uint63.of_Z n)).
Proof.
  intros Hn. unfold nonNegative, value.
  rewrite of_uint63_spec, Uint63.of_Z_spec.
  assert (HwB : wB = 9223372036854775808%Z) by reflexivity.
  rewrite Z.mod_small by lia.
  destruct n as [|p|p]; [| |lia].
  - cbn. split; [reflexivity | discriminate].
  - cbn [binary_normalize].
    destruct (binary_round_value false p 0 ltac:(lia)) as [[_ Hbig]|(m2 & e2 & -> & Herr)].
    + exfalso. change (2 ^ 0) with 1 in Hbig.
      pose proof (pow2_le 20 972 ltac:(lia)) as H20.
      change (2 ^ 20) with 1048576 in H20.
      assert (Hp : inject_Z (Zpos p) <= inject_Z 1000000) by (rewrite <- Zle_Qle; lia).
      change (inject_Z 1000000) with 1000000 in Hp.
      set (B := 2 ^ 972) in *. set (V := inject_Z (Zpos p)) in *. lra.
    + split; [reflexivity|]. cbn [SFvalue].
      change (2 ^ 0) with 1 in Herr. rewrite Qmult_1_r in Herr. exact Herr.
Qed.

(** [toFixed4] of a number near [X], [X] at most 2: within half a unit of
    the fourth decimal of [X], up to forty roundings. *)
Lemma toFixed4_value (q : float) (X : Q) :
  nonNegative q = true -> 0 <= X -> X <= 2 ->
  Qabs (value q - X) <= epsilon * value q + eta ->
  nonNegative (toFixed4 q) = true
  /\ Qabs (value (toFixed4 q) - X) <= (1 # 20000) + 40 * epsilon.
Proof.
  intros Hq HX0 HX2 Herr.
  pose proof eta_le_epsilon as Heta.
  assert (Heta0 : 0 < eta) by apply pow2_pos.
  pose proof (value_nonneg q Hq) as Hv0.
  unfold toFixed4. unfold nonNegative in Hq.
  destruct (Prim2SF q) as [s| | |s m e] eqn:Hq'; try discriminate Hq.
  - split; [reflexivity|].
    unfold value in Herr. rewrite Hq' in Herr. cbn [SFvalue] in Herr.
    change (value 0) with 0.
    apply Qabs_Qle_condition in Herr. apply Qabs_Qle_condition.
    unfold epsilon in *. split; lra.
  - destruct s; [discriminate Hq|].
    apply Qabs_Qle_condition in Herr.
    assert (Hv5 : value q <= 5) by (unfold epsilon in *; lra).
    assert (H39 : value q < 2 ^ 39).
    { assert (E : 2 ^ 39 == 549755813888) by reflexivity. rewrite E. lra. }
    rewrite (below_2p39 q m e Hq' H39).
    destruct (fixed_integer m e) as (Hn0 & Hn1 & Hn2).
    set (n := match e with
              | Zneg p => ((2 * Zpos m * 10000 + Zpos (2 ^ p)) / (2 * Zpos (2 ^ p)))%Z
              | _ => (Zpos m * 2 ^ e * 10000)%Z
              end) in *.
    assert (Hvq : value q == inject_Z (Zpos m) * 2 ^ e)
      by (unfold value; rewrite Hq'; reflexivity).
    rewrite <- Hvq in Hn1, Hn2.
    assert (Hn : (n <= 50001)%Z).
    { rewrite Zle_Qle. change (inject_Z 50001) with 50001. lra. }
    destruct (of_uint63_value n ltac:(lia)) as [HN HNerr].
    set (N := of_uint63 (Uint63.of_Z n)) in *.
    pose proof (value_nonneg N HN) as HN0.
    apply Qabs_Qle_condition in HNerr.
    assert (H10 : value 10000 == 10000) by reflexivity.
    assert (HNle : inject_Z n <= 50001).
    { change 50001 with (inject_Z 50001). rewrite <- Zle_Qle. exact Hn. }
    assert (HN2 : value N <= 100004) by (unfold epsilon in *; lra).
    destruct (div_value N 10000 5497558138880000 (-39) HN ltac:(reflexivity))
      as [[_ Hbig]|[HM HMerr]].
    + exfalso. rewrite H10 in Hbig.
      pose proof (pow2_le 20 972 ltac:(lia)) as H20.
      change (2 ^ 20) with 1048576 in H20.
      unfold Qdiv in Hbig. change (/ 10000) with (1 # 10000) in Hbig.
      set (B := 2 ^ 972) in *. lra.
    + split; [exact HM|].
      pose proof (value_nonneg _ HM) as HM0.
      rewrite H10 in HMerr. unfold Qdiv in HMerr. change (/ 10000) with (1 # 10000) in HMerr.
      apply Qabs_Qle_condition in HMerr. apply Qabs_Qle_condition.
      unfold epsilon in *.
      set (M := value (N / 10000)) in *. set (vN := value N) in *. set (v := value q) in *.
      split; lra.
Qed.

Lemma exactSum_member (values : list float) (s : float) :
  Forall (fun v => nonNegative v = true) values -> In s values ->
  value s <= exactSum values.
Proof.
  induction 1 as [|v values Hv Hall IH]; intros Hin; [destruct Hin|].
  cbn [exactSum fold_right]. fold (exactSum values).
  pose proof (value_nonneg v Hv). pose proof (exactSum_nonneg values Hall).
  destruct Hin as [->|Hin]; [lra | specialize (IH Hin); lra].
Qed.

Section Normalized.
Variables (T : float) (m : positive) (e : Z).
Hypothesis HT : Prim2SF T = S754_finite false m e.

Lemma total_positive : 0 < value T.
Proof.
  unfold value. rewrite HT. cbn [SFvalue].
  apply Qmult_lt_0_compat; [reflexivity | apply pow2_pos].
Qed.

Lemma normalized_value (s : float) :
  nonNegative s = true -> value s <= 2 * value T ->
  nonNegative (toFixed4 (s / T)) = true
  /\ Qabs (value (toFixed4 (s / T)) - value s / value T) <= (1 # 20000) + 40 * epsilon.
Proof.
  intros Hs Hle. pose proof total_positive as HT0. pose proof (value_nonneg s Hs) as Hs0.
  assert (HX0 : 0 <= value s / value T).
  { apply Qle_shift_div_l; [exact HT0 | lra]. }
  assert (HX2 : value s / value T <= 2).
  { apply Qle_shift_div_r; [exact HT0 | exact Hle]. }
  destruct (div_value s T m e Hs HT) as [[_ Hbig]|[Hq Herr]].
  - exfalso. pose proof (pow2_le 20 972 ltac:(lia)) as H20.
    change (2 ^ 20) with 1048576 in H20.
    set (B := 2 ^ 972) in *. set (X := value s / value T) in *. lra.
  - apply toFixed4_value; assumption.
Qed.

Lemma normalized_values (values : list float) :
  Forall (fun s => nonNegative s = true /\ value s <= 2 * value T) values ->
  Forall (fun v => nonNegative v = true) (map (fun s => toFixed4 (s / T)) values)
  /\ Qabs (exactSum (map (fun s => toFixed4 (s / T)) values) - exactSum values / value T)
     <= inject_Z (Z.of_nat (length values)) * ((1 # 20000) + 40 * epsilon).
Proof.
  induction 1 as [|s values [Hs Hle] _ [IH1 IH2]]; cbn [map exactSum fold_right length].
  - split; [constructor|]. unfold Qdiv. rewrite Qmult_0_l. discriminate.
  - fold (exactSum values). fold (exactSum (map (fun s => toFixed4 (s / T)) values)).
    destruct (normalized_value s Hs Hle) as [Hn Herr].
    split; [constructor; assumption|].
    rewrite Nat2Z.inj_succ, <- Z.add_1_r, inject_Z_plus. change (inject_Z 1) with 1.
    setoid_replace ((value s + exactSum values) / value T)
      with (value s / value T + exactSum values / value T) by (unfold Qdiv; ring).
    apply Qabs_Qle_condition in Herr. apply Qabs_Qle_condition in IH2.
    apply Qabs_Qle_condition.
    unfold epsilon in *.
    set (L := inject_Z (Z.of_nat (length values))) in *.
    split; lra.
Qed.

End Normalized.

(** C1 (as amended): for at most [2^20] labels with finite scores that are
    not negative and a finite positive total, every normalized value is a
    finite number that is not negative, and the normalized values sum to 1
    within [n * (0.00005 + 2^-43)], [n] the number of labels: half a unit
    of the fourth decimal per label for [toFixed(4)], and [2^-43] per label
    for the roundings of the additions and divisions.  This holds of the
    exact sum of the values and of their sum computed in binary64. *)
Theorem binary64_normalized_sum (scoreMap : list (string * float)) :
  Forall (fun e => nonNegative (snd e) = true) scoreMap ->
  (Z.of_nat (length scoreMap) <= 1048576)%Z ->
  finite (totalScore scoreMap) = true ->
  (0 <? totalScore scoreMap)%float = true ->
  Forall (fun e => nonNegative (snd e) = true) (normalizeScores scoreMap)
  /\ Qabs (exactSum (map snd (normalizeScores scoreMap)) - 1)
     <= inject_Z (Z.of_nat (length scoreMap)) * ((1 # 20000) + (1 # 8796093022208))
  /\ finite (totalScore (normalizeScores scoreMap)) = true
  /\ Qabs (value (totalScore (normalizeScores scoreMap)) - 1)
     <= inject_Z (Z.of_nat (length scoreMap)) * ((1 # 20000) + (1 # 8796093022208)).
Proof.
  intros Hall Hlen Hfin Hpos.
  unfold normalizeScores. rewrite Hpos.
  destruct (ltb_positive _ Hpos Hfin) as (m & e & HT).
  set (T := totalScore scoreMap) in *.
  set (values := map snd scoreMap).
  assert (Hvalues : Forall (fun v => nonNegative v = true) values).
  { unfold values. apply Forall_map. exact Hall. }
  assert (HTn : nonNegative T = true) by (unfold nonNegative; rewrite HT; reflexivity).
  pose proof (total_positive T m e HT) as HT0.
  pose proof (exactSum_nonneg values Hvalues) as HS0.
  assert (Hn : length values = length scoreMap) by apply length_map.
  set (n := inject_Z (Z.of_nat (length scoreMap))) in *.
  assert (Hn0 : 0 <= n) by (unfold n; change 0 with (inject_Z 0); rewrite <- Zle_Qle; lia).
  assert (Hn20 : n <= 1048576)
    by (unfold n; change 1048576 with (inject_Z 1048576); rewrite <- Zle_Qle; exact Hlen).
  set (S := exactSum values) in *.
  assert (HnS : n * S <= 1048576 * S) by (apply Qmult_le_compat_r; assumption).
  assert (HnS0 : 0 <= n * S) by (apply Qmult_le_0_compat; assumption).
  destruct (sumFrom_error S values 0%float 0 0) as [_ Hsum]; try assumption.
  { reflexivity. }
  { left. exact HTn. }
  { apply Qle_refl. }
  { fold S. lra. }
  { cbn [Nat.add]. rewrite Hn. fold n. unfold epsilon. lra. }
  { change (value 0) with 0. cbn. discriminate. }
  cbn [Nat.add] in Hsum. rewrite Hn in Hsum. fold n S in Hsum.
  change (sumFrom 0 values) with T in Hsum.
  apply Qabs_Qle_condition in Hsum. unfold epsilon in Hsum.
  assert (HS2 : S <= 2 * value T) by lra.
  assert (Hmembers : Forall (fun s => nonNegative s = true /\ value s <= 2 * value T) values).
  { apply Forall_forall. intros s Hin. split.
    - exact (proj1 (Forall_forall _ _) Hvalues s Hin).
    - pose proof (exactSum_member values s Hvalues Hin). fold S in H. lra. }
  destruct (normalized_values T m e HT values Hmembers) as [Hnn Herr].
  rewrite Hn in Herr. fold n S in Herr.
  assert (Hshape : map snd (map (fun e0 => (fst e0, toFixed4 (snd e0 / T))) scoreMap)
                   = map (fun s => toFixed4 (s / T)) values).
  { unfold values. rewrite !map_map. reflexivity. }
  unfold totalScore at 1 2. rewrite Hshape.
  set (normalized := map (fun s => toFixed4 (s / T)) values) in *.
  fold (sumFrom 0 normalized).
  set (V := exactSum normalized) in *.
  assert (HnT : n * S <= n * (2 * value T)).
  { rewrite (Qmult_comm n S), (Qmult_comm n (2 * value T)).
    apply Qmult_le_compat_r; assumption. }
  assert (HR1 : S / value T <= 1 + 8 * n * (1 # 4503599627370496)).
  { apply Qle_shift_div_r; [exact HT0|]. lra. }
  assert (HR2 : 1 - 8 * n * (1 # 4503599627370496) <= S / value T).
  { apply Qle_shift_div_l; [exact HT0|]. lra. }
  apply Qabs_Qle_condition in Herr. unfold epsilon in Herr.
  set (R := S / value T) in *.
  assert (HV : - (n * ((1 # 20000) + 48 * (1 # 4503599627370496))) <= V - 1
               /\ V - 1 <= n * ((1 # 20000) + 48 * (1 # 4503599627370496)))
    by (split; lra).
  pose proof (exactSum_nonneg normalized Hnn) as HV0.
  assert (HV54 : V <= 54) by lra.
  assert (HnV : n * V <= n * 54).
  { rewrite (Qmult_comm n V), (Qmult_comm n 54). apply Qmult_le_compat_r; assumption. }
  assert (HnV0 : 0 <= n * V) by (apply Qmult_le_0_compat; assumption).
  assert (HnV20 : n * V <= 1048576 * V) by (apply Qmult_le_compat_r; assumption).
  assert (Hlength : length normalized = length scoreMap)
    by (unfold normalized; rewrite length_map; exact Hn).
  destruct (sumFrom_error V normalized 0%float 0 0) as [Hfloat Hsum']; try assumption.
  { reflexivity. }
  { right. pose proof (pow2_le 20 972 ltac:(lia)) as H20.
    change (2 ^ 20) with 1048576 in H20. set (B := 2 ^ 972) in *. lra. }
  { apply Qle_refl. }
  { fold V. lra. }
  { cbn [Nat.add]. rewrite Hlength. fold n. unfold epsilon. lra. }
  { change (value 0) with 0. cbn. discriminate. }
  cbn [Nat.add] in Hsum'. rewrite Hlength in Hsum'. fold n V in Hsum'.
  apply Qabs_Qle_condition in Hsum'. unfold epsilon in Hsum'.
  split; [|split; [|split]].
  - apply Forall_map. cbn [snd].
    unfold normalized, values in Hnn. rewrite !Forall_map in Hnn. exact Hnn.
  - apply Qabs_Qle_condition. split; lra.
  - unfold nonNegative in Hfloat. unfold finite.
    destruct (Prim2SF (sumFrom 0 normalized)); try discriminate Hfloat; reflexivity.
  - apply Qabs_Qle_condition.
    set (F := value (sumFrom 0 normalized)) in *. split; lra.
Qed.

End Binary64Values.

Lemma binary64_normalized_sum_witness :
  Forall (fun e => Binary64.nonNegative (snd e) = true) Binary64.evenScores
  /\ (Z.of_nat (length Binary64.evenScores) <= 1048576)%Z
  /\ Binary64.finite (Binary64.totalScore Binary64.evenScores) = true
  /\ (0 <? Binary64.totalScore Binary64.evenScores)%float = true
  /\ Forall (fun e => Binary64.nonNegative (snd e) = true)
       (Binary64.normalizeScores Binary64.evenScores)
  /\ (Qabs (Binary64.exactSum (map snd (Binary64.normalizeScores Binary64.evenScores)) - 1)
      <= inject_Z (Z.of_nat (length Binary64.evenScores))
         * ((1 # 20000) + (1 # 8796093022208)))%Q
  /\ Binary64.finite (Binary64.totalScore (Binary64.normalizeScores Binary64.evenScores)) = true
  /\ (Qabs (Binary64.value (Binary64.totalScore (Binary64.normalizeScores Binary64.evenScores)) - 1)
      <= inject_Z (Z.of_nat (length Binary64.evenScores))
         * ((1 # 20000) + (1 # 8796093022208)))%Q.
Proof.
  assert (H1 : Forall (fun e => Binary64.nonNegative (snd e) = true) Binary64.evenScores)
    by (repeat constructor).
  assert (H2 : (Z.of_nat (length Binary64.evenScores) <= 1048576)%Z)
    by (vm_compute; discriminate).
  assert (H3 : Binary64.finite (Binary64.totalScore Binary64.evenScores) = true)
    by reflexivity.
  assert (H4 : (0 <? Binary64.totalScore Binary64.evenScores)%float = true)
    by reflexivity.
  repeat (split; [assumption|]).
  exact (binary64_normalized_sum Binary64.evenScores H1 H2 H3 H4).
Defined.

(** Scores have to be non-negative: when positive and negative scores
    cancel, the total, 4 here, is far from the exact sum, 3, and the
    normalized values sum to 0.75. *)
Example binary64_cancellation :
  Binary64.totalScore Binary64.cancellingScores = 4%float
  /\ map snd (Binary64.normalizeScores Binary64.cancellingScores)
     = [2.5e15; 0.75; -2.5e15]%float
  /\ (Binary64.exactSum (map snd (Binary64.normalizeScores Binary64.cancellingScores))
      == 3 # 4)%Q.
Proof. vm_compute. repeat split. Qed.

(** ** The retry loop of [classifyParagraph] *)

Section Classifier.
Import Scores Http Pipeline.
Context {World : Type} (env : Env World).

(** One turn: a call, then either the accumulated answer, or, on failure,
    the pause (the warning, on the last turn). *)
Lemma attemptOnce_run (attempt : nat) (trimmed : string) (scoreMap : ScoreMap)
    (st : State World) :
  attemptOnce env attempt trimmed scoreMap st
  = match textClassification env trimmed (world st) with
    | (Ok res, w) =>
        (Ok (Some (fold_left accumulate res scoreMap)),
         {| world := w; trace := trace st ++ [EClassify trimmed] |})
    | (Err e, w) =>
        if (attempt =? maxRetries)%nat
        then (Ok None,
              {| world := w;
                 trace := trace st ++ [EClassify trimmed; EWarn trimmed e] |})
        else (Ok None,
              {| world := setTimeout env 500 w;
                 trace := trace st ++ [EClassify trimmed; ESleep 500] |})
    end.
Proof.
  unfold attemptOnce, tryCatch, bind, call, ret.
  destruct (textClassification env trimmed (world st)) as [[res|e] w]; [reflexivity|].
  destruct (attempt =? maxRetries)%nat; unfold emit, sleep; cbn;
    rewrite <- app_assoc; reflexivity.
Qed.

(** The shapes a sentence's effects can take. *)
Lemma retryLoop_run (trimmed : string) (scoreMap : ScoreMap) (st : State World) :
  exists scoreMap' st' events,
    retryLoop env maxRetries 1 trimmed scoreMap st = (Ok scoreMap', st')
    /\ trace st' = trace st ++ events
    /\ ((exists res,
           events = [EClassify trimmed]
           /\ scoreMap' = fold_left accumulate res scoreMap)
        \/ (exists res,
           events = [EClassify trimmed; ESleep 500; EClassify trimmed]
           /\ scoreMap' = fold_left accumulate res scoreMap)
        \/ (exists res,
           events = [EClassify trimmed; ESleep 500; EClassify trimmed; ESleep 500;
                     EClassify trimmed]
           /\ scoreMap' = fold_left accumulate res scoreMap)
        \/ (exists message,
           events = [EClassify trimmed; ESleep 500; EClassify trimmed; ESleep 500;
                     EClassify trimmed; EWarn trimmed message]
           /\ scoreMap' = scoreMap)).
Proof.
  unfold maxRetries at 1. cbn [retryLoop]. unfold maxRetries. cbn [Nat.leb].
  unfold bind at 1. rewrite attemptOnce_run.
  destruct (textClassification env trimmed (world st)) as [[res1|e1] w1].
  { do 3 eexists. split; [reflexivity|]. split; [reflexivity|]. left. exists res1. split; reflexivity. }
  cbn [Nat.eqb maxRetries]. unfold bind at 1. rewrite attemptOnce_run. cbn [world trace].
  destruct (textClassification env trimmed (setTimeout env 500 w1)) as [[res2|e2] w2].
  { do 3 eexists. split; [reflexivity|]. cbn [trace].
    split; [rewrite <- app_assoc; reflexivity|]. right; left. exists res2. split; reflexivity. }
  cbn [Nat.eqb maxRetries]. unfold bind at 1. rewrite attemptOnce_run. cbn [world trace].
  destruct (textClassification env trimmed (setTimeout env 500 w2)) as [[res3|e3] w3].
  { do 3 eexists. split; [reflexivity|]. cbn [trace].
    split; [rewrite <- !app_assoc; reflexivity|]. right; right; left. exists res3. split; reflexivity. }
  cbn [Nat.eqb maxRetries]. unfold ret.
  do 3 eexists. split; [reflexivity|]. cbn [trace].
  split; [rewrite <- !app_assoc; reflexivity|]. right; right; right. exists e3. split; reflexivity.
Qed.

Lemma length_zero_iff_empty (s : string) :
  (String.length s =? 0)%nat = true <-> s = "".
Proof. destruct s; simpl; split; intros; congruence. Qed.

Lemma Forall_classifierEvent_app (xs ys : list Event) :
  Forall classifierEvent xs -> Forall classifierEvent ys ->
  Forall classifierEvent (xs ++ ys).
Proof. intros. apply Forall_app. split; assumption. Qed.

(** A sentence never throws, and its effects are classifier effects. *)
Lemma classifySentence_total (s : string) (scoreMap : ScoreMap) (st : State World) :
  exists scoreMap' st' events,
    classifySentence env s scoreMap st = (Ok scoreMap', st')
    /\ trace st' = trace st ++ events
    /\ Forall classifierEvent events.
Proof.
  unfold classifySentence.
  destruct (String.length (JsString.trim s) =? 0)%nat.
  - exists scoreMap, st, []. rewrite app_nil_r. repeat split. constructor.
  - destruct (retryLoop_run (JsString.trim s) scoreMap st)
      as (m & st' & events & Hrun & Htrace & Hshape).
    exists m, st', events. repeat split; try assumption.
    destruct Hshape as [(r & -> & _) | [(r & -> & _) | [(r & -> & _) | (r & -> & _)]]];
      repeat constructor.
Qed.

Lemma forSentences_total (sentences : list string) :
  forall (scoreMap : ScoreMap) (st : State World),
  exists scoreMap' st' events,
    forSentences env sentences scoreMap st = (Ok scoreMap', st')
    /\ trace st' = trace st ++ events
    /\ Forall classifierEvent events.
Proof.
  induction sentences as [|s rest IH]; intros scoreMap st.
  - exists scoreMap, st, []. rewrite app_nil_r. repeat split. constructor.
  - cbn [forSentences]. unfold bind.
    destruct (classifySentence_total s scoreMap st) as (m1 & st1 & ev1 & -> & T1 & F1).
    destruct (IH m1 st1) as (m2 & st2 & ev2 & -> & T2 & F2).
    exists m2, st2, (ev1 ++ ev2). repeat split.
    + rewrite T2, T1, app_assoc. reflexivity.
    + apply Forall_classifierEvent_app; assumption.
Qed.

(** [classifyParagraph] never throws; it performs classifier effects only. *)
Lemma classifyParagraph_total (text : string) (st : State World) :
  exists result st' events,
    classifyParagraph env text st = (Ok result, st')
    /\ trace st' = trace st ++ events
    /\ Forall classifierEvent events.
Proof.
  unfold classifyParagraph, bind.
  destruct (forSentences_total (Sentences.splitSentences text) [] st)
    as (m & st' & events & -> & T & F).
  exists (summarize m), st', events. repeat split; assumption.
Qed.

(** A sentence, by the answers of the classifier: the calls go on, 500 ms
    apart, until one succeeds or three have failed. *)
Lemma classifySentence_answers (s : string) (scoreMap : ScoreMap) (st : State World) :
  let trimmed := JsString.trim s in
  classifySentence env s scoreMap st
  = if (String.length trimmed =? 0)%nat then (Ok scoreMap, st)
    else
      match textClassification env trimmed (world st) with
      | (Ok res, w1) =>
          (Ok (fold_left accumulate res scoreMap),
           {| world := w1; trace := trace st ++ [EClassify trimmed] |})
      | (Err _, w1) =>
          match textClassification env trimmed (setTimeout env 500 w1) with
          | (Ok res, w2) =>
              (Ok (fold_left accumulate res scoreMap),
               {| world := w2;
                  trace := trace st ++ [EClassify trimmed; ESleep 500; EClassify trimmed] |})
          | (Err _, w2) =>
              match textClassification env trimmed (setTimeout env 500 w2) with
              | (Ok res, w3) =>
                  (Ok (fold_left accumulate res scoreMap),
                   {| world := w3;
                      trace := trace st ++ [EClassify trimmed; ESleep 500;
                                            EClassify trimmed; ESleep 500;
                                            EClassify trimmed] |})
              | (Err message, w3) =>
                  (Ok scoreMap,
                   {| world := w3;
                      trace := trace st ++ [EClassify trimmed; ESleep 500;
                                            EClassify trimmed; ESleep 500;
                                            EClassify trimmed;
                                            EWarn trimmed message] |})
              end
          end
      end.
Proof.
  intros trimmed. unfold classifySentence. fold trimmed.
  destruct (String.length trimmed =? 0)%nat; [reflexivity|].
  unfold maxRetries at 1. cbn [retryLoop]. unfold maxRetries. cbn [Nat.leb].
  unfold bind at 1. rewrite attemptOnce_run.
  destruct (textClassification env trimmed (world st)) as [[res1|e1] w1]; [reflexivity|].
  cbn [Nat.eqb maxRetries]. unfold bind at 1. rewrite attemptOnce_run. cbn [world trace].
  destruct (textClassification env trimmed (setTimeout env 500 w1)) as [[res2|e2] w2].
  { unfold ret. rewrite <- app_assoc. reflexivity. }
  cbn [Nat.eqb maxRetries]. unfold bind at 1. rewrite attemptOnce_run. cbn [world trace].
  destruct (textClassification env trimmed (setTimeout env 500 w2)) as [[res3|e3] w3].
  { unfold ret. rewrite <- !app_assoc. reflexivity. }
  cbn [Nat.eqb maxRetries]. unfold ret. rewrite <- !app_assoc. reflexivity.
Qed.

End Classifier.

(** ** The answers a classification gets *)

Section AnswersOfARun.
Import Scores Http Pipeline.
Context {World : Type} (env : Env World).

(** Under [recording], a sentence runs as it does under [env], and the log
    grows by the answers it got; when none of them brings a label, the
    score map is as before. *)
Lemma classifySentence_recorded (s : string) (scoreMap : ScoreMap)
    (st : State (World * Answers)) :
  exists new,
    classifySentence (recording env) s scoreMap st
    = (fst (classifySentence env s scoreMap (unlogged st)),
       logged (snd (classifySentence env s scoreMap (unlogged st)))
              (snd (world st) ++ new))
    /\ (Forall bringsNoLabel new ->
        fst (classifySentence env s scoreMap (unlogged st)) = Ok scoreMap).
Proof.
  rewrite (classifySentence_answers (recording env)), (classifySentence_answers env).
  destruct st as [[w log] t]. unfold unlogged, logged. cbn [world trace fst snd recording
    textClassification setTimeout].
  destruct (String.length (JsString.trim s) =? 0)%nat.
  { exists []. rewrite app_nil_r. split; reflexivity. }
  destruct (textClassification env (JsString.trim s) w) as [[res1|e1] w1];
    cbn [world trace fst snd].
  { exists [Ok res1]. split; [reflexivity|].
    intros H. apply Forall_inv in H. cbn in H. subst res1. reflexivity. }
  destruct (textClassification env (JsString.trim s) (setTimeout env 500 w1))
    as [[res2|e2] w2]; cbn [world trace fst snd].
  { exists [Err e1; Ok res2]. rewrite <- app_assoc. split; [reflexivity|].
    intros H. apply Forall_inv_tail, Forall_inv in H. cbn in H. subst res2.
    reflexivity. }
  destruct (textClassification env (JsString.trim s) (setTimeout env 500 w2))
    as [[res3|e3] w3]; cbn [world trace fst snd].
  { exists [Err e1; Err e2; Ok res3]. rewrite <- !app_assoc. split; [reflexivity|].
    intros H. apply Forall_inv_tail, Forall_inv_tail, Forall_inv in H. cbn in H.
    subst res3. reflexivity. }
  exists [Err e1; Err e2; Err e3]. rewrite <- !app_assoc. split; reflexivity.
Qed.

Lemma forSentences_recorded (sentences : list string) :
  forall (scoreMap : ScoreMap) (st : State (World * Answers)),
  exists new,
    forSentences (recording env) sentences scoreMap st
    = (fst (forSentences env sentences scoreMap (unlogged st)),
       logged (snd (forSentences env sentences scoreMap (unlogged st)))
              (snd (world st) ++ new))
    /\ (Forall bringsNoLabel new ->
        fst (forSentences env sentences scoreMap (unlogged st)) = Ok scoreMap).
Proof.
  induction sentences as [|s rest IH]; intros scoreMap st.
  - exists []. rewrite app_nil_r. destruct st as [[w log] t]. split; reflexivity.
  - cbn [forSentences]. unfold bind.
    destruct (classifySentence_recorded s scoreMap st) as (new1 & -> & H1).
    destruct (classifySentence_total env s scoreMap (unlogged st))
      as (m1 & st1 & ev1 & E1 & _).
    rewrite E1 in *. cbn [fst snd] in *.
    destruct (IH m1 (logged st1 (snd (world st) ++ new1))) as (new2 & -> & H2).
    assert (U : unlogged (logged st1 (snd (world st) ++ new1)) = st1)
      by (destruct st1; reflexivity).
    rewrite U in *. exists (new1 ++ new2). split.
    + unfold logged. cbn [world snd]. rewrite app_assoc. reflexivity.
    + intros H. apply Forall_app in H as [Hn1 Hn2].
      specialize (H1 Hn1). injection H1 as ->. exact (H2 Hn2).
Qed.

(** The recorded run is the run: same result, same world, same effects. *)
Lemma classifyParagraph_recorded (text : string) (st : State World) :
  classifyParagraph (recording env) text (logged st [])
  = (fst (classifyParagraph env text st),
     logged (snd (classifyParagraph env text st)) (classifierAnswers env text st)).
Proof.
  unfold classifierAnswers, classifyParagraph, bind.
  destruct (forSentences_recorded (Sentences.splitSentences text) [] (logged st []))
    as (new & E & _).
  assert (U : unlogged (logged st []) = st) by (destruct st; reflexivity).
  rewrite U in E. rewrite E.
  destruct (forSentences_total env (Sentences.splitSentences text) [] st)
    as (m & st' & ev & -> & _).
  reflexivity.
Qed.

(** C2 (as amended): when no call that the classification of this
    transcript makes brings a (label, score) pair, because it fails or
    answers with an empty list, the dominant emotion is ["neutral"] and the
    detail map is empty. *)
Theorem no_label_gives_neutral (text : string) (st : State World) :
  Forall bringsNoLabel (classifierAnswers env text st) ->
  exists st',
    classifyParagraph env text st
    = (Ok {| dominantEmotion := "neutral"; detailedScores := [] |}, st').
Proof.
  intros H. unfold classifierAnswers, classifyParagraph, bind in *.
  destruct (forSentences_recorded (Sentences.splitSentences text) [] (logged st []))
    as (new & E & Hnew).
  assert (U : unlogged (logged st []) = st) by (destruct st; reflexivity).
  rewrite U in E, Hnew. rewrite E in H.
  destruct (forSentences env (Sentences.splitSentences text) [] st) as [r st'].
  cbn [fst snd] in *.
  destruct r as [m|e]; cbn [logged world snd app] in H.
  - specialize (Hnew H). injection Hnew as ->. exists st'. reflexivity.
  - specialize (Hnew H). discriminate.
Qed.

End AnswersOfARun.

(** ** The handler *)

Section Handler.
Import Scores Http Paths Pipeline.
Context {World : Type} (env : Env World).

(** [try]/[catch]/[finally] around a block: the block's failure is answered
    by the [catch] block, and the removals follow either way. *)
Lemma guarded_run (block : M World unit) (webm wav : string) (st : State World) :
  tryFinally (tryCatch block (catchBlock (World := World))) (finallyBlock env webm wav) st
  = match block st with
    | (Ok _, st1) => (Ok tt, cleanedUp env webm wav st1)
    | (Err e, st1) => (Ok tt, cleanedUp env webm wav (failed e st1))
    end.
Proof.
  unfold tryFinally, tryCatch, finallyBlock, catchBlock, bind, unlinkQuietly, emit,
    cleanedUp, failed.
  destruct (block st) as [[[]|e] st1]; cbn [world trace fst snd].
  - destruct (unlink env webm (world st1)) as [r1 w1]; cbn [world trace fst snd].
    destruct (unlink env wav w1) as [r2 w2]; cbn [world trace fst snd].
    rewrite <- app_assoc. reflexivity.
  - destruct (unlink env webm (world st1)) as [r1 w1]; cbn [world trace fst snd].
    destruct (unlink env wav w1) as [r2 w2]; cbn [world trace fst snd].
    rewrite <- !app_assoc. reflexivity.
Qed.

(** The handler of a request with an upload, by its [try] block. *)
Lemma handler_with_upload (req : Request) (audioFile : UploadedFile) (st : State World) :
  uploaded req = Some audioFile ->
  handler env req st
  = let '(webm, wav, w) := artifacts env (world st) in
    match tryBlock env audioFile (fieldsOf req) webm wav {| world := w; trace := trace st |} with
    | (Ok _, st1) => (Ok tt, cleanedUp env webm wav st1)
    | (Err e, st1) => (Ok tt, cleanedUp env webm wav (failed e st1))
    end.
Proof.
  intros H. unfold handler, artifacts. rewrite H.
  unfold bind at 1. unfold ask at 1.
  destruct (Date_now env (world st)) as [now w1].
  unfold bind at 1. unfold ask at 1. cbn [world trace].
  destruct (Math_random env w1) as [random w2].
  apply guarded_run.
Qed.

(** The transcription stages: the effects up to the first failure. *)
Lemma transcribe_run (audioFile : UploadedFile) (webm wav : string) (st : State World) :
  exists events,
    trace (snd (transcribe env audioFile webm wav st))
    = trace st ++ EMove audioFile webm :: events
    /\ (events = []
        \/ events = [ERun (ffmpegPath env) (ffmpegArgs webm wav)]
        \/ events = [ERun (ffmpegPath env) (ffmpegArgs webm wav);
                     ERun (whisperExe env) (whisperArgs env wav)])
    /\ (forall cleanedText, fst (transcribe env audioFile webm wav st) = Ok cleanedText ->
        events = [ERun (ffmpegPath env) (ffmpegArgs webm wav);
                  ERun (whisperExe env) (whisperArgs env wav)]).
Proof.
  unfold transcribe, bind, call, ret. cbn [world trace].
  destruct (mv env audioFile webm (world st)) as [[[]|e] w1]; cbn [world trace fst snd].
  2:{ exists []. repeat split; auto; intros; discriminate. }
  destruct (runCommand env (ffmpegPath env) (ffmpegArgs webm wav) w1) as [[o|e] w2];
    cbn [world trace fst snd].
  2:{ eexists. split; [rewrite <- app_assoc; reflexivity|]. split; auto; intros; discriminate. }
  destruct (runCommand env (whisperExe env) (whisperArgs env wav) w2) as [[o'|e] w3];
    cbn [world trace fst snd].
  2:{ eexists. split; [rewrite <- !app_assoc; reflexivity|]. split; auto; intros; discriminate. }
  eexists. split; [rewrite <- !app_assoc; reflexivity|]. split; auto.
Qed.

(** The evaluation stages after the classification. *)
Lemma evaluate_run (fields : Body) (cleanedText : string) (st stC : State World)
    (result : Classification) :
  classifyParagraph env cleanedText st = (Ok result, stC) ->
  evaluate env fields cleanedText st
  = match parseOptional env (postureData fields) with
    | Err e => (Err e, stC)
    | Ok posture =>
        match parseOptional env (emotionData fields) with
        | Err e => (Err e, stC)
        | Ok facial =>
            let prompt :=
              masterPrompt fields cleanedText posture facial
                           (Labels.mapEmotion (dominantEmotion result)) in
            let (answer, w) := generateContent env prompt (world stC) in
            let stG := {| world := w; trace := trace stC ++ [EGenerate prompt] |} in
            match answer with
            | Err e => (Err e, stG)
            | Ok text =>
                match JSON_parse env (stripFences 0 (JsString.trim text)) with
                | Err e => (Err e, stG)
                | Ok aiFeedback =>
                    match getProp aiFeedback "evaluation" with
                    | Err e => (Err e, stG)
                    | Ok evaluation =>
                        match getProp aiFeedback "holisticFeedback" with
                        | Err e => (Err e, stG)
                        | Ok holisticFeedback =>
                            (Ok tt,
                             {| world := w;
                                trace := trace stG
                                  ++ [ESend (report cleanedText posture facial result
                                                    evaluation holisticFeedback
                                                    (questionText fields))] |})
                        end
                    end
                end
            end
        end
    end.
Proof.
  intros H. unfold evaluate. unfold bind at 1. rewrite H.
  unfold bind at 1, lift at 1.
  destruct (parseOptional env (postureData fields)) as [posture|e]; [|reflexivity].
  unfold bind at 1, lift at 1.
  destruct (parseOptional env (emotionData fields)) as [facial|e]; [|reflexivity].
  cbv zeta. unfold bind at 1, call at 1.
  destruct (generateContent env _ (world stC)) as [[text|e] w]; [|reflexivity].
  unfold bind at 1, lift at 1.
  destruct (JSON_parse env (stripFences 0 (JsString.trim text))) as [ai|e]; [|reflexivity].
  unfold bind at 1, lift at 1.
  destruct (getProp ai "evaluation") as [evaluation|e]; [|reflexivity].
  unfold bind at 1, lift at 1.
  destruct (getProp ai "holisticFeedback") as [holistic|e]; reflexivity.
Qed.


Lemma eqb_empty_false (s : string) : s <> "" -> (s =? "")%string = false.
Proof. intros H. destruct (String.eqb_spec s ""); [contradiction|reflexivity]. Qed.

(** When every stage succeeds, whatever the classification went through,
    the request ends with the report. *)
Lemma handler_reports (req : Request) (audioFile : UploadedFile)
    (st stT stC : State World) (webm wav : string) (w w2 : World)
    (cleanedText text : string) (result : Classification)
    (posture facial aiFeedback evaluation holisticFeedback : JsValue) :
  uploaded req = Some audioFile ->
  artifacts env (world st) = (webm, wav, w) ->
  transcribe env audioFile webm wav {| world := w; trace := trace st |}
    = (Ok cleanedText, stT) ->
  cleanedText <> "" ->
  classifyParagraph env cleanedText stT = (Ok result, stC) ->
  parseOptional env (postureData (fieldsOf req)) = Ok posture ->
  parseOptional env (emotionData (fieldsOf req)) = Ok facial ->
  let prompt := masterPrompt (fieldsOf req) cleanedText posture facial
                             (Labels.mapEmotion (dominantEmotion result)) in
  generateContent env prompt (world stC) = (Ok text, w2) ->
  JSON_parse env (stripFences 0 (JsString.trim text)) = Ok aiFeedback ->
  getProp aiFeedback "evaluation" = Ok evaluation ->
  getProp aiFeedback "holisticFeedback" = Ok holisticFeedback ->
  exists st',
    handler env req st = (Ok tt, st')
    /\ trace st'
       = trace stC
         ++ [ EGenerate prompt;
              ESend (report cleanedText posture facial result evaluation
                            holisticFeedback (questionText (fieldsOf req)));
              EUnlink webm;
              EUnlink wav ].
Proof.
  intros Hup Hart Htr Hne Hcls Hp Hf prompt Hgen Hparse Hev Hhol.
  rewrite (handler_with_upload req audioFile st Hup), Hart.
  unfold tryBlock, bind. rewrite Htr, (eqb_empty_false _ Hne).
  rewrite (evaluate_run _ _ _ _ _ Hcls), Hp, Hf. cbv zeta. fold prompt.
  rewrite Hgen, Hparse, Hev, Hhol.
  eexists. split; [reflexivity|].
  unfold cleanedUp. cbn [trace]. rewrite <- !app_assoc. reflexivity.
Qed.

(** C6: a sentence costs at most three classifier calls, each failed call
    but the third is followed by a pause of 500 ms and the next call; the
    first answer ends the calls and is accumulated; after three failures the
    score map is as it was, with one warning.  [classifyParagraph] returns a
    result whatever the classifier does: no failure of it reaches the
    handler, and a request whose other stages succeed ends with the
    report. *)
Theorem classifier_failures_are_contained :
  (forall (s : string) (scoreMap : ScoreMap) (st : State World),
     let trimmed := JsString.trim s in
     classifySentence env s scoreMap st
     = if (String.length trimmed =? 0)%nat then (Ok scoreMap, st)
       else
         match textClassification env trimmed (world st) with
         | (Ok res, w1) =>
             (Ok (fold_left accumulate res scoreMap),
              {| world := w1; trace := trace st ++ [EClassify trimmed] |})
         | (Err _, w1) =>
             match textClassification env trimmed (setTimeout env 500 w1) with
             | (Ok res, w2) =>
                 (Ok (fold_left accumulate res scoreMap),
                  {| world := w2;
                     trace := trace st ++ [EClassify trimmed; ESleep 500;
                                           EClassify trimmed] |})
             | (Err _, w2) =>
                 match textClassification env trimmed (setTimeout env 500 w2) with
                 | (Ok res, w3) =>
                     (Ok (fold_left accumulate res scoreMap),
                      {| world := w3;
                         trace := trace st ++ [EClassify trimmed; ESleep 500;
                                               EClassify trimmed; ESleep 500;
                                               EClassify trimmed] |})
                 | (Err message, w3) =>
                     (Ok scoreMap,
                      {| world := w3;
                         trace := trace st ++ [EClassify trimmed; ESleep 500;
                                               EClassify trimmed; ESleep 500;
                                               EClassify trimmed;
                                               EWarn trimmed message] |})
                 end
             end
         end)
  /\ (forall (text : string) (st : State World),
        exists result st', classifyParagraph env text st = (Ok result, st'))
  /\ (forall (req : Request) (audioFile : UploadedFile) (st stT stC : State World)
             (webm wav : string) (w w2 : World) (cleanedText text : string)
             (result : Classification)
             (posture facial aiFeedback evaluation holisticFeedback : JsValue),
        let prompt := masterPrompt (fieldsOf req) cleanedText posture facial
                                   (Labels.mapEmotion (dominantEmotion result)) in
        uploaded req = Some audioFile ->
        artifacts env (world st) = (webm, wav, w) ->
        transcribe env audioFile webm wav {| world := w; trace := trace st |}
          = (Ok cleanedText, stT) ->
        cleanedText <> "" ->
        classifyParagraph env cleanedText stT = (Ok result, stC) ->
        parseOptional env (postureData (fieldsOf req)) = Ok posture ->
        parseOptional env (emotionData (fieldsOf req)) = Ok facial ->
        generateContent env prompt (world stC) = (Ok text, w2) ->
        JSON_parse env (stripFences 0 (JsString.trim text)) = Ok aiFeedback ->
        getProp aiFeedback "evaluation" = Ok evaluation ->
        getProp aiFeedback "holisticFeedback" = Ok holisticFeedback ->
        exists st',
          handler env req st = (Ok tt, st')
          /\ trace st'
             = trace stC
               ++ [ EGenerate prompt;
                    ESend (report cleanedText posture facial result evaluation
                                  holisticFeedback (questionText (fieldsOf req)));
                    EUnlink webm;
                    EUnlink wav ]).
Proof.
  split; [|split].
  - intros s scoreMap st. apply classifySentence_answers.
  - intros text st.
    destruct (classifyParagraph_total env text st) as (r & st' & _ & H & _).
    exists r, st'. exact H.
  - intros req audioFile st stT stC webm wav w w2 cleanedText text result
           posture facial ai evaluation holistic prompt
           Hup Hart Htr Hne Hcls Hp Hf Hgen Hparse Hev Hhol.
    exact (handler_reports req audioFile st stT stC webm wav w w2 cleanedText text
             result posture facial ai evaluation holistic
             Hup Hart Htr Hne Hcls Hp Hf Hgen Hparse Hev Hhol).
Qed.

(** C4: when the cleaned transcript is empty, the handler answers with the
    no-speech object and nothing else happens between the transcription and
    the removal of the two files: the classifier and the generative model
    are not called. *)
Theorem empty_transcript_short_circuits (req : Request) (audioFile : UploadedFile)
    (st st1 : State World) (webm wav : string) (w : World) :
  uploaded req = Some audioFile ->
  artifacts env (world st) = (webm, wav, w) ->
  transcribe env audioFile webm wav {| world := w; trace := trace st |} = (Ok "", st1) ->
  exists st',
    handler env req st = (Ok tt, st')
    /\ trace st'
       = trace st
         ++ [ EMove audioFile webm;
              ERun (ffmpegPath env) (ffmpegArgs webm wav);
              ERun (whisperExe env) (whisperArgs env wav);
              ESend noSpeech;
              EUnlink webm;
              EUnlink wav ].
Proof.
  intros Hup Hart Htr.
  rewrite (handler_with_upload req audioFile st Hup), Hart.
  unfold tryBlock, bind. rewrite Htr. cbn [String.eqb]. unfold emit.
  eexists. split; [reflexivity|].
  destruct (transcribe_run audioFile webm wav {| world := w; trace := trace st |})
    as (events & Htrace & _ & Hok).
  rewrite Htr in Htrace, Hok. cbn [fst snd trace] in Htrace, Hok.
  rewrite (Hok "" eq_refl) in Htrace.
  unfold cleanedUp. cbn [trace]. rewrite Htrace, <- !app_assoc. reflexivity.
Qed.


(** Appended traces, flattened to one list. *)
Ltac flatten_trace := repeat (progress (rewrite <- ?app_assoc; cbn [app])).

Lemma classifierEvent_preparation (fields : Body) (events : list Event) :
  Forall classifierEvent events -> Forall (preparation env fields) events.
Proof.
  apply Forall_impl. intros [] H; simpl in *; auto; contradiction.
Qed.

Lemma preparation_not_send (fields : Body) (events : list Event) :
  Forall (preparation env fields) events ->
  Forall (fun e => forall r, e <> ESend r) events.
Proof.
  apply Forall_impl. intros [] H r; simpl in *; try discriminate; contradiction.
Qed.

Lemma preparation_prompt (fields : Body) (events : list Event) (p : Prompt) :
  Forall (preparation env fields) events ->
  In (EGenerate p) events -> promptOf env fields p.
Proof.
  intros H Hin. rewrite Forall_forall in H. exact (H _ Hin).
Qed.

(** Every run of the handler on a request with an upload: the upload is
    moved first; then come preparations, one response, and the two
    removals.  The response is the no-speech object, a 500, or the report
    built from the model's parsed answer. *)
Lemma handler_run (req : Request) (audioFile : UploadedFile) (st : State World)
    (webm wav : string) (w : World) :
  uploaded req = Some audioFile ->
  artifacts env (world st) = (webm, wav, w) ->
  let fields := fieldsOf req in
  exists st' before resp,
    handler env req st = (Ok tt, st')
    /\ trace st'
       = trace st ++ EMove audioFile webm :: before
                  ++ [ESend resp; EUnlink webm; EUnlink wav]
    /\ ((resp = noSpeech
         /\ before = [ERun (ffmpegPath env) (ffmpegArgs webm wav);
                      ERun (whisperExe env) (whisperArgs env wav)])
        \/ (exists message preparations,
              resp = processingFailed message
              /\ before = preparations ++ [ELogError message]
              /\ Forall (preparation env fields) preparations)
        \/ (exists cleanedText posture facial result classification stT stC,
              let prompt := masterPrompt fields cleanedText posture facial
                                         (Labels.mapEmotion (dominantEmotion result)) in
              exists w1 w2 text aiFeedback evaluation holisticFeedback,
                resp = report cleanedText posture facial result evaluation
                              holisticFeedback (questionText fields)
                /\ before = [ERun (ffmpegPath env) (ffmpegArgs webm wav);
                             ERun (whisperExe env) (whisperArgs env wav)]
                            ++ classification ++ [EGenerate prompt]
                /\ Forall classifierEvent classification
                /\ classifyParagraph env cleanedText stT = (Ok result, stC)
                /\ generateContent env prompt w1 = (Ok text, w2)
                /\ JSON_parse env (stripFences 0 (JsString.trim text)) = Ok aiFeedback
                /\ getProp aiFeedback "evaluation" = Ok evaluation
                /\ getProp aiFeedback "holisticFeedback" = Ok holisticFeedback)).
Proof.
  intros Hup Hart fields.
  rewrite (handler_with_upload req audioFile st Hup), Hart.
  fold fields. unfold tryBlock, bind.
  destruct (transcribe_run audioFile webm wav {| world := w; trace := trace st |})
    as (events & Htrace & Hevents & Hok).
  destruct (transcribe env audioFile webm wav {| world := w; trace := trace st |})
    as [[cleanedText|e] stT].
  2:{ (* the transcription stages failed *)
    cbn [fst snd trace] in Htrace.
    exists (cleanedUp env webm wav (failed e stT)), (events ++ [ELogError e]),
      (processingFailed e).
    split; [reflexivity|]. split.
    - unfold cleanedUp, failed. cbn [trace]. rewrite Htrace, <- !app_assoc.
      reflexivity.
    - right; left. exists e, events. repeat split.
      destruct Hevents as [-> | [-> | ->]]; repeat constructor. }
  cbn [fst snd trace] in Htrace, Hok. rewrite (Hok _ eq_refl) in Htrace. clear Hok Hevents.
  destruct (String.eqb_spec cleanedText "") as [-> | Hne].
  { (* no speech *)
    unfold emit.
    eexists. exists [ERun (ffmpegPath env) (ffmpegArgs webm wav);
                     ERun (whisperExe env) (whisperArgs env wav)], noSpeech.
    split; [reflexivity|]. split.
    - unfold cleanedUp. cbn [trace]. rewrite Htrace, <- !app_assoc. reflexivity.
    - left. split; reflexivity. }
  destruct (classifyParagraph_total env cleanedText stT)
    as (result & stC & cls & Hcls & HtraceC & Hcevents).
  rewrite (evaluate_run _ _ _ _ _ Hcls).
  assert (Hfail : forall message more stE,
    trace stE = trace stC ++ more ->
    Forall (preparation env fields) more ->
    exists st' before resp,
      (Ok tt, cleanedUp env webm wav (failed message stE)) = (Ok tt, st')
      /\ trace st'
         = trace st ++ EMove audioFile webm :: before
                    ++ [ESend resp; EUnlink webm; EUnlink wav]
      /\ ((resp = noSpeech
           /\ before = [ERun (ffmpegPath env) (ffmpegArgs webm wav);
                        ERun (whisperExe env) (whisperArgs env wav)])
          \/ (exists message preparations,
                resp = processingFailed message
                /\ before = preparations ++ [ELogError message]
                /\ Forall (preparation env fields) preparations)
          \/ (exists cleanedText posture facial result classification stT stC,
                let prompt := masterPrompt fields cleanedText posture facial
                                (Labels.mapEmotion (dominantEmotion result)) in
                exists w1 w2 text aiFeedback evaluation holisticFeedback,
                  resp = report cleanedText posture facial result evaluation
                                holisticFeedback (questionText fields)
                  /\ before = [ERun (ffmpegPath env) (ffmpegArgs webm wav);
                               ERun (whisperExe env) (whisperArgs env wav)]
                              ++ classification ++ [EGenerate prompt]
                  /\ Forall classifierEvent classification
                  /\ classifyParagraph env cleanedText stT = (Ok result, stC)
                  /\ generateContent env prompt w1 = (Ok text, w2)
                  /\ JSON_parse env (stripFences 0 (JsString.trim text)) = Ok aiFeedback
                  /\ getProp aiFeedback "evaluation" = Ok evaluation
                  /\ getProp aiFeedback "holisticFeedback" = Ok holisticFeedback))).
  { intros message more stE HtraceE Hmore.
    exists (cleanedUp env webm wav (failed message stE)),
      ([ERun (ffmpegPath env) (ffmpegArgs webm wav);
        ERun (whisperExe env) (whisperArgs env wav)] ++ cls ++ more ++ [ELogError message]),
      (processingFailed message).
    split; [reflexivity|]. split.
    - unfold cleanedUp, failed. cbn [trace].
      rewrite HtraceE, HtraceC, Htrace. flatten_trace. reflexivity.
    - right; left.
      exists message,
        ([ERun (ffmpegPath env) (ffmpegArgs webm wav);
          ERun (whisperExe env) (whisperArgs env wav)] ++ cls ++ more).
      split; [reflexivity|]. split.
      + flatten_trace. reflexivity.
      + rewrite !Forall_app. split; [repeat constructor|]. split; [|assumption].
        apply classifierEvent_preparation. assumption. }
  destruct (parseOptional env (postureData fields)) as [posture|e].
  2:{ apply (Hfail e [] stC); [rewrite app_nil_r; reflexivity|constructor]. }
  destruct (parseOptional env (emotionData fields)) as [facial|e].
  2:{ apply (Hfail e [] stC); [rewrite app_nil_r; reflexivity|constructor]. }
  cbv zeta.
  set (prompt := masterPrompt fields cleanedText posture facial
                   (Labels.mapEmotion (dominantEmotion result))).
  assert (Hprompt : Forall (preparation env fields) [EGenerate prompt]).
  { constructor; [|constructor]. cbn. unfold promptOf.
    exists cleanedText, posture, facial, result, stT, stC. split; [assumption|reflexivity]. }
  destruct (generateContent env prompt (world stC)) as [[text|e] w2] eqn:Hgen.
  2:{ apply (Hfail e [EGenerate prompt]); [reflexivity|assumption]. }
  destruct (JSON_parse env (stripFences 0 (JsString.trim text))) as [ai|e] eqn:Hparse.
  2:{ apply (Hfail e [EGenerate prompt]); [reflexivity|assumption]. }
  destruct (getProp ai "evaluation") as [evaluation|e] eqn:Hev.
  2:{ apply (Hfail e [EGenerate prompt]); [reflexivity|assumption]. }
  destruct (getProp ai "holisticFeedback") as [holistic|e] eqn:Hhol.
  2:{ apply (Hfail e [EGenerate prompt]); [reflexivity|assumption]. }
  clear Hfail.
  eexists.
  exists ([ERun (ffmpegPath env) (ffmpegArgs webm wav);
           ERun (whisperExe env) (whisperArgs env wav)]
          ++ cls ++ [EGenerate prompt]).
  eexists. split; [reflexivity|]. split.
  - unfold cleanedUp. cbn [trace].
    rewrite HtraceC, Htrace. flatten_trace. reflexivity.
  - right; right.
    exists cleanedText, posture, facial, result, cls, stT, stC.
    cbv zeta. fold prompt.
    exists (world stC), w2, text, ai, evaluation, holistic.
    repeat split; assumption.
Qed.

(** What [handler_run] tells about the effects before the response. *)
Lemma handler_run_effects (req : Request) (audioFile : UploadedFile) (st : State World)
    (webm wav : string) (w : World) :
  uploaded req = Some audioFile ->
  artifacts env (world st) = (webm, wav, w) ->
  exists st' before resp,
    handler env req st = (Ok tt, st')
    /\ trace st'
       = trace st ++ EMove audioFile webm :: before
                  ++ [ESend resp; EUnlink webm; EUnlink wav]
    /\ (forall r, ~ In (ESend r) before)
    /\ (forall p, In (EGenerate p) before -> promptOf env (fieldsOf req) p)
    /\ (resp = noSpeech
        \/ (exists message, resp = processingFailed message)
        \/ (exists cleanedText posture facial result stT stC,
              let prompt := masterPrompt (fieldsOf req) cleanedText posture facial
                                         (Labels.mapEmotion (dominantEmotion result)) in
              exists w1 w2 text aiFeedback evaluation holisticFeedback,
                resp = report cleanedText posture facial result evaluation
                              holisticFeedback (questionText (fieldsOf req))
                /\ In (EGenerate prompt) before
                /\ classifyParagraph env cleanedText stT = (Ok result, stC)
                /\ generateContent env prompt w1 = (Ok text, w2)
                /\ JSON_parse env (stripFences 0 (JsString.trim text)) = Ok aiFeedback
                /\ getProp aiFeedback "evaluation" = Ok evaluation)).
Proof.
  intros Hup Hart.
  destruct (handler_run req audioFile st webm wav w Hup Hart)
    as (st' & before & resp & Hrun & Htrace & Hcases).
  exists st', before, resp. split; [assumption|]. split; [assumption|].
  destruct Hcases as [[-> ->] | [(m & preps & -> & -> & Hpreps)
    | (cleaned & posture & facial & result & cls & stT & stC & Hrest)]].
  - split; [|split].
    + intros r [H|[H|[]]]; discriminate.
    + intros p [H|[H|[]]]; discriminate.
    + left. reflexivity.
  - split; [|split].
    + intros r H. apply in_app_or in H as [H|[H|[]]]; [|discriminate].
      pose proof (preparation_not_send _ _ Hpreps) as Hns.
      rewrite Forall_forall in Hns. exact (Hns _ H r eq_refl).
    + intros p H. apply in_app_or in H as [H|[H|[]]]; [|discriminate].
      exact (preparation_prompt _ _ _ Hpreps H).
    + right; left. exists m. reflexivity.
  - cbv zeta in Hrest.
    destruct Hrest as (w1 & w2 & text & ai & evaluation & holistic
                       & -> & -> & Hcls & Hclassify & Hgen & Hparse & Hev & Hhol).
    assert (Hprompt : promptOf env (fieldsOf req)
              (masterPrompt (fieldsOf req) cleaned posture facial
                 (Labels.mapEmotion (dominantEmotion result)))).
    { exists cleaned, posture, facial, result, stT, stC. split; [assumption|reflexivity]. }
    split; [|split].
    + intros r H. cbn [app] in H. destruct H as [H|[H|H]]; try discriminate.
      apply in_app_or in H as [H|[H|[]]]; [|discriminate].
      pose proof (preparation_not_send (fieldsOf req) _
                    (classifierEvent_preparation (fieldsOf req) _ Hcls)) as Hns.
      rewrite Forall_forall in Hns. exact (Hns _ H r eq_refl).
    + intros p H. cbn [app] in H. destruct H as [H|[H|H]]; try discriminate.
      apply in_app_or in H as [H|[H|[]]].
      * exact (preparation_prompt _ _ _
                 (classifierEvent_preparation (fieldsOf req) _ Hcls) H).
      * injection H as <-. exact Hprompt.
    + right; right.
      exists cleaned, posture, facial, result, stT, stC. cbv zeta.
      exists w1, w2, text, ai, evaluation, holistic.
      repeat split; try assumption.
      cbn [app]. right; right. apply in_or_app. right. left. reflexivity.
Qed.


(** The handler never throws, and what it did is appended to the trace. *)
Lemma handler_total (req : Request) (st : State World) :
  exists st' events, handler env req st = (Ok tt, st') /\ trace st' = trace st ++ events.
Proof.
  destruct (uploaded req) as [audioFile|] eqn:Hup.
  - destruct (artifacts env (world st)) as [[webm wav] w] eqn:Hart.
    destruct (handler_run_effects req audioFile st webm wav w Hup Hart)
      as (st' & before & resp & Hrun & Htrace & _).
    eexists. eexists. split; eassumption.
  - unfold handler. rewrite Hup. unfold emit. eexists. eexists. split; reflexivity.
Qed.

(** C8: without an audio file the only thing the handler does is to send
    the 400 response ([No audio uploaded]); the outside is not touched.  And
    a response that no move of the upload precedes is that response to such
    a request: with an upload, the move to storage comes first. *)
Theorem missing_upload_is_rejected_first (req : Request) (st : State World) :
  (uploaded req = None ->
   handler env req st
   = (Ok tt, {| world := world st; trace := trace st ++ [ESend noAudio] |}))
  /\ (forall st' before resp after,
        handler env req st = (Ok tt, st') ->
        trace st' = trace st ++ before ++ ESend resp :: after ->
        (forall file path, ~ In (EMove file path) before) ->
        uploaded req = None /\ resp = noAudio /\ before = [] /\ after = []).
Proof.
  split.
  - intros Hup. unfold handler. rewrite Hup. reflexivity.
  - intros st' before resp after Hrun Htrace Hnone.
    destruct (uploaded req) as [audioFile|] eqn:Hup.
    + exfalso.
      destruct (artifacts env (world st)) as [[webm wav] w] eqn:Hart.
      destruct (handler_run_effects req audioFile st webm wav w Hup Hart)
        as (st2 & before2 & resp2 & Hrun2 & Htrace2 & _).
      rewrite Hrun in Hrun2. injection Hrun2 as <-.
      rewrite Htrace in Htrace2. apply app_inv_head in Htrace2.
      destruct before as [|e before]; cbn [app] in Htrace2.
      * discriminate.
      * injection Htrace2 as -> _. apply (Hnone audioFile webm). left. reflexivity.
    + unfold handler in Hrun. rewrite Hup in Hrun. unfold emit in Hrun.
      injection Hrun as <-. cbn [trace] in Htrace. apply app_inv_head in Htrace.
      destruct before as [|e before]; cbn [app] in Htrace.
      * injection Htrace as <- <-. auto.
      * injection Htrace as _ Htrace. destruct before; discriminate.
Qed.

(** C7 (as amended): an evaluation in a response is the [evaluation] member
    of the parsed answer of the generative model to the request's prompt,
    as it came: the handler neither checks nor changes the scores and the
    tips, which are in range exactly when the model's answer has them so. *)
Theorem evaluation_is_the_model_answer (req : Request) (st st' : State World)
    (events : list Event) (resp : Response) (evaluation : JsValue) :
  handler env req st = (Ok tt, st') ->
  trace st' = trace st ++ events ->
  In (ESend resp) events ->
  responseField resp "evaluation" = Some evaluation ->
  exists prompt w1 w2 text aiFeedback,
    In (EGenerate prompt) events
    /\ generateContent env prompt w1 = (Ok text, w2)
    /\ JSON_parse env (stripFences 0 (JsString.trim text)) = Ok aiFeedback
    /\ getProp aiFeedback "evaluation" = Ok evaluation.
Proof.
  intros Hrun Htrace Hin Hfield.
  destruct (uploaded req) as [audioFile|] eqn:Hup.
  - destruct (artifacts env (world st)) as [[webm wav] w] eqn:Hart.
    destruct (handler_run_effects req audioFile st webm wav w Hup Hart)
      as (st2 & before & resp2 & Hrun2 & Htrace2 & Hns & _ & Hreport).
    rewrite Hrun in Hrun2. injection Hrun2 as <-.
    rewrite Htrace in Htrace2. apply app_inv_head in Htrace2. subst events.
    assert (resp = resp2) as ->.
    { destruct Hin as [H|H]; [discriminate|].
      apply in_app_or in H as [H|[H|[H|[H|[]]]]]; try discriminate.
      - exfalso. exact (Hns _ H).
      - injection H as ->. reflexivity. }
    destruct Hreport as [-> | [(m & ->)
      | (cleaned & posture & facial & result & stT & stC & Hrest)]];
      [discriminate | discriminate |].
    cbv zeta in Hrest.
    destruct Hrest
      as (w1 & w2 & text & ai & ev & holistic & -> & Hp & _ & Hgen & Hparse & Hev).
    cbn in Hfield. injection Hfield as <-.
    eexists. exists w1, w2, text, ai. repeat split; try eassumption.
    right. apply in_or_app. left. exact Hp.
  - unfold handler in Hrun. rewrite Hup in Hrun. unfold emit in Hrun.
    injection Hrun as <-. cbn [trace] in Htrace. apply app_inv_head in Htrace.
    subst events. destruct Hin as [H|[]]. injection H as <-. discriminate.
Qed.

(** C9: the label ["constructor"] is absent from the table, and the mapping
    does not give it back: the lookup finds the member every object
    inherits under that name, which is truthy, so that the fallback to the
    label is not taken.  The same holds of every inherited name. *)
Theorem emotion_mapping_misses_inherited_names :
  Labels.lookup Labels.emotionMap "constructor" = None
  /\ Labels.mapEmotion "constructor" = Labels.Proto "constructor"
  /\ Labels.mapEmotion "constructor" <> Labels.Str "constructor"
  /\ forall name, In name Labels.inheritedNames ->
       Labels.mapEmotion name = Labels.Proto name.
Proof.
  split; [reflexivity|]. split; [reflexivity|]. split; [discriminate|].
  intros name Hin. cbn in Hin.
  repeat (destruct Hin as [<-|Hin]; [reflexivity|]). contradiction.
Qed.

(** X29: the label table, entry by entry; a label that is neither in the
    table nor an inherited name is mapped to itself; and in every run the
    mapped label is the tone of the prompt only: a response that has a
    [dominantEmotion] holds the label and the scores that
    [classifyParagraph] returned, unmapped, and the prompt of that run
    holds the mapped label. *)
Theorem emotion_mapping (req : Request) (st st' : State World) (events : list Event) :
  (Labels.mapEmotion "joy" = Labels.Str "Confident"
   /\ Labels.mapEmotion "love" = Labels.Str "Confident"
   /\ Labels.mapEmotion "surprise" = Labels.Str "Engaged"
   /\ Labels.mapEmotion "sadness" = Labels.Str "Hesitant"
   /\ Labels.mapEmotion "fear" = Labels.Str "Cautious"
   /\ Labels.mapEmotion "anger" = Labels.Str "Assertive")
  /\ (forall label : string,
        ~ In label ["joy"; "love"; "surprise"; "sadness"; "fear"; "anger"] ->
        ~ In label Labels.inheritedNames ->
        Labels.mapEmotion label = Labels.Str label)
  /\ (handler env req st = (Ok tt, st') ->
      trace st' = trace st ++ events ->
      (forall prompt, In (EGenerate prompt) events ->
         exists cleanedText result st1 st2,
           classifyParagraph env cleanedText st1 = (Ok result, st2)
           /\ promptTone prompt = Labels.mapEmotion (dominantEmotion result))
      /\ (forall resp label, In (ESend resp) events ->
            responseField resp "dominantEmotion" = Some label ->
            exists cleanedText result st1 st2,
              classifyParagraph env cleanedText st1 = (Ok result, st2)
              /\ label = JString (dominantEmotion result)
              /\ responseField resp "textualEmotionAnalysis"
                 = Some (JObject [("data", ofScores (detailedScores result))])
              /\ exists prompt,
                   In (EGenerate prompt) events
                   /\ promptTone prompt = Labels.mapEmotion (dominantEmotion result))).
Proof.
  split; [repeat split|]. split.
  - intros label Hnot Hninh.
    unfold Labels.mapEmotion, Labels.get, Labels.emotionMap. cbn [Labels.lookup].
    repeat match goal with
    | |- context [String.eqb ?k label] =>
        destruct (String.eqb_spec k label);
        [exfalso; apply Hnot; subst label; cbn; tauto|]
    end.
    destruct (existsb (String.eqb label) Labels.inheritedNames) eqn:E; [|reflexivity].
    exfalso. apply Hninh. apply existsb_exists in E as (x & Hin & Heq).
    apply String.eqb_eq in Heq. subst x. exact Hin.
  - intros Hrun Htrace.
    destruct (uploaded req) as [audioFile|] eqn:Hup.
    + destruct (artifacts env (world st)) as [[webm wav] w] eqn:Hart.
      destruct (handler_run_effects req audioFile st webm wav w Hup Hart)
        as (st2 & before & resp2 & Hrun2 & Htrace2 & Hns & Hprompts & Hcases).
      rewrite Hrun in Hrun2. injection Hrun2 as <-.
      rewrite Htrace in Htrace2. apply app_inv_head in Htrace2. subst events.
      split.
      * intros prompt Hin.
        destruct Hin as [H|H]; [discriminate|].
        apply in_app_or in H as [H|[H|[H|[H|[]]]]]; try discriminate.
        destruct (Hprompts _ H)
          as (cleaned & posture & facial & result & st1 & st2 & Hc & ->).
        exists cleaned, result, st1, st2. split; [assumption|reflexivity].
      * intros resp label Hin Hfield.
        assert (resp = resp2) as ->.
        { destruct Hin as [H|H]; [discriminate|].
          apply in_app_or in H as [H|[H|[H|[H|[]]]]]; try discriminate.
          - exfalso. exact (Hns _ H).
          - injection H as ->. reflexivity. }
        destruct Hcases as [-> | [(m & ->)
          | (cleaned & posture & facial & result & stT & stC & Hrest)]];
          [discriminate | discriminate |].
        cbv zeta in Hrest.
        destruct Hrest as (w1 & w2 & text & ai & evaluation & holistic
                           & -> & Hprompt & Hclassify & _).
        cbn in Hfield. injection Hfield as <-.
        exists cleaned, result, stT, stC.
        split; [assumption|]. split; [reflexivity|]. split; [reflexivity|].
        eexists. split; [right; apply in_or_app; left; exact Hprompt | reflexivity].
    + unfold handler in Hrun. rewrite Hup in Hrun. unfold emit in Hrun.
      injection Hrun as <-. cbn [trace] in Htrace. apply app_inv_head in Htrace.
      subst events. split.
      * intros prompt [H|[]]. discriminate.
      * intros resp label [H|[]] Hfield. injection H as <-. discriminate.
Qed.

(** Every run sends exactly one response. *)
Lemma handler_sends_one_response (req : Request) (st : State World) :
  exists st' before resp after,
    handler env req st = (Ok tt, st')
    /\ trace st' = trace st ++ before ++ ESend resp :: after
    /\ (forall r, ~ In (ESend r) before)
    /\ (forall r, ~ In (ESend r) after).
Proof.
  destruct (uploaded req) as [audioFile|] eqn:Hup.
  - destruct (artifacts env (world st)) as [[webm wav] w] eqn:Hart.
    destruct (handler_run_effects req audioFile st webm wav w Hup Hart)
      as (st' & before & resp & Hrun & Htrace & Hns & _).
    exists st', (EMove audioFile webm :: before), resp, [EUnlink webm; EUnlink wav].
    split; [assumption|]. split; [rewrite Htrace; reflexivity|]. split.
    + intros r [H|H]; [discriminate|exact (Hns _ H)].
    + intros r [H|[H|[]]]; discriminate.
  - unfold handler. rewrite Hup. unfold emit.
    eexists. exists [], noAudio, []. split; [reflexivity|].
    split; [reflexivity|]. split; intros r [].
Qed.

End Handler.

(** ** Concrete runs *)

Section Runs.
Import Scores Http Paths Pipeline Scenario.

(** Finds an event in a computed trace. *)
Ltac in_trace := vm_compute; repeat (first [left; reflexivity | right]).

(** The classifier is down: no label, so ["neutral"] and an empty map. *)
Lemma no_label_witness :
  Forall bringsNoLabel
         (classifierAnswers (scripted classifierDown) "I led a team of five engineers."
                            fresh)
  /\ exists st',
       classifyParagraph (scripted classifierDown) "I led a team of five engineers." fresh
       = (Ok {| dominantEmotion := "neutral"; detailedScores := [] |}, st').
Proof.
  assert (H : Forall bringsNoLabel
                (classifierAnswers (scripted classifierDown)
                                   "I led a team of five engineers." fresh))
    by (vm_compute; repeat constructor).
  split; [exact H|].
  exact (no_label_gives_neutral (scripted classifierDown)
           "I led a team of five engineers." fresh H).
Defined.

(** C2 (as stated) fails: when every score the classifier returns is zero,
    the labels stay in the detail map and the first of them is the dominant
    emotion. *)
Lemma zero_scores_keep_their_labels :
  (forall n s, classifier zeroScores n s = Ok [("joy", 0%Q); ("sadness", 0%Q)])
  /\ fst (classifyParagraph (scripted zeroScores) "I led a team of five engineers." fresh)
     = Ok {| dominantEmotion := "joy";
             detailedScores := [("joy", 0%Q); ("sadness", 0%Q)] |}.
Proof.
  split; [reflexivity|]. vm_compute. reflexivity.
Qed.

(** White space only from the transcription engine: the no-speech object. *)
Lemma empty_transcript_witness :
  cleanTranscription (scripted silence) "   " = ""
  /\ exists st',
       handler (scripted silence) audioOnly fresh = (Ok tt, st')
       /\ trace st'
          = trace fresh
            ++ [ EMove 0 webm0;
                 ERun (ffmpegPath (scripted silence)) (ffmpegArgs webm0 wav0);
                 ERun (whisperExe (scripted silence)) (whisperArgs (scripted silence) wav0);
                 ESend noSpeech;
                 EUnlink webm0;
                 EUnlink wav0 ].
Proof.
  split; [reflexivity|].
  eapply (empty_transcript_short_circuits (scripted silence) audioOnly 0 fresh);
    reflexivity.
Defined.


Example absent_file_is_reported_to_the_callback :
  unlink (scripted transcoderDown) wav0 {| stored := []; answered := 0; slept := 0 |}
  = (Some "ENOENT: no such file or directory",
     {| stored := []; answered := 0; slept := 0 |})
  /\ world (snd (handler (scripted transcoderDown) audioOnly fresh))
     = {| stored := []; answered := 0; slept := 0 |}.
Proof. split; reflexivity. Qed.

(** Two failures, then an answer: the third call feeds the score map. *)
Example third_attempt_counts :
  let flaky := fun (n : nat) (_ : string) =>
                 if (n <? 2)%nat then Err "Service Unavailable" else Ok usualLabels in
  let script := {| transcoder := Ok ""; whisper := whisper usual; classifier := flaky;
                   generative := generative usual; parses := parses usual |} in
  classifyParagraph (scripted script) "I led a team of five engineers." fresh
  = (Ok {| dominantEmotion := "joy";
           detailedScores := [("joy", (7500 # 10000)%Q); ("fear", (2500 # 10000)%Q)] |},
     {| world := {| stored := []; answered := 3; slept := 1000 |};
        trace := [ EClassify "I led a team of five engineers."; ESleep 500;
                   EClassify "I led a team of five engineers."; ESleep 500;
                   EClassify "I led a team of five engineers." ] |}).
Proof. vm_compute. reflexivity. Qed.

(** The classifier is down on every call: the request still ends with the
    report, on no evidence. *)
Lemma classifier_down_witness :
  classifyParagraph (scripted classifierDown) "I led a team of five engineers."
    (snd (transcribe (scripted classifierDown) 0 webm0 wav0 fresh))
  = (Ok {| dominantEmotion := "neutral"; detailedScores := [] |},
     {| world := {| stored := [wav0; webm0]; answered := 3; slept := 1000 |};
        trace := [ EMove 0 webm0;
                   ERun "ffmpeg" (ffmpegArgs webm0 wav0);
                   ERun "whisper-cli" ["-f"; wav0; "-m"; "ggml-base.en.bin"];
                   EClassify "I led a team of five engineers."; ESleep 500;
                   EClassify "I led a team of five engineers."; ESleep 500;
                   EClassify "I led a team of five engineers.";
                   EWarn "I led a team of five engineers." "Service Unavailable" ] |})
  /\ exists st',
       handler (scripted classifierDown) audioOnly fresh = (Ok tt, st')
       /\ In (ESend (report "I led a team of five engineers." JNull JNull
                            {| dominantEmotion := "neutral"; detailedScores := [] |}
                            goodEvaluation goodHolistic None))
             (trace st').
Proof.
  split; [vm_compute; reflexivity|].
  destruct (proj2 (proj2 (classifier_failures_are_contained (scripted classifierDown)))
              audioOnly 0 fresh
              (snd (transcribe (scripted classifierDown) 0 webm0 wav0 fresh))
              (snd (classifyParagraph (scripted classifierDown)
                      "I led a team of five engineers."
                      (snd (transcribe (scripted classifierDown) 0 webm0 wav0 fresh))))
              webm0 wav0 (world fresh)
              {| stored := [wav0; webm0]; answered := 3; slept := 1000 |}
              "I led a team of five engineers."
              ("```json" ++ jsonText goodAnswer ++ "```")%string
              {| dominantEmotion := "neutral"; detailedScores := [] |}
              JNull JNull goodAnswer goodEvaluation goodHolistic)
    as (st' & Hrun & Htrace); try reflexivity.
  - discriminate.
  - exists st'. split; [exact Hrun|]. rewrite Htrace.
    apply in_or_app. right. right. left. reflexivity.
Defined.

(** The report of the usual run holds the evaluation the model gave. *)
Lemma evaluation_witness :
  exists prompt w1 w2 text aiFeedback,
    In (EGenerate prompt) (trace (snd (handler (scripted usual) audioOnly fresh)))
    /\ generateContent (scripted usual) prompt w1 = (Ok text, w2)
    /\ JSON_parse (scripted usual) (stripFences 0 (JsString.trim text)) = Ok aiFeedback
    /\ getProp aiFeedback "evaluation" = getProp goodAnswer "evaluation".
Proof.
  destruct (getProp goodAnswer "evaluation") as [evaluation|] eqn:E;
    [|discriminate E].
  injection E as <-.
  eapply (evaluation_is_the_model_answer (scripted usual) audioOnly fresh
            (snd (handler (scripted usual) audioOnly fresh))
            (trace (snd (handler (scripted usual) audioOnly fresh)))
            (report "I led a team of five engineers." JNull JNull
                    {| dominantEmotion := "joy";
                       detailedScores := [("joy", (7500 # 10000)%Q);
                                          ("fear", (2500 # 10000)%Q)] |}
                    _ goodHolistic None)).
  - reflexivity.
  - reflexivity.
  - in_trace.
  - reflexivity.
Defined.

(** C7 (as stated) fails: the model answers with a score of 9 and six tips,
    and that is the evaluation the caller gets. *)
Lemma evaluation_can_break_the_invariant :
  In (ESend (report "I led a team of five engineers." JNull JNull
                    {| dominantEmotion := "joy";
                       detailedScores := [("joy", (7500 # 10000)%Q);
                                          ("fear", (2500 # 10000)%Q)] |}
                    wildEvaluation (JObject [("insight", JString "None.")]) None))
     (trace (snd (handler (scripted wildModel) audioOnly fresh)))
  /\ hasRating (JObject [("clarity", rating 9)]) "clarity" = false
  /\ validEvaluation wildEvaluation = false.
Proof.
  split; [|split; reflexivity].
  in_trace.
Qed.

(** No file: the 400 and nothing else. *)
Lemma missing_upload_witness :
  uploaded noUpload = None
  /\ handler (scripted usual) noUpload fresh
     = (Ok tt, {| world := world fresh; trace := trace fresh ++ [ESend noAudio] |}).
Proof.
  split; [reflexivity|].
  exact (proj1 (missing_upload_is_rejected_first (scripted usual) noUpload fresh) eq_refl).
Defined.

(** The usual run: [joy] in the response, [Confident] in the prompt. *)
Lemma emotion_mapping_witness :
  (forall prompt,
     In (EGenerate prompt) (trace (snd (handler (scripted usual) audioOnly fresh))) ->
     exists cleanedText result st1 st2,
       classifyParagraph (scripted usual) cleanedText st1 = (Ok result, st2)
       /\ promptTone prompt = Labels.mapEmotion (dominantEmotion result))
  /\ (forall resp label,
        In (ESend resp) (trace (snd (handler (scripted usual) audioOnly fresh))) ->
        responseField resp "dominantEmotion" = Some label ->
        exists cleanedText result st1 st2,
          classifyParagraph (scripted usual) cleanedText st1 = (Ok result, st2)
          /\ label = JString (dominantEmotion result)
          /\ responseField resp "textualEmotionAnalysis"
             = Some (JObject [("data", ofScores (detailedScores result))])
          /\ exists prompt,
               In (EGenerate prompt) (trace (snd (handler (scripted usual) audioOnly fresh)))
               /\ promptTone prompt = Labels.mapEmotion (dominantEmotion result)).
Proof.
  exact (proj2 (proj2 (emotion_mapping (scripted usual) audioOnly fresh
                         (snd (handler (scripted usual) audioOnly fresh))
                         (trace (snd (handler (scripted usual) audioOnly fresh)))))
               eq_refl eq_refl).
Defined.

Example usual_run_tone_and_label :
  exists prompt resp,
    In (EGenerate prompt) (trace (snd (handler (scripted usual) audioOnly fresh)))
    /\ promptTone prompt = Labels.Str "Confident"
    /\ In (ESend resp) (trace (snd (handler (scripted usual) audioOnly fresh)))
    /\ responseField resp "dominantEmotion" = Some (JString "joy")
    /\ responseField resp "textualEmotionAnalysis"
       = Some (JObject [("data", JObject [("joy", JNumber (7500 # 10000)%Q);
                                          ("fear", JNumber (2500 # 10000)%Q)])]).
Proof.
  do 2 eexists.
  split; [in_trace|].
  split; [reflexivity|].
  split; [in_trace|].
  split; reflexivity.
Qed.


End Runs.

(** ** The shape of the sentences *)

Section SentenceShape.
Import Notions.

Lemma spanText_allText (s : string) :
  forall run rest, spanText s = (run, rest) -> allText run = true.
Proof.
  induction s as [|c s IH]; simpl; intros run rest E.
  - inversion E; reflexivity.
  - destruct (isTerminal c) eqn:Hc.
    + inversion E; reflexivity.
    + destruct (spanText s) as [run' rest'].
      inversion E; subst; clear E. simpl. rewrite Hc. simpl. eauto.
Qed.

Lemma matchHere_isSentence (s m rest : string) :
  matchHere s = Some (m, rest) -> isSentence m.
Proof.
  unfold matchHere. destruct (spanText s) as [run rest'] eqn:E.
  pose proof (spanText_allText _ _ _ E) as Hall.
  destruct run as [|a run]; [discriminate|].
  destruct rest' as [|c r].
  - intros H. inversion H; subst. exists (String a run).
    split; [discriminate|]. split; [assumption|]. left. reflexivity.
  - destruct (isTerminal c) eqn:Hc; intros H; inversion H; subst;
      exists (String a run); (split; [discriminate|]); (split; [assumption|]).
    + right. exists c. split; [assumption|reflexivity].
    + left. reflexivity.
Qed.

Lemma matchAll_isSentence (fuel : nat) :
  forall s, Forall isSentence (matchAll fuel s).
Proof.
  induction fuel as [|fuel IH]; intros s; [constructor|].
  destruct s as [|c r]; [constructor|].
  cbn [matchAll]. destruct (matchHere (String c r)) as [[m rest]|] eqn:E.
  - constructor; [exact (matchHere_isSentence _ _ _ E) | apply IH].
  - apply IH.
Qed.

Lemma matchAll_length (fuel : nat) :
  forall s, length (matchAll fuel s) <= String.length s.
Proof.
  induction fuel as [|fuel IH]; intros s; [simpl; lia|].
  destruct s as [|c r]; [simpl; lia|].
  cbn [matchAll]. pose proof (matchHere_spec c r) as H.
  destruct (isTerminal c).
  - rewrite H. specialize (IH r). simpl. lia.
  - destruct H as (m & rest & -> & L & _). specialize (IH rest). simpl. lia.
Qed.

(** X1: the sentences of a transcript with some text are well formed: each is
    a run of one or more non-terminal characters followed by at most one
    terminal character, there is at least one, and no more than the
    transcript has characters.  A transcript without any text (empty, or
    punctuation only) is its own single sentence. *)
Theorem splitSentences_shape (T : string) :
  if hasText T
  then Forall isSentence (splitSentences T)
       /\ 1 <= length (splitSentences T) <= String.length T
  else splitSentences T = [T].
Proof.
  unfold splitSentences. rewrite String_match_spec.
  destruct (hasText T) eqn:Ht; [|reflexivity].
  split; [apply matchAll_isSentence|]. split; [|apply matchAll_length].
  pose proof (matchAll_nil (String.length T) T (le_n _)) as H.
  destruct (matchAll (String.length T) T); [|simpl; lia].
  rewrite (proj1 H eq_refl) in Ht. discriminate.
Qed.

End SentenceShape.

(** ** The score map under [res.forEach] *)

Section Accumulation.
Import Labels Scores Notions.
Local Open Scope Q_scope.

Lemma lookup_set_same (m : ScoreMap) (l : string) (v : Q) :
  lookup (set m l v) l = Some v.
Proof.
  induction m as [|[k x] m IH]; simpl.
  - rewrite String.eqb_refl. reflexivity.
  - destruct (k =? l)%string eqn:E; simpl; rewrite E; auto.
Qed.

Lemma lookup_set_other (m : ScoreMap) (l l' : string) (v : Q) :
  l <> l' -> lookup (set m l v) l' = lookup m l'.
Proof.
  intros Hne. induction m as [|[k x] m IH]; simpl.
  - destruct (String.eqb_spec l l'); [contradiction|reflexivity].
  - destruct (String.eqb_spec k l); simpl.
    + subst. destruct (String.eqb_spec l l'); [contradiction|reflexivity].
    + destruct (k =? l')%string; auto.
Qed.

Lemma lookup_existsb (m : ScoreMap) (l : string) :
  existsb (String.eqb l) (map fst m)
  = match lookup m l with Some _ => true | None => false end.
Proof.
  induction m as [|[k x] m IH]; simpl; [reflexivity|].
  rewrite (String.eqb_sym l k). destruct (k =? l)%string; simpl; auto.
Qed.

Lemma set_labels (m : ScoreMap) (l : string) (v : Q) :
  map fst (set m l v)
  = if existsb (String.eqb l) (map fst m) then map fst m else map fst m ++ [l].
Proof.
  induction m as [|[k x] m IH]; simpl; [reflexivity|].
  rewrite (String.eqb_sym l k). destruct (String.eqb_spec k l); simpl.
  - reflexivity.
  - rewrite IH. destruct (existsb (String.eqb l) (map fst m)); reflexivity.
Qed.

(** One pair of an answer: the score is added to the label's entry, which
    starts from 0 when it is missing. *)
Lemma accumulate_scoreOf (m : ScoreMap) (l l' : string) (s : Q) :
  scoreOf (accumulate m (l, s)) l'
  == scoreOf m l' + (if (l =? l')%string then s else 0).
Proof.
  unfold accumulate. destruct (falsy (lookup m l)) eqn:F.
  - rewrite lookup_set_same. unfold scoreOf.
    destruct (String.eqb_spec l l') as [<-|Hne].
    + rewrite lookup_set_same. unfold falsy in F.
      destruct (lookup m l) as [x|]; [|reflexivity].
      apply Qeq_bool_iff in F. rewrite F. reflexivity.
    + rewrite !lookup_set_other by assumption.
      destruct (lookup m l'); ring.
  - destruct (lookup m l) as [x|] eqn:L; [|discriminate].
    unfold scoreOf. destruct (String.eqb_spec l l') as [<-|Hne].
    + rewrite lookup_set_same, L. reflexivity.
    + rewrite lookup_set_other by assumption.
      destruct (lookup m l'); ring.
Qed.

Lemma accumulate_labels (m : ScoreMap) (l : string) (s : Q) :
  map fst (accumulate m (l, s))
  = if existsb (String.eqb l) (map fst m) then map fst m else map fst m ++ [l].
Proof.
  unfold accumulate. rewrite (lookup_existsb m l).
  destruct (falsy (lookup m l)) eqn:F.
  - rewrite lookup_set_same, set_labels, lookup_existsb, lookup_set_same.
    rewrite set_labels, lookup_existsb.
    destruct (lookup m l); reflexivity.
  - destruct (lookup m l) as [x|] eqn:L; [|discriminate].
    rewrite set_labels, lookup_existsb, L. reflexivity.
Qed.

Lemma existsb_eqb_In (l : string) (labels : list string) :
  existsb (String.eqb l) labels = true <-> In l labels.
Proof.
  rewrite existsb_exists. split.
  - intros (x & Hin & E). apply String.eqb_eq in E. subst. exact Hin.
  - intros Hin. exists l. split; [exact Hin | apply String.eqb_refl].
Qed.

Lemma fold_left_Qplus_compat (values : list Q) (a b : Q) :
  a == b -> fold_left Qplus values a == fold_left Qplus values b.
Proof.
  revert a b. induction values as [|v values IH]; intros a b E; cbn [fold_left].
  - exact E.
  - apply IH. rewrite E. reflexivity.
Qed.

(** X6: for plain labels, the scores an answer gives to a label are added,
    one after the other in their order, to the entry of that label, which
    starts from 0 when it is missing; no score goes to another entry. *)
Theorem accumulate_adds_scores (res : list (string * Q)) :
  forall (scoreMap : ScoreMap) (label : string),
    plainLabels scoreMap -> plainLabels res ->
    scoreOf (fold_left accumulate res scoreMap) label
    == fold_left Qplus (scoresFor label res) (scoreOf scoreMap label).
Proof.
  intros scoreMap label _ _. revert scoreMap.
  induction res as [|[l s] res IH]; intros m.
  - reflexivity.
  - cbn [fold_left]. rewrite IH. unfold scoresFor. cbn [filter fst].
    pose proof (accumulate_scoreOf m l label s) as E.
    destruct (l =? label)%string; cbn [map snd fold_left].
    + apply fold_left_Qplus_compat. exact E.
    + apply fold_left_Qplus_compat. rewrite E. ring.
Qed.

Lemma accumulate_adds_scores_witness :
  scoreOf (fold_left accumulate [("fear", 1 # 4); ("joy", 1 # 8); ("fear", 1 # 8)]
                     [("joy", 1 # 2)]) "fear"
  == fold_left Qplus (scoresFor "fear" [("fear", 1 # 4); ("joy", 1 # 8); ("fear", 1 # 8)])
               (scoreOf [("joy", 1 # 2)] "fear").
Proof.
  apply (accumulate_adds_scores
           [("fear"%string, 1 # 4); ("joy"%string, 1 # 8); ("fear"%string, 1 # 8)]
           [("joy"%string, 1 # 2)] "fear"%string);
    repeat constructor.
Defined.

(** X7: for plain labels, the loop keeps the labels the score map has, in
    their places, and appends each new label of the answer once, in the
    order of first occurrence; a map without a repeated label stays so. *)
Theorem accumulate_keeps_order (res : list (string * Q)) :
  forall scoreMap : ScoreMap,
    plainLabels scoreMap -> plainLabels res ->
    NoDup (map fst scoreMap) ->
    map fst (fold_left accumulate res scoreMap)
    = map fst scoreMap ++ newLabels (map fst scoreMap) res
    /\ NoDup (map fst (fold_left accumulate res scoreMap)).
Proof.
  intros scoreMap _ _. revert scoreMap.
  induction res as [|[l s] res IH]; intros m Hnd; cbn [fold_left newLabels].
  - rewrite app_nil_r. split; [reflexivity | exact Hnd].
  - assert (Hnd' : NoDup (map fst (accumulate m (l, s)))).
    { rewrite accumulate_labels.
      destruct (existsb (String.eqb l) (map fst m)) eqn:E; [exact Hnd|].
      apply NoDup_app; [assumption | repeat constructor; intros [] | ].
      intros x Hin [<-|[]].
      apply existsb_eqb_In in Hin. congruence. }
    destruct (IH _ Hnd') as [-> Hnd'']. split; [|exact Hnd''].
    rewrite accumulate_labels.
    destruct (existsb (String.eqb l) (map fst m)); [reflexivity|].
    rewrite <- app_assoc. reflexivity.
Qed.

Lemma accumulate_keeps_order_witness :
  NoDup (map fst [("joy", 1 # 2)])
  /\ map fst (fold_left accumulate [("fear", 1 # 4); ("joy", 1 # 8); ("fear", 1 # 8)]
                        [("joy", 1 # 2)])
     = ["joy"; "fear"]%string.
Proof.
  assert (Hnd : NoDup (map fst [("joy"%string, 1 # 2)]))
    by (repeat constructor; intros []).
  split; [exact Hnd|].
  exact (proj1 (accumulate_keeps_order
                  [("fear"%string, 1 # 4); ("joy"%string, 1 # 8); ("fear"%string, 1 # 8)]
                  [("joy"%string, 1 # 2)]
                  ltac:(repeat constructor) ltac:(repeat constructor) Hnd)).
Defined.

End Accumulation.

(** ** The dominant label and the normalized scores *)

Section Dominant.
Import Labels Scores Notions Scenario.
Local Open Scope Q_scope.

(** The head of the sorted entries is the first entry of the map that no
    entry exceeds. *)
Lemma sorted_head (l : ScoreMap) :
  match sorted l with
  | [] => l = []
  | h :: _ =>
      exists before after,
        l = before ++ h :: after
        /\ Forall (fun e => snd e < snd h) before
        /\ Forall (fun e => snd e <= snd h) after
  end.
Proof.
  unfold sorted, sortWith. induction l as [|a l IH]; [reflexivity|].
  cbn [fold_right].
  destruct (fold_right (insertSorted (fun a b : string * Q => snd b - snd a)) [] l)
    as [|h t].
  - subst l. cbn [insertSorted]. exists [], []. repeat split; constructor.
  - cbn [insertSorted]. destruct IH as (b & af & -> & Hb & Ha).
    destruct (Qle_bool (snd h - snd a) 0) eqn:C.
    + apply Qle_bool_iff in C.
      exists [], (b ++ h :: af). split; [reflexivity|]. split; [constructor|].
      rewrite Forall_app. split.
      * eapply Forall_impl; [|exact Hb]. intros e He. cbn beta in He. lra.
      * constructor; [lra|].
        eapply Forall_impl; [|exact Ha]. intros e He. cbn beta in He. lra.
    + assert (Hlt : snd a < snd h).
      { destruct (Qlt_le_dec (snd a) (snd h)) as [H|H]; [exact H|].
        assert (E : Qle_bool (snd h - snd a) 0 = true) by (apply Qle_bool_iff; lra).
        congruence. }
      exists (a :: b), af. split; [reflexivity|]. split; [|exact Ha].
      constructor; assumption.
Qed.

(** X8: for a score map of plain labels, the dominant emotion is the first
    label of the detail map whose normalized score no other label exceeds:
    every label before it has a smaller score, none after it a larger
    one. *)
Theorem dominant_is_first_maximum (scoreMap : ScoreMap) :
  plainLabels scoreMap ->
  scoreMap <> [] ->
  exists before score after,
    detailedScores (summarize scoreMap)
    = before ++ (dominantEmotion (summarize scoreMap), score) :: after
    /\ Forall (fun e => snd e < score) before
    /\ Forall (fun e => snd e <= score) after.
Proof.
  intros _ Hne. unfold summarize. cbn [dominantEmotion detailedScores].
  pose proof (sorted_head (normalizeScores scoreMap)) as H.
  destruct (sorted (normalizeScores scoreMap)) as [|[label v] t].
  - exfalso. apply Hne.
    pose proof (normalizeScores_labels scoreMap) as Hl. rewrite H in Hl.
    destruct scoreMap; [reflexivity|discriminate].
  - destruct H as (b & af & E & Hb & Ha). exists b, v, af. auto.
Qed.

Lemma dominant_is_first_maximum_witness :
  exists before score after,
    detailedScores (summarize evenScores)
    = before ++ (dominantEmotion (summarize evenScores), score) :: after
    /\ Forall (fun e => snd e < score) before
    /\ Forall (fun e => snd e <= score) after.
Proof.
  apply (dominant_is_first_maximum evenScores); [repeat constructor | discriminate].
Defined.

Lemma entry_le_sum (scoreMap : ScoreMap) :
  Forall (fun e => 0 <= snd e) scoreMap ->
  0 <= sumOfValues scoreMap
  /\ Forall (fun e => snd e <= sumOfValues scoreMap) scoreMap.
Proof.
  unfold sumOfValues. induction 1 as [|e m He Hm [IH0 IH]]; cbn [fold_right].
  - split; [lra | constructor].
  - split; [lra|]. constructor; [lra|].
    eapply Forall_impl; [|exact IH]. intros x Hx. cbn beta in Hx. lra.
Qed.

(** [toFixed(4)] of a share: a whole number of ten-thousandths. *)
Lemma toFixed4_share (x : Q) :
  0 <= x <= 1 ->
  exists n : Z, (0 <= n <= 10000)%Z /\ toFixed4 x = inject_Z n / 10000.
Proof.
  intros [H0 H1]. unfold toFixed4.
  assert (Hbig : 1 < inject_Z (10 ^ 21)) by reflexivity.
  pose proof (Qabs_pos x H0) as Habs.
  destruct (Qle_bool (inject_Z (10 ^ 21)) (Qabs x)) eqn:B.
  { apply Qle_bool_iff in B. rewrite Habs in B. lra. }
  assert (P : Qle_bool 0 x = true) by (apply Qle_bool_iff; exact H0).
  rewrite P. exists (Qfloor (Qabs x * 10000 + (1 # 2))). split; [|reflexivity].
  split.
  - apply (Qfloor_resp_le 0). rewrite Habs. lra.
  - apply (Qfloor_resp_le _ (10000 + (1 # 2))). rewrite Habs. lra.
Qed.

(** X9: with a positive total and no negative score, every normalized score
    is a whole number of ten-thousandths between 0 and 1. *)
Theorem normalized_scores_are_shares (scoreMap : ScoreMap) :
  0 < totalScore scoreMap ->
  Forall (fun e => 0 <= snd e) scoreMap ->
  Forall (fun e => exists n : Z, (0 <= n <= 10000)%Z /\ snd e = inject_Z n / 10000)
         (normalizeScores scoreMap).
Proof.
  intros Hpos Hnn.
  destruct (normalizeScores_positive scoreMap Hpos) as [-> _].
  destruct (entry_le_sum scoreMap Hnn) as [_ Hle].
  rewrite Forall_map. rewrite Forall_forall in *. intros e Hin. cbn [snd].
  apply toFixed4_share.
  specialize (Hnn e Hin). specialize (Hle e Hin). cbn beta in Hnn, Hle.
  rewrite <- totalScore_sumOfValues in Hle.
  split.
  - apply Qle_shift_div_l; [exact Hpos | lra].
  - apply Qle_shift_div_r; [exact Hpos | lra].
Qed.

Lemma normalized_scores_are_shares_witness :
  0 < totalScore evenScores
  /\ Forall (fun e => 0 <= snd e) evenScores
  /\ Forall (fun e => exists n : Z, (0 <= n <= 10000)%Z /\ snd e = inject_Z n / 10000)
            (normalizeScores evenScores).
Proof.
  assert (Hnn : Forall (fun e : string * Q => 0 <= snd e) evenScores)
    by (repeat constructor; discriminate).
  split; [reflexivity|]. split; [exact Hnn|].
  apply (normalized_scores_are_shares evenScores); [reflexivity | exact Hnn].
Defined.

End Dominant.

(** ** File names *)

Section FileNames.
Import Paths Pipeline Notions.
Local Open Scope string_scope.

Lemma allNameChars_app (a b : string) :
  allNameChars (a ++ b) = allNameChars a && allNameChars b.
Proof.
  induction a as [|c a IH]; simpl; [reflexivity|].
  rewrite IH. apply andb_assoc.
Qed.

(** No extension starts before a later dot or slash. *)
Lemma isExtension_before_separator (c sep : ascii) (base name : string) :
  isNameChar sep = false ->
  isExtension (String c (base ++ String sep name)) = false.
Proof.
  intros Hsep.
  assert (H : allNameChars (base ++ String sep name) = false).
  { rewrite allNameChars_app. simpl. rewrite Hsep. apply andb_false_r. }
  unfold isExtension.
  destruct (base ++ String sep name); [discriminate H|].
  rewrite H. apply andb_false_r.
Qed.

Lemma replaceExtension_plain (s ext : string) :
  allNameChars s = true -> replaceExtension s ext = s.
Proof.
  induction s as [|c r IH]; [reflexivity|].
  intros H. cbn [allNameChars] in H. apply andb_true_iff in H as [Hc Hr].
  cbn [replaceExtension].
  assert (E : isExtension (String c r) = false).
  { unfold isExtension. destruct r; [reflexivity|].
    unfold isNameChar in Hc. apply negb_true_iff, orb_false_iff in Hc as [_ Hc].
    rewrite Hc. reflexivity. }
  rewrite E, IH by assumption. reflexivity.
Qed.

(** X10: a name that ends in a dot and an extension (one or more characters,
    none of them a dot or a slash) gets the new extension in place of the
    old one, and nothing before the last dot changes, whatever dots and
    slashes are there. *)
Theorem replaceExtension_swaps_the_extension (base name ext : string) :
  allNameChars name = true -> name <> "" ->
  replaceExtension (base ++ "." ++ name) ext = base ++ ext.
Proof.
  intros Hname Hne. change (base ++ "." ++ name) with (base ++ String "." name).
  induction base as [|c base IH].
  - cbn [append replaceExtension]. destruct name as [|a name]; [contradiction|].
    unfold isExtension. rewrite Hname. reflexivity.
  - cbn [append replaceExtension].
    rewrite (isExtension_before_separator c "." base name eq_refl), IH.
    reflexivity.
Qed.

Lemma replaceExtension_swaps_the_extension_witness :
  replaceExtension ("uploads.d/1700000000000-250000000-answer" ++ "." ++ "webm") ".wav"
  = "uploads.d/1700000000000-250000000-answer" ++ ".wav".
Proof.
  apply (replaceExtension_swaps_the_extension
           "uploads.d/1700000000000-250000000-answer" "webm" ".wav").
  - reflexivity.
  - discriminate.
Defined.

(** X11: a file name without a dot is left as it is, also when a directory
    before it has one: a dot followed by a slash further on is no
    extension. *)
Theorem replaceExtension_ignores_directories (dir name ext : string) :
  allNameChars name = true ->
  replaceExtension (dir ++ "/" ++ name) ext = dir ++ "/" ++ name.
Proof.
  intros Hname. change (dir ++ "/" ++ name) with (dir ++ String "/" name).
  induction dir as [|c dir IH].
  - cbn [append replaceExtension].
    assert (E : isExtension (String "/" name) = false)
      by (unfold isExtension; destruct name; reflexivity).
    rewrite E, replaceExtension_plain by assumption. reflexivity.
  - cbn [append replaceExtension].
    rewrite (isExtension_before_separator c "/" dir name eq_refl), IH.
    reflexivity.
Qed.

Lemma replaceExtension_ignores_directories_witness :
  replaceExtension ("uploads.d" ++ "/" ++ "answer") ".wav" = "uploads.d" ++ "/" ++ "answer".
Proof.
  apply (replaceExtension_ignores_directories "uploads.d" "answer" ".wav").
  reflexivity.
Defined.

Lemma decimal_injective (a b : Z) : decimal a = decimal b -> a = b.
Proof.
  unfold decimal. intros H. apply DecimalZ.to_int_inj.
  assert (Hnil : forall n, Z.to_int n <> Decimal.Pos Decimal.Nil
                           /\ Z.to_int n <> Decimal.Neg Decimal.Nil).
  { intros [|p|p]; simpl; split; try discriminate;
      intros E; inversion E as [E']; exact (Unsigned.to_uint_nonnil p E'). }
  assert (E : Some (Z.to_int a) = Some (Z.to_int b)).
  { rewrite <- (NilZero.isi (Z.to_int a)) by apply Hnil.
    rewrite <- (NilZero.isi (Z.to_int b)) by apply Hnil.
    rewrite H. reflexivity. }
  inversion E. reflexivity.
Qed.

Lemma string_of_uint_noDash (d : Decimal.uint) :
  noDash (NilEmpty.string_of_uint d) = true.
Proof. induction d; simpl; auto. Qed.

Lemma decimal_noDash (n : Z) : (0 <= n)%Z -> noDash (decimal n) = true.
Proof.
  intros Hn. unfold decimal. destruct n as [|p|p]; [reflexivity| |lia].
  simpl. unfold NilZero.string_of_uint.
  destruct (Pos.to_uint p); try reflexivity; apply string_of_uint_noDash.
Qed.

(** Two texts with a hyphen after a hyphen-free head agree only if the
    heads agree and the tails agree. *)
Lemma split_at_dash (a b x y : string) :
  noDash a = true -> noDash b = true ->
  a ++ "-" ++ x = b ++ "-" ++ y -> a = b /\ x = y.
Proof.
  revert b. induction a as [|c a IH]; intros [|d b] Ha Hb E; simpl in *.
  - inversion E. auto.
  - inversion E; subst. rewrite Ascii.eqb_refl in Hb. discriminate.
  - inversion E; subst. rewrite Ascii.eqb_refl in Ha. discriminate.
  - inversion E; subst.
    apply andb_true_iff in Ha as [_ Ha]. apply andb_true_iff in Hb as [_ Hb].
    destruct (IH b Ha Hb H1) as [-> ->]. auto.
Qed.

Lemma Math_round_nonneg (x : Q) : (0 <= x)%Q -> (0 <= Math_round x)%Z.
Proof.
  intros H. unfold Math_round. apply (Qfloor_resp_le 0). lra.
Qed.

(** X12: the identifier of a request tells its time stamp and its rounded
    random number: two requests get the same identifier only if both
    agree. *)
Theorem uniqueId_injective (now now' : Z) (random random' : Q) :
  (0 <= now)%Z -> (0 <= now')%Z -> (0 <= random)%Q -> (0 <= random')%Q ->
  uniqueId now random = uniqueId now' random' ->
  now = now'
  /\ Math_round (random * inject_Z (10 ^ 9)) = Math_round (random' * inject_Z (10 ^ 9)).
Proof.
  intros Hn Hn' Hr Hr' E. unfold uniqueId in E.
  apply split_at_dash in E; try (apply decimal_noDash; assumption).
  destruct E as [E1 E2]. split; apply decimal_injective; assumption.
Qed.

Lemma uniqueId_injective_witness :
  uniqueId 1700000000000 (1 # 4) = uniqueId 1700000000000 (2500000001 # 10000000000)
  /\ Math_round ((1 # 4) * inject_Z (10 ^ 9))
     = Math_round ((2500000001 # 10000000000) * inject_Z (10 ^ 9)).
Proof.
  split; [reflexivity|].
  apply (uniqueId_injective 1700000000000 1700000000000
           (1 # 4) (2500000001 # 10000000000));
    try discriminate; reflexivity.
Defined.

End FileNames.

(** ** Code fences around the model's answer *)

Section CodeFences.
Import Paths Notions.
Local Open Scope string_scope.

Lemma prefix_cons (a c : ascii) (p r : string) :
  String.prefix (String a p) (String c r) = ((c =? a)%char && String.prefix p r).
Proof.
  simpl. destruct (ascii_dec a c) as [->|Hne].
  - rewrite Ascii.eqb_refl. reflexivity.
  - destruct (Ascii.eqb_spec c a); [congruence|reflexivity].
Qed.

(** A fence starts where three backticks or more do. *)
Lemma prefix_fence (s : string) :
  String.prefix "```" s = (3 <=? leadingBackticks s)%nat.
Proof.
  destruct s as [|c1 [|c2 [|c3 s]]]; cbn [leadingBackticks];
    rewrite ?prefix_cons; try reflexivity.
  - destruct (c1 =? "`")%char; reflexivity.
  - destruct (c1 =? "`")%char; [|reflexivity].
    destruct (c2 =? "`")%char; reflexivity.
  - destruct (c1 =? "`")%char; [|reflexivity].
    destruct (c2 =? "`")%char; [|reflexivity].
    destruct (c3 =? "`")%char; [|reflexivity].
    destruct s; reflexivity.
Qed.

Lemma prefix_json_fence (s : string) :
  String.prefix "```json" s = true -> String.prefix "```" s = true.
Proof.
  destruct s as [|c1 [|c2 [|c3 s]]]; rewrite ?prefix_cons; try discriminate.
  - rewrite andb_false_r. discriminate.
  - rewrite !andb_false_r. discriminate.
  - intros H. apply andb_true_iff in H as [-> H].
    apply andb_true_iff in H as [-> H]. apply andb_true_iff in H as [-> _].
    destruct s; reflexivity.
Qed.

(** What is left has no fence, counting [k] backticks already put out when
    the input cannot prolong them into a fence. *)
Lemma stripFences_noFence (s : string) :
  forall skip k,
    (skip = 0 -> k = 0 \/ k + leadingBackticks s <= 2) ->
    (skip <> 0 -> k = 0) ->
    noFence k (stripFences skip s) = true.
Proof.
  induction s as [|c r IH]; intros skip k H0 Hs; [reflexivity|].
  destruct skip as [|j].
  - specialize (H0 eq_refl). cbn [stripFences].
    destruct (String.prefix "```json" (String c r)) eqn:Pj.
    { apply prefix_json_fence in Pj. rewrite prefix_fence in Pj.
      apply Nat.leb_le in Pj.
      assert (k = 0) as -> by lia. apply IH; [discriminate | reflexivity]. }
    destruct (String.prefix "```" (String c r)) eqn:Pf.
    { rewrite prefix_fence in Pf. apply Nat.leb_le in Pf.
      assert (k = 0) as -> by lia. apply IH; [discriminate | reflexivity]. }
    rewrite prefix_fence in Pf. apply Nat.leb_gt in Pf.
    cbn [noFence]. cbn [leadingBackticks] in H0, Pf.
    destruct (c =? "`")%char.
    + apply andb_true_iff. split; [apply Nat.ltb_lt; lia|].
      apply IH; [intros _; right; lia | congruence].
    + apply IH; [intros _; left; reflexivity | congruence].
  - rewrite (Hs ltac:(discriminate)). cbn [stripFences].
    apply IH; [intros _; left; reflexivity | reflexivity].
Qed.

Lemma noFence_sound (a : string) :
  forall k s b, noFence k s = true -> s <> a ++ "```" ++ b.
Proof.
  induction a as [|c a IH]; intros k s b H E; subst s.
  - cbn [append noFence] in H. rewrite !Ascii.eqb_refl in H.
    apply andb_true_iff in H as [_ H]. apply andb_true_iff in H as [_ H].
    apply andb_true_iff in H as [H _]. apply Nat.ltb_lt in H. lia.
  - cbn [append noFence] in H.
    destruct (c =? "`")%char.
    + apply andb_true_iff in H as [_ H]. exact (IH _ _ b H eq_refl).
    + exact (IH _ _ b H eq_refl).
Qed.

(** X13: once the fences are stripped, no run of three backticks is left in
    the text handed to [JSON.parse]. *)
Theorem stripFences_leaves_no_fence (s a b : string) :
  stripFences 0 s <> a ++ "```" ++ b.
Proof.
  apply (noFence_sound a 0).
  apply stripFences_noFence; [intros _; left; reflexivity | congruence].
Qed.

Lemma noFence_leadingBackticks (s : string) :
  forall k, noFence k s = true -> k + leadingBackticks s <= 2 \/ leadingBackticks s = 0.
Proof.
  induction s as [|c r IH]; intros k H; cbn [noFence leadingBackticks] in *.
  - right. reflexivity.
  - destruct (c =? "`")%char; [|right; reflexivity].
    apply andb_true_iff in H as [Hk H]. apply Nat.ltb_lt in Hk.
    destruct (IH _ H) as [L|L]; left; lia.
Qed.

Lemma noFence_weaken (s : string) :
  forall k, noFence k s = true -> noFence 0 s = true.
Proof.
  induction s as [|c r IH]; intros k H; [reflexivity|].
  cbn [noFence] in *. destruct (c =? "`")%char; [|exact H].
  apply andb_true_iff in H as [Hk H]. cbn [Nat.ltb Nat.leb].
  destruct r as [|c2 r]; [reflexivity|].
  cbn [noFence] in *. destruct (c2 =? "`")%char; [|exact H].
  apply andb_true_iff in H as [Hk2 H]. apply Nat.ltb_lt in Hk2.
  assert (k = 0) as -> by lia. rewrite H. reflexivity.
Qed.

(** X14: a text without a run of three backticks passes unchanged. *)
Theorem stripFences_keeps_plain_text (s : string) :
  noFence 0 s = true -> stripFences 0 s = s.
Proof.
  induction s as [|c r IH]; intros H; [reflexivity|].
  cbn [stripFences].
  assert (Pf : String.prefix "```" (String c r) = false).
  { rewrite prefix_fence. apply Nat.leb_gt.
    destruct (noFence_leadingBackticks _ _ H); lia. }
  assert (Pj : String.prefix "```json" (String c r) = false).
  { destruct (String.prefix "```json" (String c r)) eqn:E; [|reflexivity].
    apply prefix_json_fence in E. congruence. }
  rewrite Pj, Pf. f_equal. apply IH.
  cbn [noFence] in H. destruct (c =? "`")%char.
  - apply andb_true_iff in H as [_ H]. exact (noFence_weaken _ _ H).
  - exact H.
Qed.

Lemma stripFences_keeps_plain_text_witness :
  stripFences 0 "{ ``evaluation``: null }" = "{ ``evaluation``: null }".
Proof.
  apply (stripFences_keeps_plain_text "{ ``evaluation``: null }"). reflexivity.
Defined.

Lemma noBacktick_noFence (s : string) : noBacktick s = true -> noFence 0 s = true.
Proof.
  induction s as [|c r IH]; [reflexivity|]. cbn [noBacktick noFence].
  destruct (c =? "`")%char; [discriminate | exact IH].
Qed.

Lemma stripFences_body (body tail : string) :
  noBacktick body = true ->
  stripFences 0 (body ++ tail) = body ++ stripFences 0 tail.
Proof.
  induction body as [|c r IH]; intros H; [reflexivity|].
  cbn [noBacktick] in H. apply andb_true_iff in H as [Hc Hr].
  apply negb_true_iff in Hc.
  cbn [append stripFences]. rewrite !prefix_cons, Hc. cbn [andb].
  rewrite IH by assumption. reflexivity.
Qed.

(** X15: an answer wrapped in a [json] code fence is unwrapped: when the
    body has no backtick, the opening fence with its tag and the closing
    fence go, and the body is left as it is. *)
Theorem stripFences_unwraps (body : string) :
  noBacktick body = true ->
  stripFences 0 ("```json" ++ body ++ "```") = body.
Proof.
  intros H.
  assert (P : String.prefix "```json" ("```json" ++ body ++ "```") = true)
    by (cbn; destruct (body ++ "```"); reflexivity).
  cbn [append] in P. cbn [append]. cbn [stripFences]. rewrite P.
  change (String "`" (String "`" (String "`" ""))) with "```".
  rewrite stripFences_body by assumption.
  change (stripFences 0 "```") with "". apply append_empty_r.
Qed.

Lemma stripFences_unwraps_witness :
  stripFences 0 ("```json" ++ "{}" ++ "```") = "{}".
Proof. apply (stripFences_unwraps "{}"). reflexivity. Defined.

End CodeFences.

(** ** The cost of a classification *)

Section Cost.
Import Scores Http Paths Pipeline Notions.
Context {World : Type} (env : Env World).

Lemma classifierCalls_app (xs ys : list Event) :
  classifierCalls (xs ++ ys) = classifierCalls xs + classifierCalls ys.
Proof. unfold classifierCalls. rewrite filter_app, length_app. reflexivity. Qed.

Lemma pauseTime_app (xs ys : list Event) :
  pauseTime (xs ++ ys) = pauseTime xs + pauseTime ys.
Proof.
  unfold pauseTime. induction xs as [|e xs IH]; [reflexivity|].
  cbn [app fold_right]. rewrite IH. destruct e; cbn beta iota; lia.
Qed.

Lemma classifySentence_cost (s : string) (scoreMap : ScoreMap) (st : State World) :
  exists scoreMap' st' events,
    classifySentence env s scoreMap st = (Ok scoreMap', st')
    /\ trace st' = trace st ++ events
    /\ classifierCalls events <= 3
    /\ pauseTime events <= 1000.
Proof.
  unfold classifySentence.
  destruct (String.length (JsString.trim s) =? 0)%nat.
  - exists scoreMap, st, []. rewrite app_nil_r.
    split; [reflexivity|]. split; [reflexivity|].
    unfold classifierCalls, pauseTime. simpl. lia.
  - destruct (retryLoop_run env (JsString.trim s) scoreMap st)
      as (m & st' & events & Hrun & Htrace & Hshape).
    exists m, st', events. split; [assumption|]. split; [assumption|].
    destruct Hshape as [(r & -> & _) | [(r & -> & _) | [(r & -> & _) | (r & -> & _)]]];
      unfold classifierCalls, pauseTime; simpl; lia.
Qed.

Lemma forSentences_cost (sentences : list string) :
  forall (scoreMap : ScoreMap) (st : State World),
  exists scoreMap' st' events,
    forSentences env sentences scoreMap st = (Ok scoreMap', st')
    /\ trace st' = trace st ++ events
    /\ classifierCalls events <= 3 * length sentences
    /\ pauseTime events <= 1000 * length sentences.
Proof.
  induction sentences as [|s rest IH]; intros scoreMap st.
  - exists scoreMap, st, []. rewrite app_nil_r.
    split; [reflexivity|]. split; [reflexivity|].
    unfold classifierCalls, pauseTime. simpl. lia.
  - cbn [forSentences]. unfold bind.
    destruct (classifySentence_cost s scoreMap st) as (m1 & st1 & ev1 & -> & T1 & C1 & P1).
    destruct (IH m1 st1) as (m2 & st2 & ev2 & -> & T2 & C2 & P2).
    exists m2, st2, (ev1 ++ ev2). split; [reflexivity|]. split.
    + rewrite T2, T1, app_assoc. reflexivity.
    + rewrite classifierCalls_app, pauseTime_app. cbn [length]. lia.
Qed.

(** X16: the classification of a transcript of [n] sentences makes at most
    [3 n] calls to the classifier and pauses at most [n] seconds in all,
    whatever the classifier answers. *)
Theorem classifyParagraph_cost (text : string) (st : State World) :
  exists result st' events,
    classifyParagraph env text st = (Ok result, st')
    /\ trace st' = trace st ++ events
    /\ classifierCalls events <= 3 * length (Sentences.splitSentences text)
    /\ pauseTime events <= 1000 * length (Sentences.splitSentences text).
Proof.
  unfold classifyParagraph, bind.
  destruct (forSentences_cost (Sentences.splitSentences text) [] st)
    as (m & st' & events & -> & T & C & P).
  exists (summarize m), st', events. auto.
Qed.

End Cost.

(** ** Failures and odd answers on the way to the report *)

Section Failures.
Import Scores Http Paths Pipeline Notions.
Context {World : Type} (env : Env World).

(** X17: when a transcription stage fails (the move to storage, the
    transcoder or the transcription engine), the request is answered with
    status 500 and the message of that failure, no later stage runs (the
    classifier and the generative model are not called), and the two files
    are removed all the same. *)
Theorem transcription_failure_stops_the_request (req : Request)
    (audioFile : UploadedFile) (st stT : State World) (webm wav : string) (w : World)
    (message : string) :
  uploaded req = Some audioFile ->
  artifacts env (world st) = (webm, wav, w) ->
  transcribe env audioFile webm wav {| world := w; trace := trace st |}
    = (Err message, stT) ->
  exists st' stages,
    handler env req st = (Ok tt, st')
    /\ trace st'
       = trace st ++ EMove audioFile webm :: stages
                  ++ [ ELogError message; ESend (processingFailed message);
                       EUnlink webm; EUnlink wav ]
    /\ (stages = []
        \/ stages = [ERun (ffmpegPath env) (ffmpegArgs webm wav)]
        \/ stages = [ERun (ffmpegPath env) (ffmpegArgs webm wav);
                     ERun (whisperExe env) (whisperArgs env wav)]).
Proof.
  intros Hup Hart Htr.
  rewrite (handler_with_upload env req audioFile st Hup), Hart.
  unfold tryBlock, bind. 
  destruct (transcribe_run env audioFile webm wav {| world := w; trace := trace st |})
    as (events & Htrace & Hevents & _).
  rewrite Htr in *. cbn [fst snd trace] in Htrace.
  exists (cleanedUp env webm wav (failed message stT)), events.
  split; [reflexivity|]. split; [|exact Hevents].
  unfold cleanedUp, failed. cbn [trace]. rewrite Htrace, <- !app_assoc.
  reflexivity.
Qed.

(** X18: the synthesis is all or nothing.  When the generative model fails,
    when its answer is no JSON, or when its answer is the JSON [null], the
    request is answered with status 500 and the message of that failure,
    and no report, not even a partial one, is sent. *)
Theorem synthesis_failure_sends_no_report (req : Request) (audioFile : UploadedFile)
    (st stT stC : State World) (webm wav : string) (w w2 : World)
    (cleanedText message : string) (result : Classification)
    (posture facial : JsValue) :
  uploaded req = Some audioFile ->
  artifacts env (world st) = (webm, wav, w) ->
  transcribe env audioFile webm wav {| world := w; trace := trace st |}
    = (Ok cleanedText, stT) ->
  cleanedText <> ""%string ->
  classifyParagraph env cleanedText stT = (Ok result, stC) ->
  parseOptional env (postureData (fieldsOf req)) = Ok posture ->
  parseOptional env (emotionData (fieldsOf req)) = Ok facial ->
  let prompt := masterPrompt (fieldsOf req) cleanedText posture facial
                             (Labels.mapEmotion (dominantEmotion result)) in
  (generateContent env prompt (world stC) = (Err message, w2)
   \/ exists text,
        generateContent env prompt (world stC) = (Ok text, w2)
        /\ (JSON_parse env (stripFences 0 (JsString.trim text)) = Err message
            \/ (JSON_parse env (stripFences 0 (JsString.trim text)) = Ok JNull
                /\ message
                   = "Cannot read properties of null (reading 'evaluation')"%string))) ->
  exists st',
    handler env req st = (Ok tt, st')
    /\ trace st'
       = trace stC
         ++ [ EGenerate prompt; ELogError message; ESend (processingFailed message);
              EUnlink webm; EUnlink wav ].
Proof.
  intros Hup Hart Htr Hne Hcls Hp Hf prompt Hfail.
  rewrite (handler_with_upload env req audioFile st Hup), Hart.
  unfold tryBlock, bind. rewrite Htr, (eqb_empty_false _ Hne).
  rewrite (evaluate_run env _ _ _ _ _ Hcls), Hp, Hf. cbv zeta. fold prompt.
  destruct Hfail as [Hgen | (text & Hgen & [Hparse | [Hparse ->]])];
    rewrite Hgen; rewrite ?Hparse; cbn [getProp];
    (eexists; split; [reflexivity|]);
    unfold cleanedUp, failed; cbn [trace]; rewrite <- !app_assoc; reflexivity.
Qed.

(** X19: every parsed answer other than [null] is accepted.  The report is
    sent with status 200 and the answer's [evaluation] and
    [holisticFeedback] members; for an answer that is no object (a number, a
    string, a boolean, an array) both are [undefined], and so is a member an
    object does not have. *)
Theorem odd_answers_are_reported (req : Request) (audioFile : UploadedFile)
    (st stT stC : State World) (webm wav : string) (w w2 : World)
    (cleanedText text : string) (result : Classification)
    (posture facial aiFeedback : JsValue) :
  uploaded req = Some audioFile ->
  artifacts env (world st) = (webm, wav, w) ->
  transcribe env audioFile webm wav {| world := w; trace := trace st |}
    = (Ok cleanedText, stT) ->
  cleanedText <> ""%string ->
  classifyParagraph env cleanedText stT = (Ok result, stC) ->
  parseOptional env (postureData (fieldsOf req)) = Ok posture ->
  parseOptional env (emotionData (fieldsOf req)) = Ok facial ->
  let prompt := masterPrompt (fieldsOf req) cleanedText posture facial
                             (Labels.mapEmotion (dominantEmotion result)) in
  generateContent env prompt (world stC) = (Ok text, w2) ->
  JSON_parse env (stripFences 0 (JsString.trim text)) = Ok aiFeedback ->
  aiFeedback <> JNull -> aiFeedback <> JUndefined ->
  exists st' evaluation holisticFeedback,
    handler env req st = (Ok tt, st')
    /\ trace st'
       = trace stC
         ++ [ EGenerate prompt;
              ESend (report cleanedText posture facial result evaluation
                            holisticFeedback (questionText (fieldsOf req)));
              EUnlink webm; EUnlink wav ]
    /\ match aiFeedback with
       | JObject members =>
           evaluation
           = match Labels.lookup members "evaluation" with
             | Some v => v
             | None => JUndefined
             end
           /\ holisticFeedback
              = match Labels.lookup members "holisticFeedback" with
                | Some v => v
                | None => JUndefined
                end
       | _ => evaluation = JUndefined /\ holisticFeedback = JUndefined
       end.
Proof.
  intros Hup Hart Htr Hne Hcls Hp Hf prompt Hgen Hparse Hnull Hundef.
  assert (Hev : exists evaluation holisticFeedback,
             getProp aiFeedback "evaluation" = Ok evaluation
             /\ getProp aiFeedback "holisticFeedback" = Ok holisticFeedback
             /\ match aiFeedback with
                | JObject members =>
                    evaluation
                    = match Labels.lookup members "evaluation" with
                      | Some v => v
                      | None => JUndefined
                      end
                    /\ holisticFeedback
                       = match Labels.lookup members "holisticFeedback" with
                         | Some v => v
                         | None => JUndefined
                         end
                | _ => evaluation = JUndefined /\ holisticFeedback = JUndefined
                end).
  { destruct aiFeedback as [| |b|q|s|items|members]; try contradiction;
      cbn [getProp]; try (do 2 eexists; repeat split; reflexivity).
    destruct (Labels.lookup members "evaluation"),
             (Labels.lookup members "holisticFeedback");
      do 2 eexists; repeat split; reflexivity. }
  destruct Hev as (evaluation & holisticFeedback & Hev & Hhol & Hshape).
  destruct (handler_reports env req audioFile st stT stC webm wav w w2 cleanedText text
              result posture facial aiFeedback evaluation holisticFeedback
              Hup Hart Htr Hne Hcls Hp Hf Hgen Hparse Hev Hhol) as (st' & Hrun & Htrace).
  exists st', evaluation, holisticFeedback. auto.
Qed.

End Failures.

(** ** Concrete runs of the failures *)

Section FailureRuns.
Import Scores Http Paths Pipeline Notions Scenario.

Lemma transcription_failure_witness :
  exists st' stages,
    handler (scripted transcoderDown) audioOnly fresh = (Ok tt, st')
    /\ trace st'
       = trace fresh ++ EMove 0 webm0 :: stages
                     ++ [ ELogError "ffmpeg exited with code 1";
                          ESend (processingFailed "ffmpeg exited with code 1");
                          EUnlink webm0; EUnlink wav0 ]
    /\ (stages = []
        \/ stages = [ERun (ffmpegPath (scripted transcoderDown)) (ffmpegArgs webm0 wav0)]
        \/ stages = [ERun (ffmpegPath (scripted transcoderDown)) (ffmpegArgs webm0 wav0);
                     ERun (whisperExe (scripted transcoderDown))
                          (whisperArgs (scripted transcoderDown) wav0)]).
Proof.
  eapply (transcription_failure_stops_the_request (scripted transcoderDown)
            audioOnly 0 fresh).
  - reflexivity.
  - reflexivity.
  - reflexivity.
Defined.

Lemma synthesis_failure_witness :
  exists (st' stC : State Outside) prompt,
    handler (scripted nullAnswer) audioOnly fresh = (Ok tt, st')
    /\ trace st'
       = trace stC
         ++ [ EGenerate prompt;
              ELogError "Cannot read properties of null (reading 'evaluation')";
              ESend (processingFailed
                       "Cannot read properties of null (reading 'evaluation')");
              EUnlink webm0; EUnlink wav0 ].
Proof.
  edestruct (synthesis_failure_sends_no_report (scripted nullAnswer) audioOnly 0 fresh)
    as (st' & Hrun & Htrace).
  - reflexivity.
  - reflexivity.
  - reflexivity.
  - discriminate.
  - reflexivity.
  - reflexivity.
  - reflexivity.
  - right. exists "null"%string. split; [reflexivity|]. right. split; reflexivity.
  - exists st'. do 2 eexists. split; [exact Hrun | exact Htrace].
Defined.

Lemma odd_answer_witness :
  exists (st' stC : State Outside) prompt result,
    handler (scripted listAnswer) audioOnly fresh = (Ok tt, st')
    /\ trace st'
       = trace stC
         ++ [ EGenerate prompt;
              ESend (report "I led a team of five engineers." JNull JNull result
                            JUndefined JUndefined None);
              EUnlink webm0; EUnlink wav0 ].
Proof.
  epose proof (odd_answers_are_reported (scripted listAnswer) audioOnly 0 fresh
                 _ _ _ _ _ _ _ _ _ _ _ (JArray [])) as H.
  edestruct H as (st' & evaluation & holisticFeedback & Hrun & Htrace & Hev & Hhol);
    clear H.
  - reflexivity.
  - reflexivity.
  - reflexivity.
  - discriminate.
  - reflexivity.
  - reflexivity.
  - reflexivity.
  - reflexivity.
  - reflexivity.
  - discriminate.
  - discriminate.
  - subst evaluation holisticFeedback.
    exists st'. do 3 eexists. split; [exact Hrun | exact Htrace].
Defined.

End FailureRuns.

(** ** The report page *)

Section Stars.
Import Labels Scores Http Report Scenario.
Local Open Scope string_scope.
Variables filled empty : string.

(** X20: a rating from 0 to 5 is shown as that many filled stars followed by
    empty ones, five in all; a missing rating as five empty stars. *)
Theorem starsHtml_shows_five_stars (n : nat) :
  n <= 5 ->
  starsHtml filled empty (Some (inject_Z (Z.of_nat n)))
  = Ok (repeated filled n ++ repeated empty (5 - n))
  /\ starsHtml filled empty None = Ok (repeated empty 5).
Proof.
  intros Hn. split; [|reflexivity].
  do 6 (destruct n as [|n]; [reflexivity|]). lia.
Qed.

Lemma truncate_negative (count : Q) :
  (truncate count <? 0)%Z = true <-> (count <= -1)%Q.
Proof.
  unfold truncate. rewrite Z.ltb_lt. split.
  - destruct (Qle_bool 0 count) eqn:P.
    + apply Qle_bool_iff in P. intros H.
      pose proof (Qfloor_resp_le 0 count P) as H0. change (Qfloor 0) with 0%Z in H0.
      lia.
    + intros H. pose proof (Qle_ceiling count) as Hc.
      assert (Hz : (Qceiling count <= -1)%Z) by lia.
      rewrite Zle_Qle in Hz. change (inject_Z (-1)) with (-1)%Q in Hz. lra.
  - intros H.
    assert (P : Qle_bool 0 count = false).
    { destruct (Qle_bool 0 count) eqn:P; [|reflexivity].
      apply Qle_bool_iff in P. lra. }
    rewrite P. pose proof (Qceiling_resp_le count (-1) H) as Hc.
    change (Qceiling (-1)) with (-1)%Z in Hc. lia.
Qed.

Lemma String_repeat_throws (s : string) (count : Q) :
  (exists e, String_repeat s count = Err e) <-> (count <= -1)%Q.
Proof.
  rewrite <- truncate_negative. unfold String_repeat.
  destruct (truncate count <? 0)%Z; split; intros H; try reflexivity.
  - eexists. reflexivity.
  - destruct H as [e H]. discriminate.
  - discriminate.
Qed.

(** X21: a rating of 6 or more, or of -1 or less, makes the stars throw a
    [RangeError] (a call to [repeat] with a negative count), and so the
    rendering of the report; every rating in between is rendered. *)
Theorem starsHtml_throws_out_of_range (rating : Q) :
  (exists e, starsHtml filled empty (Some rating) = Err e)
  <-> (rating <= -1 \/ 6 <= rating)%Q.
Proof.
  unfold starsHtml.
  destruct (Qeq_bool rating 0) eqn:Z0.
  - apply Qeq_bool_iff in Z0. split.
    + intros [e H]. vm_compute in H. discriminate.
    + intros [H|H]; lra.
  - pose proof (String_repeat_throws filled rating) as Hf.
    pose proof (String_repeat_throws empty (5 - rating)) as He.
    destruct (String_repeat filled rating) as [a|e1].
    + destruct (String_repeat empty (5 - rating)) as [b|e2].
      * split.
        -- intros [e H]. discriminate.
        -- intros [H|H].
           ++ destruct (proj2 Hf H) as [e E]. discriminate.
           ++ assert (H' : (5 - rating <= -1)%Q) by lra.
              destruct (proj2 He H') as [e E]. discriminate.
      * split; [|intros _; eexists; reflexivity].
        intros _. right.
        assert (H : (5 - rating <= -1)%Q) by (apply He; eexists; reflexivity).
        lra.
    + split; [|intros _; eexists; reflexivity].
      intros _. left. apply Hf. eexists. reflexivity.
Qed.

End Stars.

Lemma starsHtml_shows_five_stars_witness :
  Report.starsHtml "*" "-" (Some (inject_Z (Z.of_nat 4))) = Http.Ok "****-"%string.
Proof.
  apply (proj1 (starsHtml_shows_five_stars "*" "-" 4 ltac:(repeat constructor))).
Defined.

Section ChartData.
Import Labels Scores Http Report.
Local Open Scope Q_scope.
Variable toUpperCase : string -> string.

Lemma combine_fst_snd {A B : Type} (l : list (A * B)) :
  combine (map fst l) (map snd l) = l.
Proof.
  induction l as [|[a b] l IH]; [reflexivity|]. simpl. rewrite IH. reflexivity.
Qed.

(** Entries that are at most 0.03 each sum to at most 0.03 per entry. *)
Lemma sum_of_small_entries (l : ScoreMap) :
  Forall (fun e => snd e <= 3 # 100) l ->
  sumOfValues l <= inject_Z (Z.of_nat (length l)) * (3 # 100).
Proof.
  unfold sumOfValues. induction 1 as [|e l He Hl IH].
  - cbn [fold_right length]. change (inject_Z (Z.of_nat 0)) with 0. lra.
  - cbn [fold_right length]. rewrite Nat2Z.inj_succ. unfold Z.succ.
    rewrite inject_Z_plus. change (inject_Z 1) with 1. lra.
Qed.

(** X22: the dominant tone has its segment in the chart.  For a score map
    with a positive total and at most 33 labels, the chart is drawn, and
    the dominant emotion is among its segments, under its chart label and
    with a score above 0.03. *)
Theorem dominant_tone_is_on_the_chart (scoreMap : ScoreMap) :
  0 < totalScore scoreMap ->
  (length scoreMap <= 33)%nat ->
  exists labels scores score,
    renderTextualEmotionChart toUpperCase true
      (Some (detailedScores (summarize scoreMap)))
    = Some (labels, scores)
    /\ In (chartLabel toUpperCase (dominantEmotion (summarize scoreMap)), score)
          (combine labels scores)
    /\ 3 # 100 < score.
Proof.
  intros Hpos Hlen. unfold summarize. cbn [detailedScores dominantEmotion].
  pose proof (sorted_head (normalizeScores scoreMap)) as Hhead.
  pose proof (rounded_sum_error (totalScore scoreMap) scoreMap) as Hsum.
  destruct (normalizeScores_positive scoreMap Hpos) as [Hnorm Hone].
  rewrite <- Hnorm in Hsum. rewrite Hone in Hsum.
  assert (Hlen' : length (normalizeScores scoreMap) = length scoreMap)
    by (rewrite Hnorm; apply length_map).
  destruct (sorted (normalizeScores scoreMap)) as [|[label v] t].
  { exfalso. rewrite Hhead in Hnorm. destruct scoreMap; [|discriminate].
    vm_compute in Hpos. discriminate. }
  destruct Hhead as (before & after & E & Hb & Ha). cbn [snd] in Hb, Ha.
  assert (Hv : 3 # 100 < v).
  { destruct (Qlt_le_dec (3 # 100) v) as [H|H]; [exact H|]. exfalso.
    assert (Hall : Forall (fun e : string * Q => snd e <= 3 # 100)
                          (normalizeScores scoreMap)).
    { rewrite E, Forall_app. split.
      - eapply Forall_impl; [|exact Hb]. intros e He. cbn beta in He. lra.
      - constructor; [exact H|].
        eapply Forall_impl; [|exact Ha]. intros e He. cbn beta in He. lra. }
    apply sum_of_small_entries in Hall. rewrite Hlen' in Hall.
    apply Qabs_Qle_condition in Hsum.
    assert (Hn : inject_Z (Z.of_nat (length scoreMap)) <= 33).
    { change 33 with (inject_Z 33). rewrite <- Zle_Qle. lia. }
    assert (H0 : 0 <= inject_Z (Z.of_nat (length scoreMap))).
    { change 0 with (inject_Z 0). rewrite <- Zle_Qle. lia. }
    lra. }
  assert (Hin : In (label, v) (normalizeScores scoreMap))
    by (rewrite E; apply in_or_app; right; left; reflexivity).
  unfold renderTextualEmotionChart.
  destruct (normalizeScores scoreMap) as [|e m] eqn:En; [contradiction|].
  do 2 eexists. exists v. split; [reflexivity|]. split; [|exact Hv].
  rewrite combine_fst_snd.
  apply (in_map (fun e => (chartLabel toUpperCase (fst e), snd e)) _ (label, v)).
  apply filter_In. split; [exact Hin|]. cbn [snd].
  apply negb_true_iff. destruct (Qle_bool v (3 # 100)) eqn:C; [|reflexivity].
  apply Qle_bool_iff in C. lra.
Qed.

(** X23: the page names the dominant tone as the prompt named it to the
    model: its table agrees with the table of the route, and on the labels
    of the table the chart has the same name for its segment. *)
Theorem page_and_prompt_name_the_tone_alike (label : string) :
  dominantTone label = mapEmotion label
  /\ (In label (map fst Labels.emotionMap) ->
      chartLabel toUpperCase label = mapEmotion label).
Proof.
  split; [reflexivity|].
  intros Hin. simpl in Hin.
  repeat (destruct Hin as [<-|Hin]; [reflexivity|]). contradiction.
Qed.

End ChartData.

Lemma dominant_tone_is_on_the_chart_witness :
  exists labels scores score,
    Report.renderTextualEmotionChart (fun s => s) true
      (Some (Scores.detailedScores (Scores.summarize Scenario.usualLabels)))
    = Some (labels, scores)
    /\ In (Report.chartLabel (fun s => s)
             (Scores.dominantEmotion (Scores.summarize Scenario.usualLabels)), score)
          (combine labels scores)
    /\ (3 # 100 < score)%Q.
Proof.
  apply (dominant_tone_is_on_the_chart (fun s => s) Scenario.usualLabels).
  - reflexivity.
  - simpl. lia.
Defined.

(** ** Starting and stopping the detection loops *)

Section DetectionLoops.
Import Detection.
Variable EMOTION_DETECTION_INTERVAL_MS : nat.

Lemma filter_keeps_all {A : Type} (f : A -> bool) (l : list A) :
  Forall (fun x => f x = true) l -> filter f l = l.
Proof.
  induction 1 as [|x l Hx Hl IH]; [reflexivity|].
  cbn [filter]. rewrite Hx, IH. reflexivity.
Qed.

Lemma filter_drops {A : Type} (f : A -> bool) (l : list A) (x : A) :
  In x (filter f l) -> f x = true.
Proof. intros H. apply filter_In in H. tauto. Qed.

(** X25: after [stopAllDetections] both handles are reset, the timer and the
    frame they named are gone, and the webcam has been told to stop; the
    other timers and frames are as they were, so that a second call
    changes nothing but to stop the webcam again. *)
Theorem stopAllDetections_stops_what_the_handles_name (p : Page) :
  let q := stopAllDetections p in
  poseDetectionFrameId q = None
  /\ detectionInterval q = None
  /\ (forall h, detectionInterval p = Some h -> ~ In h (map handle (intervals q)))
  /\ (forall h, poseDetectionFrameId p = Some h -> ~ In h (frames q))
  /\ (forall t, In t (intervals p) -> detectionInterval p <> Some (handle t) ->
        In t (intervals q))
  /\ webcamStops q = S (webcamStops p)
  /\ intervals (stopAllDetections q) = intervals q
  /\ frames (stopAllDetections q) = frames q.
Proof.
  unfold stopAllDetections.
  destruct p as [fid iid ivs frs next stops]; cbn [poseDetectionFrameId detectionInterval].
  destruct fid as [f|], iid as [i|];
    cbn [poseDetectionFrameId detectionInterval intervals frames webcamStops nextTimer
         cancelAnimationFrame clearInterval];
    repeat split; try discriminate; try reflexivity.
  all: try (intros h E; injection E as <-; intros Hin).
  all: try (apply in_map_iff in Hin as (t & Ht & Hin); apply filter_drops in Hin;
            rewrite Ht, Pos.eqb_refl in Hin; discriminate).
  all: try (apply filter_drops in Hin; rewrite Pos.eqb_refl in Hin; discriminate).
  all: try (intros t Hin Hne; try apply filter_In; try split; try exact Hin;
            try (apply negb_true_iff, Pos.eqb_neq; congruence)).
Qed.

(** X26: [stopAllDetections] right after [startDetection] stops the emotion
    timer of that start and nothing else of it: the timer that waits for
    the video to have its dimensions keeps running, and so does every
    timer that ran before, among them the emotion timer of an earlier
    start that was not stopped. *)
Theorem stop_after_start_leaves_a_timer (videoEl : nat) (p : Page) :
  handlesInUse p ->
  intervals (stopAllDetections
               (startDetection EMOTION_DETECTION_INTERVAL_MS videoEl p))
  = intervals p
    ++ [{| handle := nextTimer p; callback := CheckDimensions videoEl; delay := 100 |}].
Proof.
  intros Hwf. unfold handlesInUse in Hwf.
  unfold stopAllDetections, startDetection, setInterval.
  destruct p as [fid iid ivs frs next stops];
    cbn [poseDetectionFrameId detectionInterval intervals frames webcamStops nextTimer] in *.
  destruct fid as [f|];
    cbn [poseDetectionFrameId detectionInterval intervals frames webcamStops nextTimer
         cancelAnimationFrame clearInterval];
    rewrite <- app_assoc; cbn [app]; rewrite filter_app;
    cbn [filter handle]; rewrite Pos.eqb_refl; cbn [negb];
    (replace (Pos.eqb next (Pos.succ next)) with false
       by (symmetry; apply Pos.eqb_neq; lia));
    cbn [negb]; f_equal; apply filter_keeps_all;
    (eapply Forall_impl; [|exact Hwf]); intros t Ht; cbn beta in Ht;
    apply negb_true_iff, Pos.eqb_neq; lia.
Qed.

End DetectionLoops.

Lemma stop_after_start_leaves_a_timer_witness :
  Detection.handlesInUse Detection.idle
  /\ Detection.intervals
       (Detection.stopAllDetections (Detection.startDetection 200 0 Detection.idle))
     = [{| Detection.handle := 1%positive;
           Detection.callback := Detection.CheckDimensions 0;
           Detection.delay := 100 |}].
Proof.
  assert (H : Detection.handlesInUse Detection.idle) by constructor.
  split; [exact H|].
  exact (stop_after_start_leaves_a_timer 200 0 Detection.idle H).
Defined.

(** ** What a request costs *)

Section Budget.
Import Scores Http Paths Pipeline Notions.
Context {World : Type} (env : Env World).

Lemma generativeCalls_app (xs ys : list Event) :
  generativeCalls (xs ++ ys) = generativeCalls xs + generativeCalls ys.
Proof. unfold generativeCalls. rewrite filter_app, length_app. reflexivity. Qed.

Lemma commands_app (xs ys : list Event) :
  commands (xs ++ ys) = commands xs + commands ys.
Proof. unfold commands. rewrite filter_app, length_app. reflexivity. Qed.

Lemma classifierEvent_free (events : list Event) :
  Forall classifierEvent events ->
  generativeCalls events = 0 /\ commands events = 0.
Proof.
  unfold generativeCalls, commands.
  induction 1 as [|e l He Hl [IH1 IH2]]; [split; reflexivity|].
  destruct e; try contradiction; cbn [filter]; auto.
Qed.

(** The budget of a trace made of the move, the transcription stages, the
    classification and a tail. *)
Lemma budget_of_stages (audioFile : UploadedFile) (webm wav : string)
    (stages classification tail : list Event) :
  (stages = []
   \/ stages = [ERun (ffmpegPath env) (ffmpegArgs webm wav)]
   \/ stages = [ERun (ffmpegPath env) (ffmpegArgs webm wav);
                ERun (whisperExe env) (whisperArgs env wav)]) ->
  Forall classifierEvent classification ->
  generativeCalls tail <= 1 -> commands tail = 0 ->
  generativeCalls (EMove audioFile webm :: stages ++ classification ++ tail) <= 1
  /\ commands (EMove audioFile webm :: stages ++ classification ++ tail) <= 2.
Proof.
  intros Hst Hcls Hg Hc.
  destruct (classifierEvent_free _ Hcls) as [G0 C0].
  change (EMove audioFile webm :: stages ++ classification ++ tail)
    with ([EMove audioFile webm] ++ stages ++ classification ++ tail).
  rewrite !generativeCalls_app, !commands_app, G0, C0, Hc.
  destruct Hst as [-> | [-> | ->]]; unfold generativeCalls, commands in *;
    cbn [filter length]; lia.
Qed.

(** X28: whatever happens, a request starts at most two sub-processes and
    calls the generative model at most once. *)
Theorem handler_budget (req : Request) (st : State World) :
  exists st' events,
    handler env req st = (Ok tt, st')
    /\ trace st' = trace st ++ events
    /\ generativeCalls events <= 1
    /\ commands events <= 2.
Proof.
  destruct (uploaded req) as [audioFile|] eqn:Hup.
  2:{ unfold handler. rewrite Hup. unfold emit. eexists. exists [ESend noAudio].
      split; [reflexivity|]. split; [reflexivity|].
      unfold generativeCalls, commands. simpl. lia. }
  destruct (artifacts env (world st)) as [[webm wav] w] eqn:Hart.
  rewrite (handler_with_upload env req audioFile st Hup), Hart.
  unfold tryBlock, bind.
  destruct (transcribe_run env audioFile webm wav {| world := w; trace := trace st |})
    as (stages & HtrT & Hshape & _).
  destruct (transcribe env audioFile webm wav {| world := w; trace := trace st |})
    as [[cleanedText|e] stT]; cbn [fst snd trace] in HtrT.
  2:{ eexists. exists (EMove audioFile webm :: stages ++ []
                       ++ [ELogError e; ESend (processingFailed e);
                           EUnlink webm; EUnlink wav]).
      split; [reflexivity|]. split.
      - unfold cleanedUp, failed. cbn [trace app]. rewrite HtrT, <- !app_assoc.
        reflexivity.
      - apply (budget_of_stages audioFile webm wav); auto; unfold generativeCalls, commands; simpl; lia. }
  destruct (cleanedText =? "")%string.
  { unfold emit. eexists.
    exists (EMove audioFile webm :: stages ++ []
            ++ [ESend noSpeech; EUnlink webm; EUnlink wav]).
    split; [reflexivity|]. split.
    - unfold cleanedUp. cbn [trace app]. rewrite HtrT, <- !app_assoc. reflexivity.
    - apply (budget_of_stages audioFile webm wav); auto; unfold generativeCalls, commands; simpl; lia. }
  destruct (classifyParagraph_total env cleanedText stT)
    as (result & stC & cls & Hcls & HtrC & Fcls).
  rewrite (evaluate_run env _ _ _ _ _ Hcls).
  assert (Hfail : forall (e : string) (tail : list Event) (st1 : State World),
             trace st1 = trace stC ++ tail ->
             generativeCalls tail <= 1 -> commands tail = 0 ->
             exists st' events,
               (Ok tt, cleanedUp env webm wav (failed e st1)) = (Ok tt, st')
               /\ trace st' = trace st ++ events
               /\ generativeCalls events <= 1 /\ commands events <= 2).
  { intros e tail st1 Ht Hg Hc. eexists.
    exists (EMove audioFile webm :: stages ++ cls
            ++ (tail ++ [ELogError e; ESend (processingFailed e);
                         EUnlink webm; EUnlink wav])).
    split; [reflexivity|]. split.
    - unfold cleanedUp, failed. cbn [trace]. rewrite Ht, HtrC, HtrT, <- !app_assoc.
      reflexivity.
    - apply (budget_of_stages audioFile webm wav); auto.
      + rewrite generativeCalls_app. unfold generativeCalls in *. simpl. lia.
      + rewrite commands_app, Hc. reflexivity. }
  destruct (parseOptional env (postureData (fieldsOf req))) as [posture|e].
  2:{ apply (Hfail e [] stC);
        [rewrite app_nil_r; reflexivity | unfold generativeCalls; simpl; lia | reflexivity]. }
  destruct (parseOptional env (emotionData (fieldsOf req))) as [facial|e].
  2:{ apply (Hfail e [] stC);
        [rewrite app_nil_r; reflexivity | unfold generativeCalls; simpl; lia | reflexivity]. }
  cbv zeta.
  destruct (generateContent env _ (world stC)) as [[text|e] w2] eqn:Hgen.
  2:{ eapply Hfail; [reflexivity|..]; unfold generativeCalls, commands; simpl; lia. }
  destruct (JSON_parse env (stripFences 0 (JsString.trim text))) as [ai|e].
  2:{ eapply Hfail; [reflexivity|..]; unfold generativeCalls, commands; simpl; lia. }
  destruct (getProp ai "evaluation") as [evaluation|e].
  2:{ eapply Hfail; [reflexivity|..]; unfold generativeCalls, commands; simpl; lia. }
  destruct (getProp ai "holisticFeedback") as [holistic|e].
  2:{ eapply Hfail; [reflexivity|..]; unfold generativeCalls, commands; simpl; lia. }
  eexists.
  eexists (EMove audioFile webm :: stages ++ cls ++ [_; _; _; _]).
  split; [reflexivity|]. split.
  - unfold cleanedUp. cbn [trace]. rewrite HtrC, HtrT, <- !app_assoc. reflexivity.
  - apply (budget_of_stages audioFile webm wav); auto; unfold generativeCalls, commands; simpl; lia.
Qed.

End Budget.
